(** * The chat gateway and the ticker proxy of crypto-analyst-ui

    A shallow embedding of the modules of the dashboard that carry logic:

    - the chat route with the cadence limiter ([enforceCadence],
      [callBedrockWithRetry], [POST]);
    - the second copy of the chat route, which has the same retry loop with a
      linear wait and no cadence limiter;
    - the top-crypto route ([GET]): filter, sort, first 25;
    - the crypto-history route ([GET]), the chat form of the page
      ([handleChatAsk]) and the user names of the sign-up form
      ([deriveUsernameFromEmail]).

    JavaScript values are modelled as far as the handlers inspect them:
    strings are sequences of UTF-16 code units, numbers are rationals
    extended with NaN and the infinities, parsed JSON is a tree.  Effects go
    through a small state-and-exception monad over a [World] holding the
    module-level variables, the clock and a trace of the outbound effects;
    what the platform answers (the agent, the random source, the timers) is
    read from an [Env].

    Two things the embedding does not have.  Arithmetic is exact, where the
    source computes in doubles: sums and products are not rounded.  And
    every awaited call settles, by a result or by a failure: a call that
    stays pending for ever is not represented, so the properties speak of
    what a run has done by the time it ends, not of its ending. *)

From Stdlib Require Import ZArith QArith Qround String Ascii Lia Lqa.
From Stdlib Require Import DecimalString.
From stdpp Require Import gmap list.

Local Open Scope Z_scope.

(** ** JavaScript strings *)

Module JsString.

(** A string is its sequence of UTF-16 code units. *)
Definition t := list N.

(** A source literal (ASCII only) as code units. *)
Definition lit (s : string) : list N :=
  List.map N_of_ascii (list_ascii_of_string s).

Fixpoint startsWith (s p : list N) {struct p} : bool :=
  match p with
  | [] => true
  | c :: p' =>
      match s with
      | [] => false
      | d :: s' => (c =? d)%N && startsWith s' p'
      end
  end.

(** [s.includes(sub)] *)
Fixpoint includes (s sub : list N) : bool :=
  startsWith s sub ||
  match s with
  | [] => false
  | _ :: s' => includes s' sub
  end.

(** [s.endsWith(suf)] *)
Definition endsWith (s suf : list N) : bool :=
  startsWith (rev s) (rev suf).

(** WhiteSpace and LineTerminator of ECMAScript, the code units that
    [trim] removes. *)
Definition isWhiteSpace (c : N) : bool :=
  ((9 <=? c) && (c <=? 13) || (c =? 32) || (c =? 160) || (c =? 5760)
   || (8192 <=? c) && (c <=? 8202) || (c =? 8232) || (c =? 8233)
   || (c =? 8239) || (c =? 8287) || (c =? 12288) || (c =? 65279))%N.

Fixpoint trimStart (s : list N) : list N :=
  match s with
  | c :: s' => if isWhiteSpace c then trimStart s' else s
  | [] => []
  end.

Definition trimEnd (s : list N) : list N := rev (trimStart (rev s)).

(** [s.trim()] *)
Definition trim (s : list N) : list N := trimEnd (trimStart s).

(** Every code unit is white space. *)
Definition blank (s : list N) : bool := forallb isWhiteSpace s.

End JsString.

Abbreviation jsstring := (list N).
Abbreviation lit := JsString.lit.

(** ** JavaScript numbers *)

Module JsNumber.

(** A number is a double; the handlers only subtract and compare, so the
    finite ones are kept as rationals. *)
Inductive t := NaN | NegInf | Finite (q : Q) | PosInf.

Definition zero : t := Finite 0.

Definition isNaN (x : t) : bool :=
  match x with NaN => true | _ => false end.

(** [a - b] *)
Definition sub (a b : t) : t :=
  match a, b with
  | NaN, _ | _, NaN => NaN
  | PosInf, PosInf | NegInf, NegInf => NaN
  | PosInf, _ | _, NegInf => PosInf
  | NegInf, _ | _, PosInf => NegInf
  | Finite x, Finite y => Finite (x - y)
  end.

(** [x > 0]; false on NaN. *)
Definition positive (x : t) : bool :=
  match x with
  | PosInf => true
  | Finite q => (0 <? Qnum q)%Z
  | _ => false
  end.

(** [x < 0]; false on NaN. *)
Definition negative (x : t) : bool :=
  match x with
  | NegInf => true
  | Finite q => (Qnum q <? 0)%Z
  | _ => false
  end.

(** The order of the extended reals on the numbers that are not NaN. *)
Definition le (a b : t) : Prop :=
  match a, b with
  | NaN, _ | _, NaN => False
  | NegInf, _ | _, PosInf => True
  | Finite x, Finite y => (x <= y)%Q
  | _, _ => False
  end.

End JsNumber.

(** ** Parsed JSON *)

#[local] Set Warnings "-register-all".

(** What [JSON.parse] builds.  An object keeps its members in document
    order; a later member with the same key overrides an earlier one. *)
Inductive Json :=
| JNull
| JBool (b : bool)
| JNum (n : JsNumber.t)
| JStr (s : jsstring)
| JArr (items : list Json)
| JObj (members : list (jsstring * Json)).

(** A JavaScript value that came out of JSON, or [undefined] ([None]). *)
Abbreviation JsValue := (option Json).

(** ToBoolean *)
Definition truthy (v : JsValue) : bool :=
  match v with
  | None | Some JNull => false
  | Some (JBool b) => b
  | Some (JNum n) =>
      match n with
      | JsNumber.NaN => false
      | JsNumber.Finite q => negb (Qnum q =? 0)
      | _ => true
      end
  | Some (JStr s) => negb (Nat.eqb (length s) 0)
  | Some (JArr _) | Some (JObj _) => true
  end.

(** [typeof v === 'string'] *)
Definition isString (v : JsValue) : bool :=
  match v with Some (JStr _) => true | _ => false end.

Fixpoint lookupMember (k : jsstring) (ms : list (jsstring * Json)) : JsValue :=
  match ms with
  | [] => None
  | (k', v) :: ms' =>
      match lookupMember k ms' with
      | Some v' => Some v'
      | None => if decide (k' = k) then Some v else None
      end
  end.

(** [j.k] for a [j] that is neither [null] nor [undefined]: only objects
    have members named by the handlers. *)
Definition getProp (j : Json) (k : jsstring) : JsValue :=
  match j with
  | JObj ms => lookupMember k ms
  | _ => None
  end.

(** ToPrimitive on a value that came out of [JSON.parse], as [Number] and
    [parseFloat] apply it, throws a TypeError on these values.  An object is
    converted by the first of [valueOf] and [toString] that can be called
    and returns a primitive: the inherited [valueOf] returns the object
    itself, the inherited [toString] a string, and a member named
    ['toString'] hides the latter behind a value that cannot be called, which
    leaves nothing to try.  An array is converted by [join], which converts
    its elements in the same way. *)
Fixpoint unconvertible (j : Json) : bool :=
  match j with
  | JObj ms =>
      match lookupMember (lit "toString") ms with
      | Some _ => true
      | None => false
      end
  | JArr items => existsb unconvertible items
  | _ => false
  end.

Definition NOT_PRIMITIVE : string := "Cannot convert object to primitive value".

(** ** TextDecoder *)

Module TextDecoder.

(** The UTF-8 decoder of the Encoding Standard in replacement mode: [cp] is
    the code point under construction, [pending] the continuation bytes
    still expected, [lower] and [upper] the range allowed for the next
    one.  A malformed sequence yields U+FFFD and the offending byte is
    looked at again as a lead byte. *)
Definition lead (v : N) (k : N -> nat -> N -> N -> list N) : list N :=
  (if v <=? 127 then v :: k 0 O 128 191
   else if (194 <=? v) && (v <=? 223) then k (N.land v 31) 1%nat 128 191
   else if (224 <=? v) && (v <=? 239) then
     k (N.land v 15) 2%nat (if v =? 224 then 160 else 128)
       (if v =? 237 then 159 else 191)
   else if (240 <=? v) && (v <=? 244) then
     k (N.land v 7) 3%nat (if v =? 240 then 144 else 128)
       (if v =? 244 then 143 else 191)
   else 65533 :: k 0 O 128 191)%N.

Fixpoint codePoints (bs : list Byte.byte) (cp : N) (pending : nat)
    (lower upper : N) : list N :=
  match bs with
  | [] => match pending with O => [] | S _ => [65533%N] end
  | b :: rest =>
      let v := Byte.to_N b in
      match pending with
      | O => lead v (codePoints rest)
      | S p =>
          if ((lower <=? v) && (v <=? upper))%N then
            let cp' := (cp * 64 + N.land v 63)%N in
            match p with
            | O => cp' :: codePoints rest 0%N O 128%N 191%N
            | S _ => codePoints rest cp' p 128%N 191%N
            end
          else 65533%N :: lead v (codePoints rest)
      end
  end.

(** A leading byte order mark is dropped (ignoreBOM is off by default). *)
Definition stripBOM (cps : list N) : list N :=
  match cps with
  | c :: cps' => if (c =? 65279)%N then cps' else cps
  | [] => []
  end.

(** A code point as one or two UTF-16 code units. *)
Definition codeUnits (c : N) : list N :=
  (if c <? 65536 then [c]
   else [55296 + (c - 65536) / 1024; 56320 + (c - 65536) mod 1024])%N.

(** [decoder.decode(bytes)]: without the stream option every call decodes
    its bytes from a fresh state and flushes at the end. *)
Definition decode (bs : list Byte.byte) : jsstring :=
  flat_map codeUnits (stripBOM (codePoints bs 0%N O 128%N 191%N)).

End TextDecoder.

(** The bytes of an ASCII literal, as a stream chunk carries them. *)
Definition bytesOf (s : string) : list Byte.byte :=
  List.map byte_of_ascii (list_ascii_of_string s).

(** ** Errors and the agent's answers *)

(** An error object as the handlers look at it: [err.name] and
    [err.message], either of which may be [undefined]. *)
Record JsError := mkError { name : option jsstring; message : option jsstring }.

(** What a [throw] carries: an error object or, from [throw lastError]
    with nothing caught, [undefined]. *)
Inductive Thrown := ThrownUndefined | ThrownError (e : JsError).

(** [err?.message] *)
Definition messageOf (t : Thrown) : option jsstring :=
  match t with
  | ThrownUndefined => None
  | ThrownError e => message e
  end.

(** [m || d] for an optional string [m]. *)
Definition orElse (m : option jsstring) (d : jsstring) : jsstring :=
  match m with
  | Some ((_ :: _) as s) => s
  | _ => d
  end.

Record InvokeAgentCommand := mkCommand {
  agentId : jsstring;
  agentAliasId : jsstring;
  sessionId : jsstring;
  inputText : jsstring
}.

(** [event.chunk?.bytes] is read from these two layers. *)
Record Chunk := mkChunk { bytes : option (list Byte.byte) }.
Record StreamEvent := mkEvent { chunk : option Chunk }.

(** The async iterable [response.completion]: the events it yields and,
    when it breaks off, the error its iteration then throws. *)
Record Completion := mkCompletion {
  events : list StreamEvent;
  failure : option JsError
}.

Record InvokeAgentResponse := mkResponse { completion : option Completion }.

(** What [client.send(command)] settles to. *)
Inductive SendOutcome :=
| Resolved (r : InvokeAgentResponse)
| Rejected (e : JsError).

(** ** The platform and the process state *)

(** What the platform answers during one run, indexed by how many times it
    was asked before. *)
Record Env := mkEnv {
  BEDROCK_AGENT_ID : option jsstring;        (* process.env *)
  BEDROCK_AGENT_ALIAS_ID : option jsstring;  (* process.env *)
  sendOutcome : nat -> SendOutcome;  (* bedrockClient.send *)
  sendLatency : nat -> Z;            (* ms until it settles *)
  randomDraw : nat -> Q;             (* Math.random() *)
  timerLate : nat -> Z;              (* ms a timer fires after its delay *)
  uuid : nat -> jsstring             (* crypto.randomUUID() *)
}.

(** The contracts of the platform that the properties below lean on: a
    timer does not fire before its delay has passed, and [Math.random()]
    is in [0, 1). *)
Definition timersNotEarly (env : Env) : Prop :=
  forall i, 0 <= timerLate env i.

Definition drawsInRange (env : Env) : Prop :=
  forall i, (0 <= randomDraw env i /\ randomDraw env i < 1)%Q.

(** Outbound effects, and the moment the limiter records a permitted call
    (a ghost entry: the trace then shows what preceded what). *)
Inductive Effect :=
| Slept (ms : Q)
| Sent (cmd : InvokeAgentCommand)
| Permitted (sid : jsstring) (timestamp : Z).

Record World := mkWorld {
  clock : Z;                                (* Date.now(), in ms *)
  lastCallPerSession : gmap jsstring Z;
  lastGlobalCall : Z;
  sends : nat;
  draws : nat;
  sleeps : nat;
  uuids : nat;
  trace : list Effect                       (* oldest first *)
}.

(** The state of a freshly loaded module. *)
Definition boot (t0 : Z) : World :=
  mkWorld t0 ∅ 0 0 0 0 0 [].

Inductive Outcome (A : Type) :=
| Returned (a : A)
| Threw (t : Thrown).
Arguments Returned {A} a.
Arguments Threw {A} t.

Definition M (A : Type) : Type := World -> Outcome A * World.

Definition ret {A} (a : A) : M A := fun w => (Returned a, w).

Definition throw {A} (t : Thrown) : M A := fun w => (Threw t, w).

Definition bind {A B} (m : M A) (k : A -> M B) : M B :=
  fun w =>
    match m w with
    | (Returned a, w') => k a w'
    | (Threw t, w') => (Threw t, w')
    end.

(** [try { m } catch (err) { h err }] *)
Definition tryCatch {A} (m : M A) (h : Thrown -> M A) : M A :=
  fun w =>
    match m w with
    | (Returned a, w') => (Returned a, w')
    | (Threw t, w') => h t w'
    end.

Declare Scope js_scope.
Delimit Scope js_scope with js.
Notation "'let*' x := m 'in' k" := (bind m (fun x => k))
  (at level 10, x name, m at level 100, k at level 200) : js_scope.
Notation "m ;; k" := (bind m (fun _ => k))
  (at level 100, k at level 200, right associativity) : js_scope.
Local Open Scope js_scope.

Section Platform.

Variable env : Env.

(** [Date.now()] *)
Definition Date_now : M Z := fun w => (Returned (clock w), w).

(** [await sleep(ms)]: the timer fires no earlier than [ms] after it was
    set, which the integer clock shows as at least the whole part. *)
Definition sleep (ms : Q) : M unit := fun w =>
  (Returned tt,
   mkWorld (clock w + Qfloor ms + timerLate env (sleeps w))
     (lastCallPerSession w) (lastGlobalCall w)
     (sends w) (draws w) (S (sleeps w)) (uuids w)
     (trace w ++ [Slept ms])).

(** [Math.random()] *)
Definition Math_random : M Q := fun w =>
  (Returned (randomDraw env (draws w)),
   mkWorld (clock w) (lastCallPerSession w) (lastGlobalCall w)
     (sends w) (S (draws w)) (sleeps w) (uuids w) (trace w)).

(** [crypto.randomUUID()] *)
Definition randomUUID : M jsstring := fun w =>
  (Returned (uuid env (uuids w)),
   mkWorld (clock w) (lastCallPerSession w) (lastGlobalCall w)
     (sends w) (draws w) (sleeps w) (S (uuids w)) (trace w)).

(** [await bedrockClient.send(command)] *)
Definition send (cmd : InvokeAgentCommand) : M InvokeAgentResponse := fun w =>
  let w' :=
    mkWorld (clock w + sendLatency env (sends w))
      (lastCallPerSession w) (lastGlobalCall w)
      (S (sends w)) (draws w) (sleeps w) (uuids w)
      (trace w ++ [Sent cmd]) in
  match sendOutcome env (sends w) with
  | Resolved r => (Returned r, w')
  | Rejected e => (Threw (ThrownError e), w')
  end.

End Platform.

(** Reads and writes of the module-level variables. *)
Definition lastCallPerSession_get (sid : jsstring) : M (option Z) :=
  fun w => (Returned (lastCallPerSession w !! sid), w).

Definition lastCallPerSession_set (sid : jsstring) (t : Z) : M unit := fun w =>
  (Returned tt,
   mkWorld (clock w) (<[sid := t]> (lastCallPerSession w)) (lastGlobalCall w)
     (sends w) (draws w) (sleeps w) (uuids w) (trace w)).

Definition lastGlobalCall_get : M Z :=
  fun w => (Returned (lastGlobalCall w), w).

Definition lastGlobalCall_set (t : Z) : M unit := fun w =>
  (Returned tt,
   mkWorld (clock w) (lastCallPerSession w) t
     (sends w) (draws w) (sleeps w) (uuids w) (trace w)).

(** Ghost step: note an effect in the trace. *)
Definition note (e : Effect) : M unit := fun w =>
  (Returned tt,
   mkWorld (clock w) (lastCallPerSession w) (lastGlobalCall w)
     (sends w) (draws w) (sleeps w) (uuids w) (trace w ++ [e])).

(** [x || 0] for a number that may be [undefined]. *)
Definition orZero (o : option Z) : Z :=
  match o with
  | Some t => if t =? 0 then 0 else t
  | None => 0
  end.

(** An error raised by the engine itself. *)
Definition TypeError (msg : string) : Thrown :=
  ThrownError (mkError (Some (lit "TypeError")) (Some (lit msg))).

(** ** What the two copies of the chat route share *)

(** The HTTP response built by [NextResponse.json]: the status and the
    value that is serialised as the body. *)
Record HttpResponse := mkHttp { status : Z; body : Json }.

(** [await req.json()] either parses or rejects. *)
Inductive Request :=
| Unparsable (e : JsError)
| Parsed (j : Json).

Definition quote : jsstring := [34%N].

Definition MISSING_QUESTION : jsstring :=
  lit "Missing " ++ quote ++ lit "question" ++ quote ++ lit " in request body".

Definition NO_REPLY : jsstring :=
  lit "Sorry, I could not get a response from the Finance Agent.".

Definition GENERIC_FAILURE : jsstring :=
  lit "Failed to contact the Finance Agent due to rate limiting or another error.".

Definition THROTTLING_TEXT : jsstring := lit "Your request rate is too high".

Definition THROTTLING_NAME : jsstring := lit "ThrottlingException".

(** The test of the [catch] block of [callBedrockWithRetry]:
    [msg.includes('Your request rate is too high') ||
     err.name === 'ThrottlingException'] with [msg = err?.message || '']. *)
Definition retryable (e : JsError) : bool :=
  JsString.includes (orElse (message e) []) THROTTLING_TEXT
  || bool_decide (name e = Some THROTTLING_NAME).

Section Shared.

Variable env : Env.

Definition AGENT_ID : jsstring := orElse (BEDROCK_AGENT_ID env) (lit "HYEOBH27GN").

Definition AGENT_ALIAS_ID : jsstring :=
  orElse (BEDROCK_AGENT_ALIAS_ID env) (lit "HKYBMPQHTH").

(** The [for] loop of [callBedrockWithRetry], entered with [attempt] and
    [remaining] values of [attempt] still to go, that is
    [remaining = maxRetries + 1 - attempt] while [attempt <= maxRetries].
    [backoff] is the wait of the copy at hand. *)
Fixpoint retryLoop (backoff : Z -> M unit) (command : InvokeAgentCommand)
    (remaining : nat) (attempt : Z) (lastError : option JsError)
    : M InvokeAgentResponse :=
  match remaining with
  | O =>
      throw (match lastError with
             | Some e => ThrownError e
             | None => ThrownUndefined
             end)
  | S remaining' =>
      tryCatch
        ((if 0 <? attempt then backoff attempt else ret tt) ;;
         send env command)
        (fun err =>
           match err with
           | ThrownError e =>
               if retryable e
               then retryLoop backoff command remaining' (attempt + 1) (Some e)
               else throw err
           | ThrownUndefined =>
               throw (TypeError "Cannot read properties of undefined (reading 'name')")
           end)
  end.

(** [const { question, sessionId } = body] *)
Definition destructure (body : Json) : M (JsValue * JsValue) :=
  match body with
  | JNull =>
      throw (TypeError "Cannot destructure property 'question' of 'body' as it is null.")
  | _ => ret (getProp body (lit "question"), getProp body (lit "sessionId"))
  end.

(** [!question || typeof question !== 'string'] *)
Definition invalidQuestion (question : JsValue) : bool :=
  negb (truthy question) || negb (isString question).

(** The text of a value already known to be a string. *)
Definition textOf (v : JsValue) : jsstring :=
  match v with Some (JStr s) => s | _ => [] end.

(** [typeof sessionId === 'string' && sessionId.trim().length > 0
     ? sessionId : crypto.randomUUID()] *)
Definition effectiveSession (sessionId : JsValue) : M jsstring :=
  match sessionId with
  | Some (JStr s) =>
      if (0 <? length (JsString.trim s))%nat then ret s else randomUUID env
  | _ => randomUUID env
  end.

(** One turn of the [for await] loop:
    [if (event.chunk?.bytes) reply += decoder.decode(event.chunk.bytes)] *)
Definition appendChunk (reply : jsstring) (event : StreamEvent) : jsstring :=
  match chunk event with
  | Some (mkChunk (Some bs)) => reply ++ TextDecoder.decode bs
  | _ => reply
  end.

(** [if (response.completion) for await (...) {...}] starting from
    [reply = '']. *)
Definition readCompletion (response : InvokeAgentResponse) : M jsstring :=
  match completion response with
  | None => ret []
  | Some c =>
      let reply := fold_left appendChunk (events c) [] in
      match failure c with
      | Some e => throw (ThrownError e)
      | None => ret reply
      end
  end.

(** [if (!reply.trim()) reply = '...'] *)
Definition orFallback (reply : jsstring) : jsstring :=
  match JsString.trim reply with
  | [] => NO_REPLY
  | _ => reply
  end.

(** The stretch of the handler between the choice of the session
    identifier and the response, which the specification calls the Agent
    Gateway.  [acquire] is what the copy does before it builds the command;
    [call] is its [callBedrockWithRetry], invoked with the default
    [maxRetries]. *)
Definition gateway (acquire : jsstring -> M unit)
    (call : InvokeAgentCommand -> M InvokeAgentResponse)
    (question effectiveSessionId : jsstring) : M jsstring :=
  acquire effectiveSessionId ;;
  let command :=
    mkCommand AGENT_ID AGENT_ALIAS_ID effectiveSessionId question in
  let* response := call command in
  let* reply := readCompletion response in
  ret (orFallback reply).

(** The handler. *)
Definition handle (acquire : jsstring -> M unit)
    (call : InvokeAgentCommand -> M InvokeAgentResponse)
    (req : Request) : M HttpResponse :=
  tryCatch
    (let* body :=
       match req with
       | Unparsable e => throw (ThrownError e)
       | Parsed j => ret j
       end in
     let* qs := destructure body in
     let question := fst qs in
     let sessionId := snd qs in
     if invalidQuestion question then
       ret (mkHttp 400 (JObj [(lit "error", JStr MISSING_QUESTION)]))
     else
       let* effectiveSessionId := effectiveSession sessionId in
       let* reply := gateway acquire call (textOf question) effectiveSessionId in
       ret (mkHttp 200
              (JObj [(lit "reply", JStr reply);
                     (lit "sessionId", JStr effectiveSessionId)])))
    (fun err =>
       ret (mkHttp 500
              (JObj [(lit "error", JStr (orElse (messageOf err) GENERIC_FAILURE))]))).

End Shared.

(** ** The chat route with the cadence limiter *)

Module ChatRoute.

Section WithEnv.

Variable env : Env.

Definition SESSION_DELAY : Z := 2000.
Definition GLOBAL_DELAY : Z := 800.

(** [Math.max(sessionLag, globalLag, 0)], from the first clock reading and
    the two variables. *)
Definition waitFor (now : Z) (lastSession : option Z) (lastGlobal : Z) : Z :=
  let sessionLag := orZero lastSession + SESSION_DELAY - now in
  let globalLag := lastGlobal + GLOBAL_DELAY - now in
  Z.max (Z.max sessionLag globalLag) 0.

Definition enforceCadence (sessionId : jsstring) : M unit :=
  let* now := Date_now in
  let* lastSession := lastCallPerSession_get sessionId in
  let* lastGlobal := lastGlobalCall_get in
  let waitFor := waitFor now lastSession lastGlobal in
  (if 0 <? waitFor then sleep env (inject_Z waitFor) else ret tt) ;;
  let* timestamp := Date_now in
  lastCallPerSession_set sessionId timestamp ;;
  lastGlobalCall_set timestamp ;;
  note (Permitted sessionId timestamp).

(** [const base = 500 * Math.pow(2, attempt - 1);
     const jitter = Math.random() * 250; await sleep(base + jitter)],
    with the product and the sum exact. *)
Definition backoff (attempt : Z) : M unit :=
  let base := 500 * 2 ^ (attempt - 1) in
  let* r := Math_random env in
  let jitter := (r * 250)%Q in
  sleep env (inject_Z base + jitter)%Q.

Definition callBedrockWithRetry (command : InvokeAgentCommand)
    (maxRetries : Z) : M InvokeAgentResponse :=
  retryLoop env backoff command (Z.to_nat (maxRetries + 1)) 0 None.

Definition POST (req : Request) : M HttpResponse :=
  handle env enforceCadence (fun command => callBedrockWithRetry command 2) req.

End WithEnv.

End ChatRoute.

(** ** The second copy of the chat route *)

Module ChatRouteCopy.

Section WithEnv.

Variable env : Env.

(** [const delay = 300 * attempt;
     await new Promise((res) => setTimeout(res, delay))] *)
Definition backoff (attempt : Z) : M unit :=
  let delay := 300 * attempt in
  sleep env (inject_Z delay).

Definition callBedrockWithRetry (command : InvokeAgentCommand)
    (maxRetries : Z) : M InvokeAgentResponse :=
  retryLoop env backoff command (Z.to_nat (maxRetries + 1)) 0 None.

(** No limiter here: the command is built right after the session
    identifier is chosen. *)
Definition POST (req : Request) : M HttpResponse :=
  handle env (fun _ => ret tt) (fun command => callBedrockWithRetry command 2) req.

End WithEnv.

End ChatRouteCopy.

(** ** The top-crypto route *)

Module TopCrypto.

(** What [fetch] and the reading of its response come to once they have
    settled. *)
Inductive Upstream :=
| FetchRejected (e : JsError)     (* fetch itself rejects *)
| NotOk (text : jsstring)         (* !res.ok, with the body text *)
| NotOkUnread (e : JsError)       (* !res.ok, and res.text() rejects *)
| BadJson (e : JsError)           (* res.json() rejects *)
| OkJson (data : Json).

(** [Array.prototype.sort] with a comparator that is consistent: the sort
    is stable, an element moves behind another only when the comparator's
    answer for the pair is above zero, and NaN counts as zero.  For a
    consistent comparator this insertion sort computes the order the
    language prescribes. *)
Fixpoint insertBy {A} (cmp : A -> A -> JsNumber.t) (x : A) (l : list A) : list A :=
  match l with
  | [] => [x]
  | y :: l' =>
      if JsNumber.positive (cmp x y) then y :: insertBy cmp x l' else x :: l
  end.

Definition Array_sort {A} (cmp : A -> A -> JsNumber.t) (l : list A) : list A :=
  foldr (insertBy cmp) [] l.

Section WithNumber.

(** ToNumber on strings (StringToNumber) and on arrays and objects
    (through ToPrimitive) is left to the engine. *)
Variable StringToNumber : jsstring -> JsNumber.t.
Variable ObjectToNumber : Json -> JsNumber.t.

(** The order in which the engine's sort leaves a list for which the
    comparator is not consistent: the language leaves it to the engine. *)
Variable engineOrder : list Json -> list Json.

(** The value of [Number(v)], when the conversion completes. *)
Definition Number (v : JsValue) : JsNumber.t :=
  match v with
  | None => JsNumber.NaN
  | Some JNull => JsNumber.zero
  | Some (JBool b) => if b then JsNumber.Finite 1 else JsNumber.zero
  | Some (JNum n) => n
  | Some (JStr s) => StringToNumber s
  | Some j => ObjectToNumber j
  end.

(** [Number(v)] as a call: ToNumber, which throws where ToPrimitive does. *)
Definition ToNumber (v : JsValue) : M JsNumber.t :=
  match v with
  | Some j => if unconvertible j then throw (TypeError NOT_PRIMITIVE) else ret (Number v)
  | None => ret (Number v)
  end.

(** [v || 0] *)
Definition orNumber0 (v : JsValue) : JsValue :=
  if truthy v then v else Some (JNum JsNumber.zero).

(** The value of [Number(d.quoteVolume || 0)]. *)
Definition quoteVolume (d : Json) : JsNumber.t :=
  Number (orNumber0 (getProp d (lit "quoteVolume"))).

(** The test of the callback of [filter] on [s = d.symbol]. *)
Definition usdtPair (s : jsstring) : bool :=
  JsString.endsWith s (lit "USDT")
  && negb (JsString.includes s (lit "UP"))
  && negb (JsString.includes s (lit "DOWN"))
  && negb (JsString.includes s (lit "BULL"))
  && negb (JsString.includes s (lit "BEAR")).

(** The callback of [filter]: [s] must be a string for [s.endsWith] to
    exist. *)
Definition keep (d : Json) : M bool :=
  match d with
  | JNull => throw (TypeError "Cannot read properties of null (reading 'symbol')")
  | _ =>
      match getProp d (lit "symbol") with
      | Some (JStr s) => ret (usdtPair s)
      | None =>
          throw (TypeError "Cannot read properties of undefined (reading 'endsWith')")
      | Some JNull =>
          throw (TypeError "Cannot read properties of null (reading 'endsWith')")
      | Some _ => throw (TypeError "s.endsWith is not a function")
      end
  end.

Fixpoint filterKeep (data : list Json) : M (list Json) :=
  match data with
  | [] => ret []
  | d :: rest =>
      let* k := keep d in
      let* kept := filterKeep rest in
      ret (if k then d :: kept else kept)
  end.

(** The value of
    [(a, b) => Number(b.quoteVolume || 0) - Number(a.quoteVolume || 0)]. *)
Definition byQuoteVolume (a b : Json) : JsNumber.t :=
  JsNumber.sub (quoteVolume b) (quoteVolume a).

(** The comparator as a call: the two conversions, left operand first. *)
Definition compare (a b : Json) : M JsNumber.t :=
  let* x := ToNumber (orNumber0 (getProp b (lit "quoteVolume"))) in
  let* y := ToNumber (orNumber0 (getProp a (lit "quoteVolume"))) in
  ret (JsNumber.sub x y).

(** The quote volume of [d] converts to a number. *)
Definition numeric (d : Json) : Prop := JsNumber.isNaN (quoteVolume d) = false.

(** The calls of the comparator.  Which pairs the engine compares is its
    own choice, but with two elements or more every element is in at least
    one call, and a call throws exactly when one of its two conversions
    does, always the same TypeError; one pass over the neighbours stands for
    the engine's calls. *)
Fixpoint comparisons (l : list Json) : M unit :=
  match l with
  | a :: ((b :: _) as rest) => compare a b ;; comparisons rest
  | _ => ret tt
  end.

(** The order in which the sort leaves the list when no call of the
    comparator throws: quote volumes that are all numbers make the
    comparator consistent, and the order is the one the language
    prescribes; with NaN among them the order is the engine's own. *)
Definition sorted (l : list Json) : list Json :=
  if forallb (fun d => negb (JsNumber.isNaN (quoteVolume d))) l
  then Array_sort byQuoteVolume l
  else engineOrder l.

(** [usdtPairs.sort(compare)]: a call of the comparator that throws ends
    the sort. *)
Definition sort (l : list Json) : M (list Json) :=
  comparisons l ;; ret (sorted l).

(** A member whose value is [undefined] is left out of the body. *)
Definition member (k : string) (v : JsValue) : list (jsstring * Json) :=
  match v with
  | Some j => [(lit k, j)]
  | None => []
  end.

(** The entry that the callback of [map] builds when its conversions
    complete. *)
Definition coin (d : Json) : Json :=
  JObj (member "symbol" (getProp d (lit "symbol"))
        ++ [(lit "lastPrice", JNum (Number (getProp d (lit "lastPrice"))));
            (lit "priceChangePercent",
             JNum (Number (getProp d (lit "priceChangePercent"))));
            (lit "volume", JNum (Number (getProp d (lit "volume"))))]).

(** The callback of [map]: the three conversions in the order of the
    object literal. *)
Definition entry (d : Json) : M Json :=
  let* lastPrice := ToNumber (getProp d (lit "lastPrice")) in
  let* priceChangePercent := ToNumber (getProp d (lit "priceChangePercent")) in
  let* volume := ToNumber (getProp d (lit "volume")) in
  ret (JObj (member "symbol" (getProp d (lit "symbol"))
             ++ [(lit "lastPrice", JNum lastPrice);
                 (lit "priceChangePercent", JNum priceChangePercent);
                 (lit "volume", JNum volume)])).

Fixpoint mapEntry (l : list Json) : M (list Json) :=
  match l with
  | [] => ret []
  | d :: rest =>
      let* c := entry d in
      let* cs := mapEntry rest in
      ret (c :: cs)
  end.

Definition GET (up : Upstream) : M HttpResponse :=
  tryCatch
    (match up with
     | FetchRejected e => throw (ThrownError e)
     | NotOk text =>
         ret (mkHttp 500
                (JObj [(lit "error", JStr (lit "Failed to fetch tickers from Binance"));
                       (lit "detail", JStr text)]))
     | NotOkUnread e => throw (ThrownError e)
     | BadJson e => throw (ThrownError e)
     | OkJson data =>
         match data with
         | JArr items =>
             let* kept := filterKeep items in
             let* usdtPairs := sort kept in
             let* top25 := mapEntry (take 25 usdtPairs) in
             ret (mkHttp 200 (JObj [(lit "coins", JArr top25)]))
         | JNull =>
             throw (TypeError "Cannot read properties of null (reading 'filter')")
         | _ => throw (TypeError "data.filter is not a function")
         end
     end)
    (fun err =>
       ret (mkHttp 500
              (JObj ((lit "error", JStr (lit "Failed to fetch top crypto prices"))
                     :: member "detail" (JStr <$> messageOf err))))).

End WithNumber.

End TopCrypto.

(** ** The retry loop as a function of the agent's answers *)

(** What the loop comes to, and after how many invocations, when it is
    entered with [remaining] turns to go and the next invocation is the
    [s]-th of the run. *)
Fixpoint attemptsOutcome (env : Env) (lastError : option JsError)
    (remaining : nat) (s : nat) : Outcome InvokeAgentResponse * nat :=
  match remaining with
  | O =>
      (Threw (match lastError with
              | Some e => ThrownError e
              | None => ThrownUndefined
              end), O)
  | S remaining' =>
      match sendOutcome env s with
      | Resolved r => (Returned r, 1%nat)
      | Rejected e =>
          if retryable e then
            let (o, m) := attemptsOutcome env (Some e) remaining' (S s) in
            (o, S m)
          else (Threw (ThrownError e), 1%nat)
      end
  end.

(** The effects of [m] turns of the loop from [attempt] on, when the wait
    before attempt [n] is [wait n d] with [d] the draws made so far, and
    each wait makes [per] draws. *)
Fixpoint loopTrace (wait : Z -> nat -> Q) (per : nat) (cmd : InvokeAgentCommand)
    (m : nat) (attempt : Z) (d : nat) : list Effect :=
  match m with
  | O => []
  | S m' =>
      (if 0 <? attempt then [Slept (wait attempt d)] else [])
      ++ Sent cmd
         :: loopTrace wait per cmd m' (attempt + 1)
              (if 0 <? attempt then (d + per)%nat else d)
  end.

(** The wait of the route with the limiter before attempt [n], with the
    [d]-th draw as jitter, and the wait of the second copy. *)
Definition expWait (env : Env) (n : Z) (d : nat) : Q :=
  (inject_Z (500 * 2 ^ (n - 1)) + randomDraw env d * 250)%Q.

Definition linearWait (n : Z) (d : nat) : Q := inject_Z (300 * n).

(** ** Reading the traces and the stream *)

(** Every outbound call in the trace comes after a permission recorded for
    its session; [seen] are the sessions permitted so far. *)
Fixpoint guarded (seen : list jsstring) (tr : list Effect) : bool :=
  match tr with
  | [] => true
  | Permitted sid _ :: tr' => guarded (sid :: seen) tr'
  | Sent cmd :: tr' => bool_decide (sessionId cmd ∈ seen) && guarded seen tr'
  | Slept _ :: tr' => guarded seen tr'
  end.

Definition isSent (e : Effect) : bool :=
  match e with Sent _ => true | _ => false end.

Definition isPermitted (e : Effect) : bool :=
  match e with Permitted _ _ => true | _ => false end.

(** The byte payloads of a stream, in arrival order. *)
Definition payloads (evs : list StreamEvent) : list (list Byte.byte) :=
  omap (fun ev => c ← chunk ev; bytes c) evs.

(** The reply in the words of the specification: decode each payload,
    concatenate, and substitute the fixed message when only white space is
    left. *)
Definition decodedText (r : InvokeAgentResponse) : jsstring :=
  match completion r with
  | Some c => concat (List.map TextDecoder.decode (payloads (events c)))
  | None => []
  end.

Definition replyOf (r : InvokeAgentResponse) : jsstring :=
  let text := decodedText r in
  if JsString.blank text then NO_REPLY else text.

(** A stream event carrying the bytes of an ASCII text. *)
Definition textChunk (s : string) : StreamEvent :=
  mkEvent (Some (mkChunk (Some (bytesOf s)))).

(** ** Serialized use of the limiter *)

(** Time that passes (or a clock that is set) between two calls. *)
Definition elapse (d : Z) : M unit := fun w =>
  (Returned tt,
   mkWorld (clock w + d) (lastCallPerSession w) (lastGlobalCall w)
     (sends w) (draws w) (sleeps w) (uuids w) (trace w)).

(** Calls to the limiter one after the other: each one starts after the one
    before it has returned, [idle] ms later on the clock. *)
Fixpoint serial (env : Env) (calls : list (jsstring * Z)) : M unit :=
  match calls with
  | [] => ret tt
  | (sid, idle) :: rest =>
      elapse idle ;; ChatRoute.enforceCadence env sid ;; serial env rest
  end.

(** The timestamps recorded for the sessions selected by [sel], oldest
    first. *)
Fixpoint stamps (sel : jsstring -> bool) (tr : list Effect) : list Z :=
  match tr with
  | [] => []
  | Permitted sid t :: tr' =>
      if sel sid then t :: stamps sel tr' else stamps sel tr'
  | _ :: tr' => stamps sel tr'
  end.

Definition anySession : jsstring -> bool := fun _ => true.

Definition session (sid : jsstring) : jsstring -> bool :=
  fun s => bool_decide (s = sid).

(** Neighbours in the list are at least [d] apart. *)
Fixpoint spaced (d : Z) (ts : list Z) : Prop :=
  match ts with
  | a :: ((b :: _) as rest) => a + d <= b /\ spaced d rest
  | _ => True
  end.

(** The wait in the words of the specification. *)
Definition sessionReadyAt (lastSessionCall : gmap jsstring Z) (sid : jsstring) : Z :=
  default 0 (lastSessionCall !! sid) + 2000.

Definition globalReadyAt (lastGlobal : Z) : Z := lastGlobal + 800.

Definition requiredWait (w : World) (sid : jsstring) : Z :=
  let now := clock w in
  Z.max (Z.max (sessionReadyAt (lastCallPerSession w) sid - now)
               (globalReadyAt (lastGlobalCall w) - now)) 0.

(** What ties the two variables to the record of permitted calls: the
    recorded timestamps are spaced, and the variables hold the latest ones. *)
Record Paced (w : World) : Prop := mkPaced {
  session_spaced :
    forall sid, spaced 2000 (stamps (session sid) (trace w));
  session_latest :
    forall sid t, last (stamps (session sid) (trace w)) = Some t ->
                  lastCallPerSession w !! sid = Some t;
  global_spaced : spaced 800 (stamps anySession (trace w));
  global_latest :
    forall t, last (stamps anySession (trace w)) = Some t ->
              lastGlobalCall w = t
}.

(** ** The handler's choices as functions of the request *)

(** The caller's session identifier, when it is one the handler keeps: a
    string that is not all white space. *)
Definition suppliedSession (sessionId : JsValue) : option jsstring :=
  match sessionId with
  | Some (JStr s) => if JsString.blank s then None else Some s
  | _ => None
  end.

(** The session identifier the handler settles on in world [w]. *)
Definition chosenSession (env : Env) (sessionId : JsValue) (w : World) : jsstring :=
  default (uuid env (uuids w)) (suppliedSession sessionId).

(** What the gateway comes to, from what [callBedrockWithRetry] came to:
    the reply, or the failure of the call or of the stream. *)
Definition gatewayResult (o : Outcome InvokeAgentResponse) : Outcome jsstring :=
  match o with
  | Returned r =>
      match c ← completion r; failure c with
      | Some e => Threw (ThrownError e)
      | None => Returned (replyOf r)
      end
  | Threw t => Threw t
  end.

(** The response to a valid request. *)
Definition answer (effectiveSessionId : jsstring) (g : Outcome jsstring)
    : HttpResponse :=
  match g with
  | Returned reply =>
      mkHttp 200 (JObj [(lit "reply", JStr reply);
                        (lit "sessionId", JStr effectiveSessionId)])
  | Threw t =>
      mkHttp 500 (JObj [(lit "error", JStr (orElse (messageOf t) GENERIC_FAILURE))])
  end.

(** Request bodies: a question with and without a session identifier. *)
Definition ask (question : jsstring) (sessionId : JsValue) : Json :=
  JObj ((lit "question", JStr question)
        :: match sessionId with
           | Some v => [(lit "sessionId", v)]
           | None => []
           end).

(** ** Reading the ticker list *)

(** Each number is at least the one after it. *)
Fixpoint nonincreasing (vs : list JsNumber.t) : Prop :=
  match vs with
  | a :: ((b :: _) as rest) => JsNumber.le b a /\ nonincreasing rest
  | _ => True
  end.

(** The symbol is one the filter lets through. *)
Definition listed (s : jsstring) : Prop :=
  (exists pre, s = pre ++ lit "USDT")
  /\ (forall marker,
         marker ∈ [lit "UP"; lit "DOWN"; lit "BULL"; lit "BEAR"] ->
         ~ exists pre post, s = pre ++ marker ++ post).

(** ** Sample platforms and inputs *)

(** The agent answers the calls of a run from a script, then [rest]. *)
Definition scripted (outs : list SendOutcome) (rest : SendOutcome)
    : nat -> SendOutcome :=
  fun i => nth i outs rest.

(** Calls settle after 40 ms, timers fire 3 ms late, the random source
    always draws 1/2. *)
Definition sampleEnv (outs : list SendOutcome) (rest : SendOutcome) : Env :=
  mkEnv None None (scripted outs rest) (fun _ => 40) (fun _ => (1 # 2)%Q)
    (fun _ => 3) (fun _ => lit "3b241101-e2bb-4255-8caf-4136c566a962").

Definition throttled : JsError :=
  mkError (Some THROTTLING_NAME) (Some (lit "Rate exceeded")).

Definition denied : JsError :=
  mkError (Some (lit "AccessDeniedException")) (Some (lit "Not authorized")).

Definition hello : InvokeAgentResponse :=
  mkResponse (Some (mkCompletion [textChunk "He"; textChunk "llo"] None)).

Definition quietEnv : Env := sampleEnv [] (Resolved hello).

Definition sampleCommand : InvokeAgentCommand :=
  mkCommand (lit "HYEOBH27GN") (lit "HKYBMPQHTH") (lit "abc") (lit "hi").

Definition sampleCalls : list (jsstring * Z) :=
  [(lit "a", 0); (lit "b", 100); (lit "a", 50); (lit "a", 5000)].

Definition throttledTwice : Env :=
  sampleEnv [Rejected throttled; Rejected throttled] (Resolved hello).

Definition alwaysThrottled : Env := sampleEnv [] (Rejected throttled).

Definition deniedAtOnce : Env := sampleEnv [Rejected denied] (Resolved hello).

Definition throttledOnce : Env :=
  sampleEnv [Rejected throttled] (Resolved hello).

(** A stand-in for StringToNumber on strings of decimal digits; anything
    else is NaN here. *)
Fixpoint digitsValue (acc : Z) (s : jsstring) : option Z :=
  match s with
  | [] => Some acc
  | c :: s' =>
      if ((48 <=? c) && (c <=? 57))%N
      then digitsValue (10 * acc + Z.of_N (c - 48)) s'
      else None
  end.

Definition sampleStringToNumber (s : jsstring) : JsNumber.t :=
  match s with
  | [] => JsNumber.zero
  | _ =>
      match digitsValue 0 s with
      | Some z => JsNumber.Finite (inject_Z z)
      | None => JsNumber.NaN
      end
  end.

Definition sampleObjectToNumber (j : Json) : JsNumber.t := JsNumber.NaN.

Definition ticker (symbol quoteVolume lastPrice : string) : Json :=
  JObj [(lit "symbol", JStr (lit symbol));
        (lit "lastPrice", JStr (lit lastPrice));
        (lit "priceChangePercent", JStr (lit "1"));
        (lit "volume", JStr (lit "7"));
        (lit "quoteVolume", JStr (lit quoteVolume))].

Definition sampleTickers : list Json :=
  [ticker "BTCUSDT" "300" "64000"; ticker "ETHUSDT" "500" "3100";
   ticker "BTCUPUSDT" "900" "12"; ticker "ETHBTC" "700" "1"].

(** ** Requests served one after the other *)

(** [w'] differs from [w] by effects that leave the limiter alone: the two
    pacing variables are as they were and the trace has grown by entries
    that are not permissions. *)
Definition Quiet (w w' : World) : Prop :=
  lastCallPerSession w' = lastCallPerSession w
  /\ lastGlobalCall w' = lastGlobalCall w
  /\ uuids w' = uuids w
  /\ exists ext, trace w' = trace w ++ ext
                 /\ forallb (fun e => negb (isPermitted e)) ext = true.

(** The route with the limiter, serving requests one after the other, each
    arriving [idle] ms after the response to the one before. *)
Fixpoint serve (env : Env) (reqs : list (Request * Z)) : M (list HttpResponse) :=
  match reqs with
  | [] => ret []
  | (req, idle) :: rest =>
      elapse idle ;;
      let* resp := ChatRoute.POST env req in
      let* resps := serve env rest in
      ret (resp :: resps)
  end.

(** The clock is past the epoch and no stored timestamp is ahead of it. *)
Definition Settled (w : World) : Prop :=
  0 <= clock w
  /\ lastGlobalCall w <= clock w
  /\ forall sid t, lastCallPerSession w !! sid = Some t -> t <= clock w.

(** Every call of [crypto.randomUUID()] gives an identifier it has not
    given before. *)
Definition uuidsDistinct (env : Env) : Prop :=
  forall i j, uuid env i = uuid env j -> i = j.

(** A platform whose identifiers are numbered. *)
Definition countingEnv : Env :=
  mkEnv None None (fun _ => Resolved hello) (fun _ => 40) (fun _ => (1 # 2)%Q)
    (fun _ => 3) (fun i => lit "id-" ++ [N.of_nat i]).

(** A response whose stream breaks off after one chunk, with a failure
    that the retry loop would have retried had the call itself failed
    with it. *)
Definition brokenStream : InvokeAgentResponse :=
  mkResponse (Some (mkCompletion [textChunk "He"] (Some throttled))).

Definition breaksOff : Env := sampleEnv [Rejected throttled] (Resolved brokenStream).

(** The bytes are ASCII. *)
Definition ascii (bs : list Byte.byte) : Prop :=
  Forall (fun b => (Byte.to_N b < 128)%N) bs.

(** The ticker is one the filter of the top-crypto route keeps, and one
    it can look at without throwing. *)
Definition eligible (d : Json) : bool :=
  match getProp d (lit "symbol") with
  | Some (JStr s) => TopCrypto.usdtPair s
  | _ => false
  end.

Definition hasSymbol (d : Json) : Prop :=
  exists s, getProp d (lit "symbol") = Some (JStr s).



(** The value can be made a primitive. *)
Definition converts (v : JsValue) : bool :=
  match v with
  | Some j => negb (unconvertible j)
  | None => true
  end.

(** The comparator of the top-crypto route can be called on the ticker. *)
Definition sortable (d : Json) : bool :=
  converts (TopCrypto.orNumber0 (getProp d (lit "quoteVolume"))).

(** The comparator can be called on whatever pairs of the list the engine
    chooses; it is not called at all on fewer than two elements. *)
Definition comparable (l : list Json) : bool :=
  match l with
  | [] | [_] => true
  | _ => forallb sortable l
  end.

(** The callback of [map] of the top-crypto route can be called on the
    ticker. *)
Definition mappable (d : Json) : bool :=
  converts (getProp d (lit "lastPrice"))
  && converts (getProp d (lit "priceChangePercent"))
  && converts (getProp d (lit "volume")).

(** The engine's sort returns the elements it was given, in some order. *)
Definition rearranges (engineOrder : list Json -> list Json) : Prop :=
  forall l, Permutation (engineOrder l) l.

(** An engine that leaves a list where it is when every comparison fails
    to be negative, as an insertion sort over an ascending run does. *)
Definition inPlace (l : list Json) : list Json := l.

(** Three eligible tickers, the second with a quote volume that is not a
    number. *)
Definition oddTickers : list Json :=
  [ticker "AUSDT" "1" "10"; ticker "CUSDT" "abc" "30"; ticker "DUSDT" "2" "40"].

(** A ticker whose last price is an object that cannot be made a
    primitive. *)
Definition opaqueTicker : Json :=
  JObj [(lit "symbol", JStr (lit "XUSDT"));
        (lit "lastPrice", JObj [(lit "toString", JNum (JsNumber.Finite 1))]);
        (lit "quoteVolume", JStr (lit "5"))].

(** Two requests to the route with the limiter, for one session. *)
Definition sampleRequests : list (Request * Z) :=
  [(Parsed (ask (lit "hi") (Some (JStr (lit "abc")))), 0);
   (Parsed (JObj []), 5);
   (Parsed (ask (lit "and then?") (Some (JStr (lit "abc")))), 10)].

(** The sleeps of a trace, in order, and their sum. *)
Definition naps (tr : list Effect) : list Q :=
  omap (fun e => match e with Slept ms => Some ms | _ => None end) tr.

Definition totalSlept (tr : list Effect) : Q :=
  fold_right Qplus 0%Q (naps tr).

(** The outbound calls of a trace. *)
Definition calls (tr : list Effect) : list InvokeAgentCommand :=
  omap (fun e => match e with Sent c => Some c | _ => None end) tr.

(** ** The crypto-history route *)

Module CryptoHistory.

Definition BINANCE_KLINES_URL : jsstring :=
  lit "https://api.binance.us/api/v3/klines".

(** [searchParams.get(name)]: the value of the first pair of the query with
    that name, [null] when there is none. *)
Fixpoint searchParams_get (query : list (jsstring * jsstring)) (name : jsstring)
    : option jsstring :=
  match query with
  | [] => None
  | (k, v) :: query' =>
      if decide (k = name) then Some v else searchParams_get query' name
  end.

(** [searchParams.get('symbol') || 'BTCUSDT'] and its two companions. *)
Definition symbolOf (query : list (jsstring * jsstring)) : jsstring :=
  orElse (searchParams_get query (lit "symbol")) (lit "BTCUSDT").

Definition intervalOf (query : list (jsstring * jsstring)) : jsstring :=
  orElse (searchParams_get query (lit "interval")) (lit "1h").

Definition limitOf (query : list (jsstring * jsstring)) : jsstring :=
  orElse (searchParams_get query (lit "limit")) (lit "100").

(** The template literal: the three values go in as they are. *)
Definition urlOf (query : list (jsstring * jsstring)) : jsstring :=
  BINANCE_KLINES_URL ++ lit "?symbol=" ++ symbolOf query
  ++ lit "&interval=" ++ intervalOf query ++ lit "&limit=" ++ limitOf query.

(** The property name of an index. *)
Definition indexName (i : nat) : jsstring :=
  lit (NilZero.string_of_uint (Nat.to_uint i)).

(** [c[i]] for a [c] that is not [null]: an element of an array, a
    character of a string, a member of an object, and [undefined]
    otherwise. *)
Definition index (c : Json) (i : nat) : JsValue :=
  match c with
  | JArr items => nth_error items i
  | JStr s => (fun u => JStr [u]) <$> nth_error s i
  | JObj ms => lookupMember (indexName i) ms
  | _ => None
  end.

Section WithPlatform.

(** What [fetch] and the reading of its response come to for a URL, and
    the value of [parseFloat] when the conversion of its argument to a
    string completes, which is left to the engine. *)
Variable fetch : jsstring -> TopCrypto.Upstream.
Variable parseFloat : JsValue -> JsNumber.t.

(** [parseFloat(v)] as a call: it throws where ToPrimitive does. *)
Definition callParseFloat (v : JsValue) : M JsNumber.t :=
  match v with
  | Some j =>
      if unconvertible j then throw (TypeError NOT_PRIMITIVE) else ret (parseFloat v)
  | None => ret (parseFloat v)
  end.

(** The callback of [raw.map]:
    [(c) => ({ time: c[0], close: parseFloat(c[4]) })] *)
Definition point (c : Json) : M Json :=
  match c with
  | JNull => throw (TypeError "Cannot read properties of null (reading '0')")
  | _ =>
      let* close := callParseFloat (index c 4) in
      ret (JObj (TopCrypto.member "time" (index c 0) ++ [(lit "close", JNum close)]))
  end.

Fixpoint mapPoints (raw : list Json) : M (list Json) :=
  match raw with
  | [] => ret []
  | c :: raw' =>
      let* p := point c in
      let* ps := mapPoints raw' in
      ret (p :: ps)
  end.

Definition GET (query : list (jsstring * jsstring)) : M HttpResponse :=
  tryCatch
    (let symbol := symbolOf query in
     let interval := intervalOf query in
     match fetch (urlOf query) with
     | TopCrypto.FetchRejected e => throw (ThrownError e)
     | TopCrypto.NotOk text =>
         ret (mkHttp 500
                (JObj [(lit "error", JStr (lit "Failed to fetch history from Binance"));
                       (lit "detail", JStr text)]))
     | TopCrypto.NotOkUnread e => throw (ThrownError e)
     | TopCrypto.BadJson e => throw (ThrownError e)
     | TopCrypto.OkJson raw =>
         match raw with
         | JArr items =>
             let* points := mapPoints items in
             ret (mkHttp 200
                    (JObj [(lit "symbol", JStr symbol);
                           (lit "interval", JStr interval);
                           (lit "points", JArr points)]))
         | JNull =>
             throw (TypeError "Cannot read properties of null (reading 'map')")
         | _ => throw (TypeError "raw.map is not a function")
         end
     end)
    (fun err =>
       ret (mkHttp 500
              (JObj ((lit "error", JStr (lit "Internal server error"))
                     :: TopCrypto.member "detail" (JStr <$> messageOf err))))).

End WithPlatform.

End CryptoHistory.

(** A kline as the exchange sends it: open time, then four prices as
    strings, the close being the fifth element. *)
Definition kline (openTime : Z) (close : string) : Json :=
  JArr [JNum (JsNumber.Finite (inject_Z openTime)); JStr (lit "1"); JStr (lit "2");
        JStr (lit "0"); JStr (lit close); JStr (lit "9")].

(** A stand-in for [parseFloat] on strings of digits. *)
Definition sampleParseFloat (v : JsValue) : JsNumber.t :=
  match v with
  | Some (JStr s) =>
      match s, digitsValue 0 s with
      | _ :: _, Some z => JsNumber.Finite (inject_Z z)
      | _, _ => JsNumber.NaN
      end
  | Some (JNum n) => n
  | _ => JsNumber.NaN
  end.

Definition sampleKlines (url : jsstring) : TopCrypto.Upstream :=
  TopCrypto.OkJson (JArr [kline 1700000000000 "64000"; kline 1700003600000 "64100"]).

(** A kline can be read: it is not [null], and its element 4 can be made a
    primitive. *)
Definition readable (c : Json) : bool :=
  match c with
  | JNull => false
  | _ => converts (CryptoHistory.index c 4)
  end.

(** ** The chat form of the page *)

Module Page.

Definition NO_REPLY_TEXT : jsstring :=
  lit "Sorry, I could not get a response from the Finance Agent.".

Definition WENT_WRONG : jsstring :=
  lit "Something went wrong while contacting the Finance Agent. Please try again.".

Inductive Sender := user | ai.

(** The request body as the route parses it back:
    [JSON.stringify({ question, sessionId: chatSessionId })]. *)
Definition chatBody (question chatSessionId : jsstring) : Json :=
  JObj [(lit "question", JStr question); (lit "sessionId", JStr chatSessionId)].

(** [typeof data.reply === 'string' ? data.reply
     : data.error || 'Sorry, ...'] *)
Definition replyText (data : Json) : Json :=
  match getProp data (lit "reply") with
  | Some (JStr reply) => JStr reply
  | _ =>
      match getProp data (lit "error") with
      | Some e => if truthy (Some e) then e else JStr NO_REPLY_TEXT
      | None => JStr NO_REPLY_TEXT
      end
  end.

(** The text of the message added for the agent: [answered] is the parsed
    response body, [None] when [fetch] or [resp.json()] rejected; reading
    [data.reply] of [null] throws, and the [catch] block has its own text. *)
Definition aiText (answered : option Json) : Json :=
  match answered with
  | None | Some JNull => JStr WENT_WRONG
  | Some data => replyText data
  end.

(** [handleChatAsk]: from the input field, the session identifier of the
    page and the messages shown, to the input field and the messages
    afterwards.  [server] is the round trip to [/api/chat]. *)
Definition handleChatAsk (server : Json -> option Json)
    (chatInput chatSessionId : jsstring) (chatMessages : list (Sender * Json))
    : jsstring * list (Sender * Json) :=
  match JsString.trim chatInput with
  | [] => (chatInput, chatMessages)
  | question =>
      ([],
       (chatMessages ++ [(user, JStr question)])
       ++ [(ai, aiText (server (chatBody question chatSessionId)))])
  end.

End Page.

(** The round trip of the page to a handler in world [w]: the request
    body goes in parsed, the response body comes back parsed. *)
Definition roundTrip (POST : Request -> M HttpResponse) (w : World) (sent : Json)
    : option Json :=
  match fst (POST (Parsed sent) w) with
  | Returned resp => Some (body resp)
  | Threw _ => None
  end.

(** ** The user names of the sign-up form *)

Module Cognito.

Definition isAsciiAlnum (c : N) : bool :=
  ((48 <=? c) && (c <=? 57) || (65 <=? c) && (c <=? 90)
   || (97 <=? c) && (c <=? 122))%N.

Definition asciiLower (c : N) : N :=
  if ((65 <=? c) && (c <=? 90))%N then (c + 32)%N else c.

Definition isAscii (s : jsstring) : bool := forallb (fun c => (c <? 128)%N) s.

Section WithEngine.

(** [toLowerCase] on a string with a code unit outside ASCII follows the
    Unicode tables and is left to the engine. *)
Variable lowerOther : jsstring -> jsstring.

(** [s.toLowerCase()] *)
Definition toLowerCase (s : jsstring) : jsstring :=
  if isAscii s then List.map asciiLower s else lowerOther s.

(** [s.replace(/[^a-z0-9]/gi, '_')]: without the [u] flag the pattern is
    matched code unit by code unit, and with [i] a code unit is in the class
    [a-z0-9] exactly when it is an ASCII letter or digit. *)
Definition underscored (s : jsstring) : jsstring :=
  List.map (fun c => if isAsciiAlnum c then c else 95%N) s.

Definition deriveUsernameFromEmail (email : jsstring) : jsstring :=
  take 30 (underscored (toLowerCase email)).

(** What the three wrappers hand to the identity provider as user name. *)
Definition signInUsername (email : jsstring) : jsstring := email.

Definition signUpUsername (email : jsstring) : jsstring :=
  deriveUsernameFromEmail email.

Definition confirmUsername (email : jsstring) : jsstring :=
  deriveUsernameFromEmail email.

End WithEngine.

End Cognito.

(** Code units that the pattern treats alike: the same letter in either
    case, or two that both fall outside [a-z0-9]. *)
Definition alike (a b : N) : Prop :=
  Cognito.asciiLower a = Cognito.asciiLower b
  \/ (Cognito.isAsciiAlnum a = false /\ Cognito.isAsciiAlnum b = false).

(** * Properties *)

(** ** The string operations are the ones they stand for *)

Lemma startsWith_spec (s p : jsstring) :
  JsString.startsWith s p = true <-> exists rest, s = p ++ rest.
Proof.
  revert s. induction p as [|c p IH]; intros s; simpl.
  - split; eauto.
  - destruct s as [|d s]; simpl.
    + split; [discriminate | intros [rest H]; discriminate].
    + rewrite andb_true_iff, N.eqb_eq, IH. split.
      * intros [-> [rest ->]]. eauto.
      * intros [rest H]. injection H as -> ->. eauto.
Qed.

Lemma includes_spec (s sub : jsstring) :
  JsString.includes s sub = true <-> exists pre post, s = pre ++ sub ++ post.
Proof.
  induction s as [|d s IH]; simpl.
  - rewrite orb_false_r, startsWith_spec. split.
    + intros [rest H]. exists [], rest. exact H.
    + intros (pre & post & H). destruct pre; [eauto | discriminate].
  - rewrite orb_true_iff, startsWith_spec, IH. split.
    + intros [[rest H] | (pre & post & ->)].
      * exists [], rest. exact H.
      * exists (d :: pre), post. reflexivity.
    + intros (pre & post & H). destruct pre as [|e pre]; simpl in H.
      * left. eauto.
      * right. injection H as _ ->. eauto.
Qed.

Lemma endsWith_spec (s suf : jsstring) :
  JsString.endsWith s suf = true <-> exists pre, s = pre ++ suf.
Proof.
  unfold JsString.endsWith. rewrite startsWith_spec. split.
  - intros [rest H]. exists (rev rest).
    apply (f_equal (@rev N)) in H.
    rewrite rev_involutive, rev_app_distr, rev_involutive in H. exact H.
  - intros [pre ->]. exists (rev pre). apply rev_app_distr.
Qed.

Lemma trimStart_nil (s : jsstring) :
  JsString.trimStart s = [] <-> JsString.blank s = true.
Proof.
  induction s as [|c s IH]; simpl.
  - tauto.
  - destruct (JsString.isWhiteSpace c); simpl; [exact IH |].
    split; discriminate.
Qed.

Lemma trimStart_blank (s : jsstring) :
  JsString.blank s = true -> JsString.trimStart s = [].
Proof. apply trimStart_nil. Qed.

(** [trim] leaves nothing exactly when the string is all white space. *)
Lemma blank_rev (s : jsstring) :
  JsString.blank (rev s) = JsString.blank s.
Proof.
  unfold JsString.blank. induction s as [|c s IH]; simpl; [reflexivity |].
  rewrite forallb_app, IH. simpl. rewrite andb_true_r. apply andb_comm.
Qed.

Lemma trimStart_head (s : jsstring) c r :
  JsString.trimStart s = c :: r -> JsString.isWhiteSpace c = false.
Proof.
  induction s as [|d s IH]; simpl; [discriminate |].
  destruct (JsString.isWhiteSpace d) eqn:Ed; [exact IH |].
  intros [= -> _]. exact Ed.
Qed.

(** [trim] leaves nothing exactly when the string is all white space. *)
Lemma trim_nil (s : jsstring) :
  JsString.trim s = [] <-> JsString.blank s = true.
Proof.
  unfold JsString.trim, JsString.trimEnd. split.
  - intros H. apply (f_equal (@rev N)) in H. rewrite rev_involutive in H.
    simpl in H. apply trimStart_nil in H.
    rewrite blank_rev in H.
    destruct (JsString.trimStart s) as [|c r] eqn:E.
    + apply trimStart_nil. exact E.
    + apply trimStart_head in E. simpl in H. rewrite E in H. discriminate.
  - intros H. rewrite (trimStart_blank _ H). reflexivity.
Qed.

(** ** Sample evaluations *)

Example includes_endsWith_sample :
  JsString.includes (lit "BTCUPUSDT") (lit "UP") = true
  /\ JsString.includes (lit "BTCUSDT") (lit "UP") = false
  /\ JsString.endsWith (lit "BTCUSDT") (lit "USDT") = true
  /\ JsString.endsWith (lit "USDTBTC") (lit "USDT") = false.
Proof. repeat split; reflexivity. Qed.

Example trim_sample :
  JsString.trim (lit "  a b ") = lit "a b"
  /\ JsString.trim [9%N; 160%N; 8232%N; 65279%N] = []
  /\ JsString.trim [] = [].
Proof. repeat split; reflexivity. Qed.

Example decode_ascii : TextDecoder.decode (bytesOf "llo") = lit "llo".
Proof. reflexivity. Qed.

(** U+20AC as E2 82 AC, the same bytes cut after the first one, and a
    leading byte order mark. *)
Example decode_euro :
  TextDecoder.decode [Byte.xe2; Byte.x82; Byte.xac] = [8364%N]
  /\ TextDecoder.decode [Byte.xe2] ++ TextDecoder.decode [Byte.x82; Byte.xac]
     = [65533%N; 65533%N; 65533%N]
  /\ TextDecoder.decode [Byte.xef; Byte.xbb; Byte.xbf; Byte.x41] = [65%N].
Proof. repeat split; reflexivity. Qed.

(** U+1F600 as F0 9F 98 80 becomes a surrogate pair. *)
Example decode_astral :
  TextDecoder.decode [Byte.xf0; Byte.x9f; Byte.x98; Byte.x80]
  = [55357%N; 56832%N].
Proof. reflexivity. Qed.

Example orElse_sample :
  orElse (Some (lit "boom")) (lit "generic") = lit "boom"
  /\ orElse (Some []) (lit "generic") = lit "generic"
  /\ orElse None (lit "generic") = lit "generic".
Proof. repeat split; reflexivity. Qed.

Example retryable_sample :
  retryable throttled = true
  /\ retryable (mkError (Some (lit "Error"))
                  (Some (lit "429: Your request rate is too high, slow down")))
     = true
  /\ retryable denied = false
  /\ retryable (mkError None None) = false.
Proof. repeat split; vm_compute; reflexivity. Qed.

(** A body of [null] makes the destructuring throw, and the [catch] block
    answers 500 with the engine's message; a body that is not JSON is
    answered with the parser's message. *)
Example POST_null_body :
  fst (ChatRoute.POST quietEnv (Parsed JNull) (boot 0))
  = Returned
      (mkHttp 500
         (JObj [(lit "error",
                 JStr (lit "Cannot destructure property 'question' of 'body' as it is null."))])).
Proof. vm_compute. reflexivity. Qed.

Example POST_unparsable_body :
  fst (ChatRoute.POST quietEnv
         (Unparsable (mkError (Some (lit "SyntaxError"))
                        (Some (lit "Unexpected end of JSON input"))))
         (boot 0))
  = Returned
      (mkHttp 500 (JObj [(lit "error", JStr (lit "Unexpected end of JSON input"))])).
Proof. vm_compute. reflexivity. Qed.

(** The same request, throttled twice, through the two copies of the
    route. *)
Example POST_throttled_twice :
  let run :=
    ChatRoute.POST throttledTwice
      (Parsed (ask (lit "hi") (Some (JStr (lit "abc"))))) (boot 1700000000000) in
  fst run
  = Returned (mkHttp 200 (JObj [(lit "reply", JStr (lit "Hello"));
                                (lit "sessionId", JStr (lit "abc"))]))
  /\ sends (snd run) = 3%nat
  /\ trace (snd run)
     = [Permitted (lit "abc") 1700000000000; Sent sampleCommand;
        Slept (inject_Z 500 + (1 # 2) * 250)%Q; Sent sampleCommand;
        Slept (inject_Z 1000 + (1 # 2) * 250)%Q; Sent sampleCommand]
  /\ lastCallPerSession (snd run) !! lit "abc" = Some 1700000000000
  /\ lastGlobalCall (snd run) = 1700000000000.
Proof. repeat split; vm_compute; reflexivity. Qed.

Example POST_copy_throttled_twice :
  let run :=
    ChatRouteCopy.POST throttledTwice
      (Parsed (ask (lit "hi") (Some (JStr (lit "abc"))))) (boot 1700000000000) in
  fst run
  = Returned (mkHttp 200 (JObj [(lit "reply", JStr (lit "Hello"));
                                (lit "sessionId", JStr (lit "abc"))]))
  /\ trace (snd run)
     = [Sent sampleCommand; Slept (inject_Z 300); Sent sampleCommand;
        Slept (inject_Z 600); Sent sampleCommand]
  /\ lastCallPerSession (snd run) = ∅.
Proof. repeat split; vm_compute; reflexivity. Qed.

(** With a negative [maxRetries] the loop body never runs and [throw
    lastError] throws [undefined]. *)
Example negative_maxRetries :
  ChatRoute.callBedrockWithRetry quietEnv sampleCommand (-1) (boot 0)
  = (Threw ThrownUndefined, boot 0).
Proof. reflexivity. Qed.

(** ** The cadence limiter *)

Lemma orZero_default (o : option Z) : orZero o = default 0 o.
Proof.
  destruct o as [t|]; simpl; [| reflexivity].
  destruct (Z.eqb_spec t 0); congruence.
Qed.

Lemma waitFor_requiredWait (w : World) (sid : jsstring) :
  ChatRoute.waitFor (clock w) (lastCallPerSession w !! sid) (lastGlobalCall w)
  = requiredWait w sid.
Proof.
  unfold ChatRoute.waitFor, requiredWait, sessionReadyAt, globalReadyAt,
    ChatRoute.SESSION_DELAY, ChatRoute.GLOBAL_DELAY.
  rewrite orZero_default. reflexivity.
Qed.

(** One call, spelled out: it never throws, sleeps for the required wait when
    that is positive, and then writes the second clock reading to both
    variables. *)
Lemma enforceCadence_run (env : Env) (sid : jsstring) (w : World) :
  let wait := requiredWait w sid in
  let slept := if 0 <? wait then [Slept (inject_Z wait)] else [] in
  let ts := if 0 <? wait then clock w + wait + timerLate env (sleeps w)
            else clock w in
  ChatRoute.enforceCadence env sid w =
  (Returned tt,
   mkWorld ts (<[sid := ts]> (lastCallPerSession w)) ts
     (sends w) (draws w)
     (if 0 <? wait then S (sleeps w) else sleeps w) (uuids w)
     (trace w ++ slept ++ [Permitted sid ts])).
Proof.
  intros wait slept ts. subst wait slept ts.
  unfold ChatRoute.enforceCadence, bind, Date_now, lastCallPerSession_get,
    lastGlobalCall_get. cbn beta iota.
  rewrite waitFor_requiredWait.
  destruct (0 <? requiredWait w sid) eqn:E; cbn; unfold note; cbn.
  - rewrite Z.div_1_r, <- app_assoc. reflexivity.
  - reflexivity.
Qed.

Lemma stamps_app sel (a b : list Effect) :
  stamps sel (a ++ b) = stamps sel a ++ stamps sel b.
Proof.
  induction a as [|e a IH]; simpl; [reflexivity |].
  destruct e; try exact IH.
  destruct (sel sid); simpl; congruence.
Qed.

Lemma spaced_snoc (d x : Z) (l : list Z) :
  spaced d (l ++ [x]) <->
  spaced d l /\ (forall t, last l = Some t -> t + d <= x).
Proof.
  induction l as [|a l IH]; simpl.
  - split; [intros _; split; [exact I | discriminate] | intros _; exact I].
  - destruct l as [|b l].
    + simpl. split.
      * intros [H _]. split; [exact I |]. intros t [= <-]. exact H.
      * intros [_ H]. split; [apply H; reflexivity | exact I].
    + change ((b :: l) ++ [x]) with (b :: (l ++ [x])) in *.
      change (b :: (l ++ [x])) with ((b :: l) ++ [x]) in IH.
      rewrite last_cons_cons.
      split.
      * intros [Hab H]. apply IH in H as [H1 H2]. auto.
      * intros [[Hab H1] H2]. split; [exact Hab |]. apply IH. auto.
Qed.

Lemma stamps_enforce sel (tr : list Effect) (slept : list Effect) sid ts :
  (forall e, e ∈ slept -> exists ms, e = Slept ms) ->
  stamps sel (tr ++ slept ++ [Permitted sid ts]) =
  stamps sel tr ++ (if sel sid then [ts] else []).
Proof.
  intros Hs. rewrite !stamps_app. f_equal.
  assert (stamps sel slept = []) as ->.
  { induction slept as [|e l IH]; [reflexivity |].
    destruct (Hs e) as [ms ->]; [left |]. simpl. apply IH.
    intros e' He'. apply Hs. right. exact He'. }
  simpl. destruct (sel sid); reflexivity.
Qed.

Lemma Paced_boot (w : World) : trace w = [] -> Paced w.
Proof.
  intros H. split; rewrite H; simpl; auto; discriminate.
Qed.

Lemma Paced_elapse (d : Z) (w : World) : Paced w -> Paced (snd (elapse d w)).
Proof. intros [H1 H2 H3 H4]. split; simpl; assumption. Qed.

(** The limiter keeps the record paced, whatever the clock shows when it is
    entered. *)
Lemma Paced_enforceCadence (env : Env) (sid : jsstring) (w : World) :
  timersNotEarly env -> Paced w ->
  Paced (snd (ChatRoute.enforceCadence env sid w)).
Proof.
  intros Hlate [H1 H2 H3 H4]. rewrite enforceCadence_run. cbn zeta. simpl snd.
  set (wait := requiredWait w sid).
  set (ts := if 0 <? wait then _ else _).
  assert (clock w + wait <= ts) as Hts.
  { subst ts. destruct (Z.ltb_spec 0 wait); [specialize (Hlate (sleeps w)) |];
      lia. }
  assert (forall e, e ∈ (if 0 <? wait then [Slept (inject_Z wait)] else []) ->
                    exists ms, e = Slept ms) as Hsl.
  { intros e. destruct (0 <? wait).
    - intros ->%list_elem_of_singleton. eauto.
    - intros []%not_elem_of_nil. }
  assert (sessionReadyAt (lastCallPerSession w) sid <= ts
          /\ globalReadyAt (lastGlobalCall w) <= ts) as [Hs Hg].
  { subst wait. unfold requiredWait in Hts. lia. }
  split; simpl.
  - intros s. rewrite (stamps_enforce _ _ _ _ _ Hsl). unfold session at 2.
    case_bool_decide as E; [| rewrite app_nil_r; apply H1].
    apply spaced_snoc. split; [apply H1 |].
    intros t Ht. subst s. apply H2 in Ht.
    unfold sessionReadyAt in Hs. rewrite Ht in Hs. simpl in Hs. lia.
  - intros s t. rewrite (stamps_enforce _ _ _ _ _ Hsl). unfold session at 2.
    case_bool_decide as E.
    + subst s. rewrite last_snoc. intros [= <-]. apply lookup_insert_eq.
    + rewrite app_nil_r. intros Ht. rewrite lookup_insert_ne by congruence.
      apply H2. exact Ht.
  - rewrite (stamps_enforce _ _ _ _ _ Hsl). simpl.
    apply spaced_snoc. split; [apply H3 |].
    intros t Ht. apply H4 in Ht. unfold globalReadyAt in Hg. lia.
  - intros t. rewrite (stamps_enforce _ _ _ _ _ Hsl). simpl.
    rewrite last_snoc. congruence.
Qed.

Lemma serial_returns (env : Env) calls (w : World) :
  fst (serial env calls w) = Returned tt.
Proof.
  revert w. induction calls as [|[sid idle] calls IH]; intros w; [reflexivity |].
  simpl. unfold bind at 1. simpl. unfold bind at 1.
  rewrite enforceCadence_run. cbn zeta. apply IH.
Qed.

Lemma Paced_serial (env : Env) calls (w : World) :
  timersNotEarly env -> Paced w -> Paced (snd (serial env calls w)).
Proof.
  intros Hlate. revert w.
  induction calls as [|[sid idle] calls IH]; intros w Hw; [exact Hw |].
  simpl. unfold bind at 1. simpl. unfold bind at 1.
  pose proof (Paced_enforceCadence env sid _ Hlate (Paced_elapse idle w Hw)) as H.
  simpl in H.
  destruct (ChatRoute.enforceCadence env sid _) as [[[]|t] w1] eqn:E.
  - apply IH. exact H.
  - rewrite enforceCadence_run in E. discriminate.
Qed.

Lemma serial_count (env : Env) calls (w : World) :
  length (stamps anySession (trace (snd (serial env calls w)))) =
  (length (stamps anySession (trace w)) + length calls)%nat.
Proof.
  revert w. induction calls as [|[sid idle] calls IH]; intros w.
  - simpl. lia.
  - simpl. unfold bind at 1. simpl. unfold bind at 1.
    rewrite enforceCadence_run. cbn zeta. rewrite IH. simpl.
    rewrite stamps_enforce.
    + rewrite length_app. simpl. lia.
    + intros e. destruct (0 <? _).
      * intros ->%list_elem_of_singleton. eauto.
      * intros []%not_elem_of_nil.
Qed.

(** C1. The limiter sleeps for [max(sessionReadyAt - now, globalReadyAt -
    now, 0)], with a missing session entry read as 0, and records the clock
    reading taken after the sleep.  When timers do not fire early and the
    calls are made one after the other, every call returns and is recorded,
    the timestamps recorded for one session are at least 2000 ms apart, and
    the timestamps of all sessions together are at least 800 ms apart. *)
Theorem cadence_limiter_spacing (env : Env) :
  timersNotEarly env ->
  (forall sid w,
      ChatRoute.waitFor (clock w) (lastCallPerSession w !! sid) (lastGlobalCall w)
      = requiredWait w sid
      /\ exists ts w',
        ChatRoute.enforceCadence env sid w = (Returned tt, w')
        /\ trace w' =
           trace w
           ++ (if 0 <? requiredWait w sid
               then [Slept (inject_Z (requiredWait w sid))] else [])
           ++ [Permitted sid ts]
        /\ clock w + requiredWait w sid <= ts
        /\ lastCallPerSession w' !! sid = Some ts
        /\ lastGlobalCall w' = ts)
  /\ (forall calls w0,
         trace w0 = [] ->
         let w' := snd (serial env calls w0) in
         fst (serial env calls w0) = Returned tt
         /\ length (stamps anySession (trace w')) = length calls
         /\ (forall sid,
                spaced ChatRoute.SESSION_DELAY (stamps (session sid) (trace w')))
         /\ spaced ChatRoute.GLOBAL_DELAY (stamps anySession (trace w'))).
Proof.
  intros Hlate. split.
  - intros sid w. split; [apply waitFor_requiredWait |].
    pose proof (enforceCadence_run env sid w) as H. cbn zeta in H.
    eexists _, _. split; [exact H |]. simpl.
    split; [reflexivity |]. split; [| split; [apply lookup_insert_eq | reflexivity]].
    destruct (Z.ltb_spec 0 (requiredWait w sid)).
    + specialize (Hlate (sleeps w)). lia.
    + unfold requiredWait in *. lia.
  - intros calls w0 H0 w'. subst w'.
    pose proof (Paced_serial env calls w0 Hlate (Paced_boot w0 H0)) as [H1 _ H3 _].
    split; [apply serial_returns |].
    split; [| split; [exact H1 | exact H3]].
    rewrite serial_count, H0. reflexivity.
Qed.

Lemma cadence_limiter_spacing_witness :
  timersNotEarly quietEnv
  /\ stamps (session (lit "a"))
       (trace (snd (serial quietEnv sampleCalls (boot 1700000000000))))
     = [1700000000000; 1700000002003; 1700000007003]
  /\ spaced 2000
       (stamps (session (lit "a"))
          (trace (snd (serial quietEnv sampleCalls (boot 1700000000000)))))
  /\ stamps anySession
       (trace (snd (serial quietEnv sampleCalls (boot 1700000000000))))
     = [1700000000000; 1700000000803; 1700000002003; 1700000007003].
Proof.
  assert (timersNotEarly quietEnv) as H by (intros i; simpl; lia).
  split; [exact H |]. split; [vm_compute; reflexivity |].
  split; [| vm_compute; reflexivity].
  destruct (cadence_limiter_spacing quietEnv H) as [_ Hserial].
  destruct (Hserial sampleCalls (boot 1700000000000) eq_refl) as (_ & _ & Hs & _).
  exact (Hs (lit "a")).
Defined.

(** ** The retry loop *)

Section RetryLoop.

Variable env : Env.
Variable backoff : Z -> M unit.
Variable wait : Z -> nat -> Q.
Variable per : nat.

(** What a wait does: it returns, sleeps once for [wait n d], makes [per]
    draws and no outbound call. *)
Hypothesis backoff_run : forall n w, exists w',
  backoff n w = (Returned tt, w')
  /\ sends w' = sends w
  /\ draws w' = (draws w + per)%nat
  /\ trace w' = trace w ++ [Slept (wait n (draws w))].

(** The loop does what [attemptsOutcome] says, with the effects of
    [loopTrace]. *)
Lemma retryLoop_run (cmd : InvokeAgentCommand) (remaining : nat) :
  forall attempt lastError w,
    let o := attemptsOutcome env lastError remaining (sends w) in
    exists w',
      retryLoop env backoff cmd remaining attempt lastError w = (fst o, w')
      /\ sends w' = (sends w + snd o)%nat
      /\ trace w' = trace w ++ loopTrace wait per cmd (snd o) attempt (draws w).
Proof.
  induction remaining as [|r IH]; intros attempt lastError w; cbn zeta.
  - exists w. simpl. rewrite app_nil_r. auto with lia.
  - (* the turn: an optional wait, then the call *)
    assert (exists w1,
      (if 0 <? attempt then backoff attempt else ret tt) w = (Returned tt, w1)
      /\ sends w1 = sends w
      /\ draws w1 = (if 0 <? attempt then (draws w + per)%nat else draws w)
      /\ trace w1 =
         trace w ++ (if 0 <? attempt then [Slept (wait attempt (draws w))] else []))
      as (w1 & Hturn & Hs1 & Hd1 & Ht1).
    { destruct (0 <? attempt).
      - destruct (backoff_run attempt w) as (w1 & -> & ? & ? & ?). eauto.
      - exists w. simpl. rewrite app_nil_r. auto. }
    simpl retryLoop. unfold tryCatch, bind. rewrite Hturn. unfold send.
    simpl attemptsOutcome. rewrite Hs1.
    destruct (sendOutcome env (sends w)) as [resp | e].
    + eexists. split; [reflexivity |]. simpl. rewrite Ht1, <- app_assoc.
      split; [lia | reflexivity].
    + destruct (retryable e) eqn:Hre.
      * match goal with |- context [retryLoop _ _ _ _ _ _ ?w2] =>
          specialize (IH (attempt + 1) (Some e) w2) end.
        cbn zeta in IH. simpl sends in IH.
        destruct (attemptsOutcome env (Some e) r (S (sends w))) as [o m].
        destruct IH as (w' & Hrun & Hs' & Ht'). exists w'.
        split; [exact Hrun |]. split; [simpl in *; lia |].
        rewrite Ht'. simpl. rewrite Ht1, Hd1, <- !app_assoc. reflexivity.
      * eexists. split; [reflexivity |]. simpl. rewrite Ht1, <- app_assoc.
        split; [lia | reflexivity].
Qed.

End RetryLoop.

Lemma ChatRoute_backoff_run (env : Env) (n : Z) (w : World) : exists w',
  ChatRoute.backoff env n w = (Returned tt, w')
  /\ sends w' = sends w
  /\ draws w' = (draws w + 1)%nat
  /\ trace w' = trace w ++ [Slept (expWait env n (draws w))].
Proof.
  cbv [ChatRoute.backoff bind Math_random sleep].
  eexists. split; [reflexivity |]. cbv [sends draws trace]. auto with lia.
Qed.

Lemma ChatRouteCopy_backoff_run (env : Env) (n : Z) (w : World) : exists w',
  ChatRouteCopy.backoff env n w = (Returned tt, w')
  /\ sends w' = sends w
  /\ draws w' = (draws w + 0)%nat
  /\ trace w' = trace w ++ [Slept (linearWait n (draws w))].
Proof.
  cbv [ChatRouteCopy.backoff sleep].
  eexists. split; [reflexivity |]. cbv [sends draws trace]. auto with lia.
Qed.

(** Both copies of [callBedrockWithRetry], in one statement each. *)
Lemma ChatRoute_call_run (env : Env) cmd (maxRetries : Z) (w : World) :
  let o := attemptsOutcome env None (Z.to_nat (maxRetries + 1)) (sends w) in
  exists w',
    ChatRoute.callBedrockWithRetry env cmd maxRetries w = (fst o, w')
    /\ sends w' = (sends w + snd o)%nat
    /\ trace w' = trace w ++ loopTrace (expWait env) 1 cmd (snd o) 0 (draws w).
Proof.
  apply retryLoop_run. apply ChatRoute_backoff_run.
Qed.

Lemma ChatRouteCopy_call_run (env : Env) cmd (maxRetries : Z) (w : World) :
  let o := attemptsOutcome env None (Z.to_nat (maxRetries + 1)) (sends w) in
  exists w',
    ChatRouteCopy.callBedrockWithRetry env cmd maxRetries w = (fst o, w')
    /\ sends w' = (sends w + snd o)%nat
    /\ trace w' = trace w ++ loopTrace linearWait 0 cmd (snd o) 0 (draws w).
Proof.
  apply retryLoop_run. apply ChatRouteCopy_backoff_run.
Qed.

Lemma attempts_throttled_then_resolved (env : Env) (k : nat) :
  forall lastError remaining s r,
    (k < remaining)%nat ->
    (forall i, (i < k)%nat ->
               exists e, sendOutcome env (s + i) = Rejected e /\ retryable e = true) ->
    sendOutcome env (s + k) = Resolved r ->
    attemptsOutcome env lastError remaining s = (Returned r, S k).
Proof.
  induction k as [|k IH]; intros lastError remaining s r Hk Hfail Hok;
    destruct remaining as [|remaining]; try lia; simpl.
  - rewrite Nat.add_0_r in Hok. rewrite Hok. reflexivity.
  - destruct (Hfail O) as (e & He & Hre); [lia |].
    rewrite Nat.add_0_r in He. rewrite He, Hre.
    rewrite (IH (Some e) remaining (S s) r); [reflexivity | lia | |].
    + intros i Hi. destruct (Hfail (S i)) as (e' & He' & Hre'); [lia |].
      exists e'. rewrite <- He', Nat.add_succ_comm. auto.
    + rewrite <- Hok, Nat.add_succ_comm. reflexivity.
Qed.

Lemma attempts_all_throttled (env : Env) (remaining : nat) :
  forall lastError s,
    (forall i, (i <= remaining)%nat ->
               exists e, sendOutcome env (s + i) = Rejected e /\ retryable e = true) ->
    exists e,
      sendOutcome env (s + remaining) = Rejected e
      /\ retryable e = true
      /\ attemptsOutcome env lastError (S remaining) s
         = (Threw (ThrownError e), S remaining).
Proof.
  induction remaining as [|remaining IH]; intros lastError s Hfail.
  - destruct (Hfail O) as (e & He & Hre); [lia |]. exists e.
    split; [exact He |]. split; [exact Hre |].
    rewrite Nat.add_0_r in He. simpl. rewrite He, Hre. reflexivity.
  - destruct (Hfail O) as (e & He & Hre); [lia |].
    rewrite Nat.add_0_r in He.
    destruct (IH (Some e) (S s)) as (e' & He' & Hre' & Hrun).
    { intros i Hi. destruct (Hfail (S i)) as (e1 & He1 & Hre1); [lia |].
      exists e1. rewrite <- He1, Nat.add_succ_comm. auto. }
    exists e'. rewrite <- Nat.add_succ_comm. split; [exact He' |].
    split; [exact Hre' |].
    change (attemptsOutcome env lastError (S (S remaining)) s)
      with (match sendOutcome env s with
            | Resolved r => (Returned r, 1%nat)
            | Rejected e =>
                if retryable e then
                  let (o, m) := attemptsOutcome env (Some e) (S remaining) (S s) in
                  (o, S m)
                else (Threw (ThrownError e), 1%nat)
            end).
    rewrite He, Hre, Hrun. reflexivity.
Qed.

Lemma attempts_first_other (env : Env) lastError (remaining s : nat) (e : JsError) :
  sendOutcome env s = Rejected e -> retryable e = false ->
  attemptsOutcome env lastError (S remaining) s = (Threw (ThrownError e), 1%nat).
Proof. intros He Hre. simpl. rewrite He, Hre. reflexivity. Qed.

Lemma turns_of_maxRetries (maxRetries : Z) :
  0 <= maxRetries -> Z.to_nat (maxRetries + 1) = S (Z.to_nat maxRetries).
Proof. intros H. rewrite Z2Nat.inj_add by lia. simpl. lia. Qed.

(** C2. With [0 <= maxRetries]: when the first [k <= maxRetries]
    invocations fail with a throttling failure and the next one succeeds,
    [callBedrockWithRetry] returns that result after exactly [k + 1]
    invocations; when every invocation fails with a throttling failure it
    makes exactly [maxRetries + 1] invocations and throws the failure of the
    last one. *)
Theorem retry_until_success_or_exhaustion
    (env : Env) (cmd : InvokeAgentCommand) (maxRetries : Z) (w : World) :
  0 <= maxRetries ->
  (forall (k : nat) r,
      Z.of_nat k <= maxRetries ->
      (forall i, (i < k)%nat ->
         exists e, sendOutcome env (sends w + i) = Rejected e
                   /\ retryable e = true) ->
      sendOutcome env (sends w + k) = Resolved r ->
      exists w',
        ChatRoute.callBedrockWithRetry env cmd maxRetries w = (Returned r, w')
        /\ sends w' = (sends w + (k + 1))%nat)
  /\ ((forall i, exists e, sendOutcome env (sends w + i) = Rejected e
                           /\ retryable e = true) ->
      exists e w',
        ChatRoute.callBedrockWithRetry env cmd maxRetries w
        = (Threw (ThrownError e), w')
        /\ sendOutcome env (sends w + Z.to_nat maxRetries) = Rejected e
        /\ retryable e = true
        /\ Z.of_nat (sends w') = Z.of_nat (sends w) + (maxRetries + 1)).
Proof.
  intros H0.
  pose proof (ChatRoute_call_run env cmd maxRetries w) as Hrun. cbn zeta in Hrun.
  rewrite (turns_of_maxRetries _ H0) in Hrun. split.
  - intros k r Hk Hfail Hok.
    rewrite (attempts_throttled_then_resolved env k None _ _ r) in Hrun;
      [| lia | exact Hfail | exact Hok].
    destruct Hrun as (w' & Hrun & Hs & _). exists w'. split; [exact Hrun |].
    simpl in Hs. lia.
  - intros Hfail.
    destruct (attempts_all_throttled env (Z.to_nat maxRetries) None (sends w))
      as (e & He & Hre & Hout); [intros i _; apply Hfail |].
    rewrite Hout in Hrun. destruct Hrun as (w' & Hrun & Hs & _).
    exists e, w'. split; [exact Hrun |]. split; [exact He |].
    split; [exact Hre |]. simpl in Hs. lia.
Qed.

Lemma retry_until_success_or_exhaustion_witness :
  (exists w',
      ChatRoute.callBedrockWithRetry throttledTwice sampleCommand 2 (boot 0)
      = (Returned hello, w')
      /\ sends w' = 3%nat)
  /\ (exists w',
         ChatRoute.callBedrockWithRetry alwaysThrottled sampleCommand 2 (boot 0)
         = (Threw (ThrownError throttled), w')
         /\ sends w' = 3%nat).
Proof.
  split.
  - destruct (retry_until_success_or_exhaustion throttledTwice sampleCommand 2
                (boot 0) ltac:(lia)) as [Hok _].
    destruct (Hok 2%nat hello ltac:(lia)) as (w' & Hrun & Hs).
    + intros i Hi. exists throttled.
      destruct i as [|[|i]]; [split; reflexivity | split; reflexivity | lia].
    + reflexivity.
    + exists w'. split; [exact Hrun | exact Hs].
  - destruct (retry_until_success_or_exhaustion alwaysThrottled sampleCommand 2
                (boot 0) ltac:(lia)) as [_ Hall].
    destruct Hall as (e & w' & Hrun & He & _ & Hs).
    + intros i. exists throttled. split; [| reflexivity].
      simpl. unfold scripted. destruct i; reflexivity.
    + exists w'. injection He as <-. split; [exact Hrun |]. simpl in Hs. lia.
Defined.

Lemma retryable_spec (e : JsError) :
  retryable e = true <->
  name e = Some (lit "ThrottlingException")
  \/ exists m pre post,
       message e = Some m /\ m = pre ++ lit "Your request rate is too high" ++ post.
Proof.
  unfold retryable. rewrite orb_true_iff, bool_decide_eq_true, includes_spec.
  change THROTTLING_NAME with (lit "ThrottlingException").
  change THROTTLING_TEXT with (lit "Your request rate is too high").
  assert (forall pre post : jsstring,
             [] <> pre ++ lit "Your request rate is too high" ++ post) as Hne.
  { intros pre post H. apply (f_equal (@length N)) in H.
    rewrite !length_app in H.
    change (length (lit "Your request rate is too high")) with 29%nat in H.
    simpl in H. lia. }
  split.
  - intros [(pre & post & H) | H]; [right | left; exact H].
    destruct (message e) as [[|c m]|]; cbn [orElse] in H.
    + destruct (Hne _ _ H).
    + eauto.
    + destruct (Hne _ _ H).
  - intros [H | (m & pre & post & Hm & Hpre)]; [right; exact H | left].
    rewrite Hm. exists pre, post.
    destruct m as [|c m]; [destruct (Hne _ _ Hpre) | exact Hpre].
Qed.

(** C3. A failure is retried exactly when its name is
    ['ThrottlingException'] or its message contains ['Your request rate is
    too high'].  When the first invocation fails otherwise, either copy of
    [callBedrockWithRetry] throws that failure after this single invocation,
    and the invocation is its only effect: no wait, no second call. *)
Theorem other_failure_not_retried :
  (forall e,
      retryable e = true <->
      name e = Some (lit "ThrottlingException")
      \/ exists m pre post,
           message e = Some m
           /\ m = pre ++ lit "Your request rate is too high" ++ post)
  /\ (forall env cmd maxRetries w e,
         0 <= maxRetries ->
         sendOutcome env (sends w) = Rejected e ->
         retryable e = false ->
         (exists w',
             ChatRoute.callBedrockWithRetry env cmd maxRetries w
             = (Threw (ThrownError e), w')
             /\ sends w' = S (sends w)
             /\ trace w' = trace w ++ [Sent cmd])
         /\ (exists w',
                ChatRouteCopy.callBedrockWithRetry env cmd maxRetries w
                = (Threw (ThrownError e), w')
                /\ sends w' = S (sends w)
                /\ trace w' = trace w ++ [Sent cmd])).
Proof.
  split; [exact retryable_spec |].
  intros env cmd maxRetries w e H0 He Hre. split.
  - pose proof (ChatRoute_call_run env cmd maxRetries w) as Hrun.
    cbn zeta in Hrun.
    rewrite (turns_of_maxRetries _ H0),
      (attempts_first_other env None _ _ e He Hre) in Hrun.
    destruct Hrun as (w' & Hrun & Hs & Ht). exists w'.
    split; [exact Hrun |]. split; [simpl in Hs; lia | exact Ht].
  - pose proof (ChatRouteCopy_call_run env cmd maxRetries w) as Hrun.
    cbn zeta in Hrun.
    rewrite (turns_of_maxRetries _ H0),
      (attempts_first_other env None _ _ e He Hre) in Hrun.
    destruct Hrun as (w' & Hrun & Hs & Ht). exists w'.
    split; [exact Hrun |]. split; [simpl in Hs; lia | exact Ht].
Qed.

Lemma other_failure_not_retried_witness :
  exists w',
    ChatRoute.callBedrockWithRetry deniedAtOnce sampleCommand 2 (boot 0)
    = (Threw (ThrownError denied), w')
    /\ sends w' = 1%nat
    /\ trace w' = [Sent sampleCommand].
Proof.
  destruct other_failure_not_retried as [_ H].
  destruct (H deniedAtOnce sampleCommand 2 (boot 0) denied
              ltac:(lia) eq_refl eq_refl) as [Hrun _].
  exact Hrun.
Defined.

(** ** The waits between attempts *)

Lemma expWait_range (env : Env) (n : Z) (d : nat) :
  drawsInRange env ->
  exists jitter : Q,
    expWait env n d = (inject_Z (500 * 2 ^ (n - 1)) + jitter)%Q
    /\ (0 <= jitter)%Q /\ (jitter < 250)%Q.
Proof.
  intros Hr. exists (randomDraw env d * 250)%Q. split; [reflexivity |].
  destruct (Hr d) as [H0 H1]. split; lra.
Qed.

(** In the second copy of the route the wait before the second attempt is
    300 ms, which is not 500 ms plus a jitter below 250 ms. *)
Lemma backoff_formula_counterexample :
  trace (snd (ChatRouteCopy.callBedrockWithRetry throttledOnce sampleCommand 2
                (boot 0)))
  = [Sent sampleCommand; Slept (inject_Z 300); Sent sampleCommand]
  /\ ~ exists jitter : Q,
         (0 <= jitter)%Q /\ (jitter < 250)%Q
         /\ (inject_Z 300 == inject_Z (500 * 2 ^ (1 - 1)) + jitter)%Q.
Proof.
  split; [reflexivity |].
  intros (jitter & H0 & H1 & H).
  change (500 * 2 ^ (1 - 1)) with 500 in H. unfold inject_Z in H. lra.
Qed.

(** C4, amended.  A run of [callBedrockWithRetry] makes some number
    [m >= 1] of invocations, the one that [attemptsOutcome] gives, and its
    effects are these invocations with one wait before each but the first:
    attempt 0 is the call alone, attempt [n >= 1] is a sleep and the call.
    In the route with the limiter the wait before attempt [n >= 1] is
    [500 * 2^(n-1)] ms (500, 1000, 2000 for the attempts 1, 2, 3) plus
    [250] times the draw of [Math.random()] made for it, so at least the
    base and less than the base plus 250 when the draws are in [0, 1).  In
    the second copy the wait before attempt [n] is [300 * n] ms and no
    draw is made. *)
Theorem backoff_between_attempts
    (env : Env) (cmd : InvokeAgentCommand) (maxRetries : Z) (w : World) :
  0 <= maxRetries ->
  let m := snd (attemptsOutcome env None (Z.to_nat (maxRetries + 1)) (sends w)) in
  (1 <= m)%nat
  /\ trace (snd (ChatRoute.callBedrockWithRetry env cmd maxRetries w))
     = trace w ++ loopTrace (expWait env) 1 cmd m 0 (draws w)
  /\ trace (snd (ChatRouteCopy.callBedrockWithRetry env cmd maxRetries w))
     = trace w ++ loopTrace linearWait 0 cmd m 0 (draws w)
  /\ (forall wait per k d,
         loopTrace wait per cmd (S k) 0 d
         = Sent cmd :: loopTrace wait per cmd k 1 d)
  /\ (forall wait per k n d,
         1 <= n ->
         loopTrace wait per cmd (S k) n d
         = Slept (wait n d) :: Sent cmd
             :: loopTrace wait per cmd k (n + 1) (d + per))
  /\ (forall n d,
         expWait env n d
         = (inject_Z (500 * 2 ^ (n - 1)) + randomDraw env d * 250)%Q
         /\ linearWait n d = inject_Z (300 * n))
  /\ (500 * 2 ^ (1 - 1) = 500 /\ 500 * 2 ^ (2 - 1) = 1000
      /\ 500 * 2 ^ (3 - 1) = 2000)
  /\ (drawsInRange env ->
      forall n d, exists jitter : Q,
        expWait env n d = (inject_Z (500 * 2 ^ (n - 1)) + jitter)%Q
        /\ (0 <= jitter)%Q /\ (jitter < 250)%Q).
Proof.
  intros H0 m.
  pose proof (ChatRoute_call_run env cmd maxRetries w) as H1.
  pose proof (ChatRouteCopy_call_run env cmd maxRetries w) as H2.
  cbn zeta in H1, H2. fold m in H1, H2.
  destruct H1 as (w1 & -> & _ & Ht1). destruct H2 as (w2 & -> & _ & Ht2).
  split.
  { subst m. rewrite (turns_of_maxRetries _ H0). simpl.
    destruct (sendOutcome env (sends w)) as [r | e]; simpl; [lia |].
    destruct (retryable e); simpl; [| lia].
    destruct (attemptsOutcome env (Some e) _ _). simpl. lia. }
  split; [exact Ht1 |]. split; [exact Ht2 |].
  split; [reflexivity |].
  split.
  { intros wait per k n d Hn. simpl.
    destruct (Z.ltb_spec 0 n); [reflexivity | lia]. }
  split; [intros n d; split; reflexivity |].
  split; [repeat split; reflexivity |].
  intros Hr n d. apply expWait_range. exact Hr.
Qed.

Lemma backoff_between_attempts_witness :
  trace (snd (ChatRoute.callBedrockWithRetry alwaysThrottled sampleCommand 2
                (boot 0)))
  = [Sent sampleCommand;
     Slept (inject_Z 500 + (1 # 2) * 250)%Q; Sent sampleCommand;
     Slept (inject_Z 1000 + (1 # 2) * 250)%Q; Sent sampleCommand].
Proof.
  destruct (backoff_between_attempts alwaysThrottled sampleCommand 2 (boot 0)
              ltac:(lia)) as (_ & H & _).
  exact H.
Defined.

(** ** The handler *)

Lemma destructure_run (j : Json) (w : World) :
  j <> JNull ->
  destructure j w
  = (Returned (getProp j (lit "question"), getProp j (lit "sessionId")), w).
Proof. intros H. destruct j; [congruence | reflexivity ..]. Qed.

Lemma trim_length_blank (s : jsstring) :
  (0 <? length (JsString.trim s))%nat = negb (JsString.blank s).
Proof.
  destruct (JsString.blank s) eqn:E.
  - apply trim_nil in E. rewrite E. reflexivity.
  - destruct (JsString.trim s) eqn:Et; [| reflexivity].
    apply trim_nil in Et. congruence.
Qed.

Lemma effectiveSession_run (env : Env) (v : JsValue) (w : World) :
  exists w',
    effectiveSession env v w = (Returned (chosenSession env v w), w')
    /\ lastCallPerSession w' = lastCallPerSession w
    /\ lastGlobalCall w' = lastGlobalCall w
    /\ clock w' = clock w
    /\ sends w' = sends w /\ draws w' = draws w /\ sleeps w' = sleeps w
    /\ trace w' = trace w
    /\ uuids w' = match suppliedSession v with
                  | Some _ => uuids w
                  | None => S (uuids w)
                  end.
Proof.
  unfold effectiveSession, chosenSession, suppliedSession.
  destruct v as [[| | |s| |]|];
    try (eexists; split; [reflexivity |]; simpl; auto 10).
  rewrite trim_length_blank.
  destruct (JsString.blank s) eqn:E; simpl.
  - eexists; split; [reflexivity |]. simpl. auto 10.
  - exists w. split; [reflexivity |]. auto 10.
Qed.

(** A valid request is answered from the gateway's outcome; an invalid one
    does not get that far. *)
Lemma handle_invalid (env : Env) acquire call (j : Json) (w : World) :
  j <> JNull ->
  invalidQuestion (getProp j (lit "question")) = true ->
  handle env acquire call (Parsed j) w
  = (Returned (mkHttp 400 (JObj [(lit "error", JStr MISSING_QUESTION)])), w).
Proof.
  intros Hj Hq. cbv beta iota delta [handle tryCatch bind ret].
  rewrite (destructure_run j w Hj). cbn [fst snd]. rewrite Hq. reflexivity.
Qed.

Lemma handle_valid (env : Env) acquire call (j : Json) (w : World) :
  j <> JNull ->
  invalidQuestion (getProp j (lit "question")) = false ->
  exists w1,
    effectiveSession env (getProp j (lit "sessionId")) w
    = (Returned (chosenSession env (getProp j (lit "sessionId")) w), w1)
    /\ handle env acquire call (Parsed j) w
       = let sid := chosenSession env (getProp j (lit "sessionId")) w in
         match gateway env acquire call
                 (textOf (getProp j (lit "question"))) sid w1 with
         | (Returned reply, w') =>
             (Returned (mkHttp 200 (JObj [(lit "reply", JStr reply);
                                          (lit "sessionId", JStr sid)])), w')
         | (Threw t, w') =>
             (Returned
                (mkHttp 500
                   (JObj [(lit "error",
                           JStr (orElse (messageOf t) GENERIC_FAILURE))])), w')
         end.
Proof.
  intros Hj Hq.
  destruct (effectiveSession_run env (getProp j (lit "sessionId")) w)
    as (w1 & Hsid & _).
  exists w1. split; [exact Hsid |].
  cbv beta iota delta [handle tryCatch bind ret].
  rewrite (destructure_run j w Hj). cbn [fst snd]. rewrite Hq, Hsid.
  cbn zeta.
  destruct (gateway env acquire call _ _ w1) as [[reply | t] w']; reflexivity.
Qed.

Lemma fold_appendChunk (evs : list StreamEvent) (acc : jsstring) :
  fold_left appendChunk evs acc
  = acc ++ concat (List.map TextDecoder.decode (payloads evs)).
Proof.
  revert acc. induction evs as [|ev evs IH]; intros acc; simpl.
  - rewrite app_nil_r. reflexivity.
  - rewrite IH. unfold appendChunk, payloads. simpl.
    destruct (chunk ev) as [[[bs|]]|]; simpl; [| reflexivity ..].
    rewrite <- app_assoc. reflexivity.
Qed.

Lemma orFallback_spec (text : jsstring) :
  orFallback text = if JsString.blank text then NO_REPLY else text.
Proof.
  unfold orFallback. destruct (JsString.blank text) eqn:E.
  - apply trim_nil in E. rewrite E. reflexivity.
  - destruct (JsString.trim text) eqn:Et; [| reflexivity].
    apply trim_nil in Et. congruence.
Qed.

Lemma readCompletion_run (r : InvokeAgentResponse) (w : World) :
  (let* reply := readCompletion r in ret (orFallback reply))%js w
  = (gatewayResult (Returned r), w).
Proof.
  unfold bind, readCompletion, gatewayResult, replyOf, decodedText.
  destruct (completion r) as [c|]; simpl.
  - destruct (failure c); [reflexivity |]. unfold ret.
    rewrite orFallback_spec, fold_appendChunk. reflexivity.
  - unfold ret. rewrite orFallback_spec. reflexivity.
Qed.

(** The gateway after the limiter: the call with its retries, then the
    stream. *)
Lemma gateway_call_run (env : Env) call wait per cmd (w : World) :
  (let o := attemptsOutcome env None 3 (sends w) in
   exists w', call cmd w = (fst o, w')
              /\ sends w' = (sends w + snd o)%nat
              /\ trace w' = trace w ++ loopTrace wait per cmd (snd o) 0 (draws w)) ->
  let o := attemptsOutcome env None 3 (sends w) in
  exists w',
    (let* response := call cmd in
     let* reply := readCompletion response in
     ret (orFallback reply))%js w = (gatewayResult (fst o), w')
    /\ sends w' = (sends w + snd o)%nat
    /\ trace w' = trace w ++ loopTrace wait per cmd (snd o) 0 (draws w).
Proof.
  cbn zeta. intros (w' & Hcall & Hs & Ht). exists w'.
  split; [| split; [exact Hs | exact Ht]].
  unfold bind at 1. rewrite Hcall.
  destruct (attemptsOutcome env None 3 (sends w)) as [[r | t] m]; simpl.
  - apply readCompletion_run.
  - reflexivity.
Qed.

Lemma ChatRoute_gateway_run (env : Env) (q sid : jsstring) (w : World) :
  let cmd := mkCommand (AGENT_ID env) (AGENT_ALIAS_ID env) sid q in
  let wait := requiredWait w sid in
  let o := attemptsOutcome env None 3 (sends w) in
  exists ts w',
    gateway env (ChatRoute.enforceCadence env)
      (fun c => ChatRoute.callBedrockWithRetry env c 2) q sid w
    = (gatewayResult (fst o), w')
    /\ sends w' = (sends w + snd o)%nat
    /\ trace w' =
       trace w
       ++ (if 0 <? wait then [Slept (inject_Z wait)] else [])
       ++ Permitted sid ts :: loopTrace (expWait env) 1 cmd (snd o) 0 (draws w).
Proof.
  intros cmd wait o. unfold gateway. unfold bind at 1.
  rewrite enforceCadence_run. cbn zeta. fold wait.
  set (ts := if 0 <? wait then _ else _).
  set (w1 := mkWorld ts _ _ _ _ _ _ _).
  destruct (gateway_call_run env (fun c => ChatRoute.callBedrockWithRetry env c 2)
              (expWait env) 1%nat cmd w1) as (w' & Hrun & Hs & Ht).
  { apply (ChatRoute_call_run env cmd 2 w1). }
  exists ts, w'. fold cmd. split; [exact Hrun |]. split; [exact Hs |].
  rewrite Ht. subst w1. simpl. rewrite <- !app_assoc. reflexivity.
Qed.

Lemma ChatRouteCopy_gateway_run (env : Env) (q sid : jsstring) (w : World) :
  let cmd := mkCommand (AGENT_ID env) (AGENT_ALIAS_ID env) sid q in
  let o := attemptsOutcome env None 3 (sends w) in
  exists w',
    gateway env (fun _ => ret tt)
      (fun c => ChatRouteCopy.callBedrockWithRetry env c 2) q sid w
    = (gatewayResult (fst o), w')
    /\ sends w' = (sends w + snd o)%nat
    /\ trace w' = trace w ++ loopTrace linearWait 0 cmd (snd o) 0 (draws w).
Proof.
  intros cmd o. unfold gateway. unfold bind at 1. unfold ret at 1.
  apply (gateway_call_run env (fun c => ChatRouteCopy.callBedrockWithRetry env c 2)
           linearWait 0%nat cmd w).
  apply (ChatRouteCopy_call_run env cmd 2 w).
Qed.

(** What the two handlers do with a valid request: the response, the number
    of outbound calls and the effects, in order. *)
Lemma ChatRoute_POST_valid (env : Env) (j : Json) (w : World) :
  j <> JNull ->
  invalidQuestion (getProp j (lit "question")) = false ->
  let sid := chosenSession env (getProp j (lit "sessionId")) w in
  let cmd := mkCommand (AGENT_ID env) (AGENT_ALIAS_ID env) sid
               (textOf (getProp j (lit "question"))) in
  let wait := requiredWait w sid in
  let o := attemptsOutcome env None 3 (sends w) in
  exists ts w',
    ChatRoute.POST env (Parsed j) w
    = (Returned (answer sid (gatewayResult (fst o))), w')
    /\ sends w' = (sends w + snd o)%nat
    /\ trace w' =
       trace w
       ++ (if 0 <? wait then [Slept (inject_Z wait)] else [])
       ++ Permitted sid ts :: loopTrace (expWait env) 1 cmd (snd o) 0 (draws w).
Proof.
  intros Hj Hq sid cmd wait o.
  destruct (handle_valid env (ChatRoute.enforceCadence env)
              (fun c => ChatRoute.callBedrockWithRetry env c 2) j w Hj Hq)
    as (w1 & Hsid & Hpost).
  destruct (effectiveSession_run env (getProp j (lit "sessionId")) w)
    as (w1' & Hsid' & Hm & Hg & Hc & Hs & Hd & _ & Ht & _).
  assert (w1' = w1) as -> by congruence.
  destruct (ChatRoute_gateway_run env (textOf (getProp j (lit "question"))) sid w1)
    as (ts & w' & Hgw & Hs' & Ht').
  exists ts, w'. unfold ChatRoute.POST. rewrite Hpost. cbn zeta. fold sid.
  rewrite Hgw.
  assert (requiredWait w1 sid = wait) as Hwait.
  { subst wait. unfold requiredWait. rewrite Hm, Hg, Hc. reflexivity. }
  rewrite Hwait, Hs, Hd, Ht in *.
  split; [| split; [exact Hs' | exact Ht']].
  subst o. destruct (gatewayResult _); reflexivity.
Qed.

Lemma ChatRouteCopy_POST_valid (env : Env) (j : Json) (w : World) :
  j <> JNull ->
  invalidQuestion (getProp j (lit "question")) = false ->
  let sid := chosenSession env (getProp j (lit "sessionId")) w in
  let cmd := mkCommand (AGENT_ID env) (AGENT_ALIAS_ID env) sid
               (textOf (getProp j (lit "question"))) in
  let o := attemptsOutcome env None 3 (sends w) in
  exists w',
    ChatRouteCopy.POST env (Parsed j) w
    = (Returned (answer sid (gatewayResult (fst o))), w')
    /\ sends w' = (sends w + snd o)%nat
    /\ trace w' = trace w ++ loopTrace linearWait 0 cmd (snd o) 0 (draws w).
Proof.
  intros Hj Hq sid cmd o.
  destruct (handle_valid env (fun _ => ret tt)
              (fun c => ChatRouteCopy.callBedrockWithRetry env c 2) j w Hj Hq)
    as (w1 & Hsid & Hpost).
  destruct (effectiveSession_run env (getProp j (lit "sessionId")) w)
    as (w1' & Hsid' & _ & _ & _ & Hs & Hd & _ & Ht & _).
  assert (w1' = w1) as -> by congruence.
  destruct (ChatRouteCopy_gateway_run env (textOf (getProp j (lit "question")))
              sid w1) as (w' & Hgw & Hs' & Ht').
  exists w'. unfold ChatRouteCopy.POST. rewrite Hpost. cbn zeta. fold sid.
  rewrite Hgw. rewrite Hs, Hd, Ht in *.
  split; [| split; [exact Hs' | exact Ht']].
  subst o. destruct (gatewayResult _); reflexivity.
Qed.

Lemma loopTrace_no_permit wait per cmd (m : nat) (a : Z) (d : nat) :
  forallb (fun e => negb (isPermitted e)) (loopTrace wait per cmd m a d) = true.
Proof.
  revert a d. induction m as [|m IH]; intros a d; simpl; [reflexivity |].
  destruct (0 <? a); simpl; apply IH.
Qed.

(** The first of [m >= 1] turns is the call itself. *)
Lemma loopTrace_first wait per cmd (m : nat) (d : nat) :
  (1 <= m)%nat ->
  exists rest, loopTrace wait per cmd m 0 d = Sent cmd :: rest
               /\ forallb (fun e => negb (isPermitted e)) rest = true.
Proof.
  intros Hm. destruct m as [|m]; [lia |]. simpl. eexists. split; [reflexivity |].
  apply loopTrace_no_permit.
Qed.

Lemma loopTrace_guarded wait per cmd (m : nat) (a : Z) (d : nat) seen :
  sessionId cmd ∈ seen -> guarded seen (loopTrace wait per cmd m a d) = true.
Proof.
  intros Hin. revert a d. induction m as [|m IH]; intros a d; simpl; [reflexivity |].
  destruct (0 <? a); simpl; rewrite bool_decide_eq_true_2 by exact Hin; apply IH.
Qed.

Lemma attempts_at_least_one (env : Env) lastError (remaining s : nat) :
  (1 <= snd (attemptsOutcome env lastError (S remaining) s))%nat.
Proof.
  simpl. destruct (sendOutcome env s) as [r | e]; simpl; [lia |].
  destruct (retryable e); simpl; [| lia].
  destruct (attemptsOutcome env (Some e) _ _). simpl. lia.
Qed.

Lemma loopTrace_sent wait per cmd (m : nat) (a : Z) (d : nat) (c : InvokeAgentCommand) :
  Sent c ∈ loopTrace wait per cmd m a d -> c = cmd.
Proof.
  revert a d. induction m as [|m IH]; intros a d; simpl.
  - intros []%not_elem_of_nil.
  - rewrite elem_of_app, elem_of_cons. intros [H | [H | H]].
    + destruct (0 <? a).
      * apply list_elem_of_singleton in H. discriminate.
      * destruct (not_elem_of_nil _ H).
    + congruence.
    + exact (IH _ _ H).
Qed.

Lemma invalidQuestion_spec (q : JsValue) :
  invalidQuestion q = true <->
  q = None \/ (forall s, q <> Some (JStr s)) \/ q = Some (JStr []).
Proof.
  unfold invalidQuestion. split.
  - destruct q as [[| | |[|c s]| |]|]; simpl; intros H;
      try discriminate; auto; right; left; congruence.
  - intros [-> | [H | ->]]; [reflexivity | | reflexivity].
    destruct q as [[| | |s| |]|]; simpl; rewrite ?orb_true_r; try reflexivity.
    destruct (H s). reflexivity.
Qed.

(** ** Validation *)

(** A body whose [question] is the empty string has a question that is
    present and is text, and is answered with 400 all the same. *)
Lemma question_validation_counterexample :
  getProp (ask [] None) (lit "question") = Some (JStr [])
  /\ ChatRoute.POST quietEnv (Parsed (ask [] None)) (boot 0)
     = (Returned (mkHttp 400 (JObj [(lit "error", JStr MISSING_QUESTION)])),
        boot 0).
Proof. split; reflexivity. Qed.

(** C5, amended.  For a body that parses to a JSON value other than [null],
    the handler answers 400 with [{ error: 'Missing "question" in request
    body' }] exactly when [question] is missing, is not a string, or is the
    empty string; the world is then left as it was: no timestamp recorded,
    no outbound call.  Otherwise validation passes and the answer is 200 or
    500. *)
Theorem question_validation (env : Env) (j : Json) (w : World) :
  j <> JNull ->
  let q := getProp j (lit "question") in
  let refused := q = None \/ (forall s, q <> Some (JStr s)) \/ q = Some (JStr []) in
  (refused ->
   ChatRoute.POST env (Parsed j) w
   = (Returned (mkHttp 400 (JObj [(lit "error", JStr MISSING_QUESTION)])), w))
  /\ (~ refused ->
      exists resp w',
        ChatRoute.POST env (Parsed j) w = (Returned resp, w')
        /\ (status resp = 200 \/ status resp = 500))
  /\ (fst (ChatRoute.POST env (Parsed j) w) =
        Returned (mkHttp 400 (JObj [(lit "error", JStr MISSING_QUESTION)]))
      <-> refused).
Proof.
  intros Hj q refused.
  assert (refused ->
          ChatRoute.POST env (Parsed j) w
          = (Returned (mkHttp 400 (JObj [(lit "error", JStr MISSING_QUESTION)])), w))
    as Hbad.
  { intros H. apply handle_invalid; [exact Hj |].
    apply invalidQuestion_spec. exact H. }
  assert (~ refused ->
          exists resp w',
            ChatRoute.POST env (Parsed j) w = (Returned resp, w')
            /\ (status resp = 200 \/ status resp = 500)) as Hgood.
  { intros H.
    assert (invalidQuestion q = false) as Hq.
    { destruct (invalidQuestion q) eqn:E; [| reflexivity].
      apply invalidQuestion_spec in E. contradiction. }
    destruct (ChatRoute_POST_valid env j w Hj Hq) as (ts & w' & Hrun & _).
    eexists _, w'. split; [exact Hrun |].
    destruct (gatewayResult _); simpl; auto. }
  split; [exact Hbad |]. split; [exact Hgood |]. split.
  - intros H.
    destruct (invalidQuestion q) eqn:E; [apply invalidQuestion_spec; exact E |].
    exfalso. destruct Hgood as (resp & w' & Hrun & Hst).
    + intros Hr. apply invalidQuestion_spec in Hr. congruence.
    + rewrite Hrun in H. simpl in H. injection H as ->.
      simpl in Hst. destruct Hst; discriminate.
  - intros H. rewrite (Hbad H). reflexivity.
Qed.

Lemma question_validation_witness :
  ChatRoute.POST quietEnv (Parsed (JObj [])) (boot 0)
  = (Returned (mkHttp 400 (JObj [(lit "error", JStr MISSING_QUESTION)])), boot 0).
Proof.
  destruct (question_validation quietEnv (JObj []) (boot 0) ltac:(discriminate))
    as [H _].
  apply H. left. reflexivity.
Defined.

(** ** The session identifier *)

Lemma suppliedSession_spec (v : JsValue) (s : jsstring) :
  suppliedSession v = Some s <-> v = Some (JStr s) /\ JsString.blank s = false.
Proof.
  unfold suppliedSession. split.
  - destruct v as [[| | |s'| |]|]; try discriminate.
    destruct (JsString.blank s') eqn:E; [discriminate |].
    intros [= ->]. auto.
  - intros [-> ->]. reflexivity.
Qed.

(** A [sessionId] of two spaces is present, is text and is not empty, and
    the handler replaces it by a generated identifier. *)
Lemma session_assignment_counterexample :
  let supplied := lit "  " in
  let generated := uuid quietEnv 0 in
  let run :=
    ChatRoute.POST quietEnv (Parsed (ask (lit "hi") (Some (JStr supplied))))
      (boot 1700000000000) in
  supplied <> [] /\ supplied <> generated
  /\ fst run
     = Returned (mkHttp 200 (JObj [(lit "reply", JStr (lit "Hello"));
                                   (lit "sessionId", JStr generated)]))
  /\ trace (snd run)
     = [Permitted generated 1700000000000;
        Sent (mkCommand (lit "HYEOBH27GN") (lit "HKYBMPQHTH") generated
                (lit "hi"))].
Proof.
  split; [discriminate |]. split; [discriminate |].
  split; vm_compute; reflexivity.
Qed.

(** C6, amended.  For a request that passes validation: when [sessionId]
    is a string with a character that is not white space, the handler uses
    it unchanged; when it is absent, not a string, or a string of white
    space only (the empty string included), the handler uses the value
    [crypto.randomUUID()] returns.  Every outbound call of the request
    carries the identifier so chosen, at least one call is made, and a 200
    response carries the same identifier. *)
Theorem session_assignment (env : Env) (j : Json) (w : World) :
  j <> JNull ->
  invalidQuestion (getProp j (lit "question")) = false ->
  let v := getProp j (lit "sessionId") in
  let sid := chosenSession env v w in
  (forall s, v = Some (JStr s) -> JsString.blank s = false -> sid = s)
  /\ ((forall s, v = Some (JStr s) -> JsString.blank s = true) ->
      sid = uuid env (uuids w))
  /\ exists resp w' ext,
       ChatRoute.POST env (Parsed j) w = (Returned resp, w')
       /\ trace w' = trace w ++ ext
       /\ (exists c, Sent c ∈ ext)
       /\ (forall c, Sent c ∈ ext -> sessionId c = sid)
       /\ (status resp = 200 ->
           exists reply,
             body resp = JObj [(lit "reply", JStr reply);
                               (lit "sessionId", JStr sid)]).
Proof.
  intros Hj Hq v sid. split; [| split].
  - intros s Hv Hb. subst sid. unfold chosenSession.
    rewrite (proj2 (suppliedSession_spec v s)); auto.
  - intros Hv. subst sid. unfold chosenSession.
    destruct (suppliedSession v) as [s|] eqn:E; [| reflexivity].
    apply suppliedSession_spec in E as [E1 E2].
    rewrite (Hv s E1) in E2. discriminate.
  - destruct (ChatRoute_POST_valid env j w Hj Hq) as (ts & w' & Hrun & _ & Ht).
    cbn zeta in Hrun, Ht. fold v in Hrun, Ht. fold sid in Hrun, Ht.
    eexists _, w', _. split; [exact Hrun |]. split; [exact Ht |].
    pose proof (attempts_at_least_one env None 2 (sends w)) as Hm.
    destruct (loopTrace_first (expWait env) 1%nat
                (mkCommand (AGENT_ID env) (AGENT_ALIAS_ID env) sid
                   (textOf (getProp j (lit "question"))))
                _ (draws w) Hm) as (rest & Hrest & _).
    split; [| split].
    + eexists. rewrite Hrest, elem_of_app. right. right. left.
    + intros c. rewrite elem_of_app, elem_of_cons. intros [H | [H | H]].
      * destruct (0 <? _).
        -- apply list_elem_of_singleton in H. discriminate.
        -- destruct (not_elem_of_nil _ H).
      * discriminate.
      * apply loopTrace_sent in H. subst c. reflexivity.
    + destruct (gatewayResult _) as [reply | t]; simpl; [eauto | discriminate].
Qed.

Lemma session_assignment_witness :
  chosenSession quietEnv
    (getProp (ask (lit "hi") (Some (JStr (lit "abc")))) (lit "sessionId"))
    (boot 1700000000000)
  = lit "abc".
Proof.
  destruct (session_assignment quietEnv (ask (lit "hi") (Some (JStr (lit "abc"))))
              (boot 1700000000000) ltac:(discriminate) eq_refl) as [H _].
  exact (H (lit "abc") eq_refl eq_refl).
Defined.

(** ** The reply *)

(** C7. The loop over the stream builds the concatenation, in arrival
    order, of the decoded payloads, and events without a payload add
    nothing; the gateway, when the stream does not break off, returns that
    text, or the fixed message when the text is empty or white space only.
    Chunks "He", "llo" give "Hello"; a stream without events and an absent
    completion give the fixed message. *)
Theorem agent_reply :
  (forall evs,
      fold_left appendChunk evs [] =
      concat (List.map TextDecoder.decode (payloads evs)))
  /\ (forall evs,
         payloads (mkEvent None :: evs) = payloads evs
         /\ payloads (mkEvent (Some (mkChunk None)) :: evs) = payloads evs)
  /\ (forall text,
         (JsString.trim text = [] <-> JsString.blank text = true)
         /\ orFallback text = if JsString.blank text then NO_REPLY else text)
  /\ (forall r w,
         (c ← completion r; failure c) = None ->
         (let* reply := readCompletion r in ret (orFallback reply))%js w
         = (Returned (if JsString.blank (decodedText r)
                      then NO_REPLY else decodedText r), w))
  /\ (forall env j w r,
         j <> JNull ->
         invalidQuestion (getProp j (lit "question")) = false ->
         fst (attemptsOutcome env None 3 (sends w)) = Returned r ->
         (c ← completion r; failure c) = None ->
         fst (ChatRoute.POST env (Parsed j) w)
         = Returned
             (mkHttp 200
                (JObj [(lit "reply",
                        JStr (if JsString.blank (decodedText r)
                              then NO_REPLY else decodedText r));
                       (lit "sessionId",
                        JStr (chosenSession env (getProp j (lit "sessionId")) w))])))
  /\ replyOf (mkResponse (Some (mkCompletion [textChunk "He"; textChunk "llo"] None)))
     = lit "Hello"
  /\ replyOf (mkResponse (Some (mkCompletion [] None))) = NO_REPLY
  /\ replyOf (mkResponse None) = NO_REPLY
  /\ NO_REPLY = lit "Sorry, I could not get a response from the Finance Agent.".
Proof.
  split; [intros evs; apply fold_appendChunk |].
  split; [intros evs; split; reflexivity |].
  split; [intros text; split; [apply trim_nil | apply orFallback_spec] |].
  split.
  { intros r w Hf. rewrite readCompletion_run. unfold gatewayResult.
    rewrite Hf. reflexivity. }
  split.
  { intros env j w r Hj Hq Hr Hf.
    destruct (ChatRoute_POST_valid env j w Hj Hq) as (ts & w' & Hrun & _).
    rewrite Hrun, Hr. unfold gatewayResult. rewrite Hf. reflexivity. }
  repeat split; vm_compute; reflexivity.
Qed.

Lemma agent_reply_witness :
  fst (ChatRoute.POST quietEnv (Parsed (ask (lit "hi") (Some (JStr (lit "abc")))))
         (boot 1700000000000))
  = Returned (mkHttp 200 (JObj [(lit "reply", JStr (lit "Hello"));
                                (lit "sessionId", JStr (lit "abc"))])).
Proof.
  destruct agent_reply as (_ & _ & _ & _ & H & _).
  exact (H quietEnv (ask (lit "hi") (Some (JStr (lit "abc"))))
           (boot 1700000000000) hello ltac:(discriminate) eq_refl eq_refl eq_refl).
Defined.

(** ** The limiter comes first *)

(** In the second copy of the route a valid request goes straight to the
    agent: the call is the first and only effect, no permission is
    recorded. *)
Lemma cadence_before_call_counterexample :
  let run :=
    ChatRouteCopy.POST quietEnv
      (Parsed (ask (lit "hi") (Some (JStr (lit "abc"))))) (boot 1700000000000) in
  trace (snd run) = [Sent sampleCommand]
  /\ guarded [] (trace (snd run)) = false
  /\ lastCallPerSession (snd run) = ∅.
Proof. repeat split; vm_compute; reflexivity. Qed.

(** C8, amended.  In the route with the limiter, the effects of a request
    that passes validation are, in this order: the limiter's sleep if one is
    needed, the permission recorded for the effective session identifier,
    and then the outbound calls with their waits, all for that session; so
    every outbound call comes after a completed acquisition.  The second
    copy of the route has no limiter: the effects of a valid request start
    with the outbound call and record no permission. *)
Theorem cadence_before_call (env : Env) (j : Json) (w : World) :
  j <> JNull ->
  invalidQuestion (getProp j (lit "question")) = false ->
  let sid := chosenSession env (getProp j (lit "sessionId")) w in
  (exists resp w' slept ts cmd rest,
      ChatRoute.POST env (Parsed j) w = (Returned resp, w')
      /\ trace w' = trace w ++ slept ++ Permitted sid ts :: Sent cmd :: rest
      /\ sessionId cmd = sid
      /\ forallb (fun e => negb (isSent e)) slept = true
      /\ guarded [] (slept ++ Permitted sid ts :: Sent cmd :: rest) = true)
  /\ (exists resp w' cmd rest,
         ChatRouteCopy.POST env (Parsed j) w = (Returned resp, w')
         /\ trace w' = trace w ++ Sent cmd :: rest
         /\ sessionId cmd = sid
         /\ forallb (fun e => negb (isPermitted e)) (Sent cmd :: rest) = true
         /\ guarded [] (Sent cmd :: rest) = false).
Proof.
  intros Hj Hq sid.
  pose proof (attempts_at_least_one env None 2 (sends w)) as Hm.
  set (cmd := mkCommand (AGENT_ID env) (AGENT_ALIAS_ID env) sid
                (textOf (getProp j (lit "question")))).
  split.
  - destruct (ChatRoute_POST_valid env j w Hj Hq) as (ts & w' & Hrun & _ & Ht).
    cbn zeta in Hrun, Ht. fold sid in Hrun, Ht. fold cmd in Ht.
    destruct (loopTrace_first (expWait env) 1%nat cmd _ (draws w) Hm)
      as (rest & Hrest & _).
    eexists _, w', _, ts, cmd, rest.
    split; [exact Hrun |]. rewrite <- Hrest. split; [exact Ht |].
    split; [reflexivity |].
    assert (forall slept : list Effect,
               (slept = [] \/ exists ms, slept = [Slept ms]) ->
               forallb (fun e => negb (isSent e)) slept = true
               /\ guarded [] (slept ++ Permitted sid ts
                                :: loopTrace (expWait env) 1 cmd
                                     (snd (attemptsOutcome env None 3 (sends w)))
                                     0 (draws w)) = true) as Hsl.
    { intros slept [-> | [ms ->]]; (split; [reflexivity |]); simpl;
        apply loopTrace_guarded; left. }
    apply Hsl. destruct (0 <? _); eauto.
  - destruct (ChatRouteCopy_POST_valid env j w Hj Hq) as (w' & Hrun & _ & Ht).
    cbn zeta in Hrun, Ht. fold sid in Hrun, Ht. fold cmd in Ht.
    destruct (loopTrace_first linearWait 0%nat cmd _ (draws w) Hm)
      as (rest & Hrest & Hnp).
    eexists _, w', cmd, rest.
    split; [exact Hrun |]. rewrite <- Hrest. split; [exact Ht |].
    split; [reflexivity |]. rewrite Hrest. split; [exact Hnp | reflexivity].
Qed.

Lemma cadence_before_call_witness :
  exists resp w' slept ts cmd rest,
    ChatRoute.POST quietEnv (Parsed (ask (lit "hi") None)) (boot 0)
    = (Returned resp, w')
    /\ trace w' = trace (boot 0)
                  ++ slept ++ Permitted (uuid quietEnv 0) ts :: Sent cmd :: rest
    /\ sessionId cmd = uuid quietEnv 0
    /\ forallb (fun e => negb (isSent e)) slept = true
    /\ guarded [] (slept ++ Permitted (uuid quietEnv 0) ts :: Sent cmd :: rest)
       = true.
Proof.
  destruct (cadence_before_call quietEnv (ask (lit "hi") None) (boot 0)
              ltac:(discriminate) eq_refl) as [H _].
  exact H.
Defined.

(** ** Responses *)

Lemma orElse_spec (m : option jsstring) (d : jsstring) :
  (forall s, m = Some s -> s <> [] -> orElse m d = s)
  /\ (m = None \/ m = Some [] -> orElse m d = d).
Proof.
  split.
  - intros s -> Hs. destruct s; [congruence | reflexivity].
  - intros [-> | ->]; reflexivity.
Qed.

(** C9. A request that passes validation is answered from what the gateway
    comes to: when it returns a reply, with status 200 and a body of exactly
    [reply] and [sessionId], both strings; when it throws, with status 500
    and a body whose [error] is the failure's message if that is a
    non-empty string and the generic text otherwise. *)
Theorem handler_responses (env : Env) (j : Json) (w : World) :
  j <> JNull ->
  invalidQuestion (getProp j (lit "question")) = false ->
  let sid := chosenSession env (getProp j (lit "sessionId")) w in
  let question := textOf (getProp j (lit "question")) in
  (exists w1,
      effectiveSession env (getProp j (lit "sessionId")) w = (Returned sid, w1)
      /\ match gateway env (ChatRoute.enforceCadence env)
                 (fun c => ChatRoute.callBedrockWithRetry env c 2)
                 question sid w1 with
         | (Returned reply, w') =>
             ChatRoute.POST env (Parsed j) w
             = (Returned (mkHttp 200 (JObj [(lit "reply", JStr reply);
                                            (lit "sessionId", JStr sid)])), w')
         | (Threw t, w') =>
             exists text,
               ChatRoute.POST env (Parsed j) w
               = (Returned (mkHttp 500 (JObj [(lit "error", JStr text)])), w')
               /\ (forall m, messageOf t = Some m -> m <> [] -> text = m)
               /\ (messageOf t = None \/ messageOf t = Some [] ->
                   text = GENERIC_FAILURE)
         end)
  /\ fst (ChatRoute.POST env (Parsed j) w)
     = Returned
         (answer sid (gatewayResult (fst (attemptsOutcome env None 3 (sends w)))))
  /\ GENERIC_FAILURE
     = lit "Failed to contact the Finance Agent due to rate limiting or another error.".
Proof.
  intros Hj Hq sid question. split; [| split; [| reflexivity]].
  - destruct (handle_valid env (ChatRoute.enforceCadence env)
                (fun c => ChatRoute.callBedrockWithRetry env c 2) j w Hj Hq)
      as (w1 & Hsid & Hpost).
    exists w1. split; [exact Hsid |]. fold (ChatRoute.POST env) in Hpost.
    cbn zeta in Hpost. fold sid question in Hpost.
    destruct (gateway env _ _ question sid w1) as [[reply | t] w'];
      [exact Hpost |].
    eexists. split; [exact Hpost |]. apply orElse_spec.
  - destruct (ChatRoute_POST_valid env j w Hj Hq) as (ts & w' & Hrun & _).
    rewrite Hrun. reflexivity.
Qed.

Lemma handler_responses_witness :
  fst (ChatRoute.POST alwaysThrottled (Parsed (ask (lit "hi") None))
         (boot 1700000000000))
  = Returned (mkHttp 500 (JObj [(lit "error", JStr (lit "Rate exceeded"))])).
Proof.
  destruct (handler_responses alwaysThrottled (ask (lit "hi") None)
              (boot 1700000000000) ltac:(discriminate) eq_refl) as (_ & H & _).
  exact H.
Defined.

(** ** The ticker list *)

Lemma sub_positive (a b : JsNumber.t) :
  JsNumber.isNaN a = false -> JsNumber.isNaN b = false ->
  if JsNumber.positive (JsNumber.sub b a) then JsNumber.le a b
  else JsNumber.le b a.
Proof.
  destruct a as [| |x|], b as [| |y|]; simpl; try discriminate; auto.
  intros _ _. unfold Qle. destruct x as [xn xd], y as [yn yd]. simpl.
  destruct (Z.ltb_spec 0 (yn * Z.pos xd + - xn * Z.pos yd)); lia.
Qed.

Section TickerList.

Variable StringToNumber : jsstring -> JsNumber.t.
Variable ObjectToNumber : Json -> JsNumber.t.

#[local] Abbreviation quoteVolume :=
  (TopCrypto.quoteVolume StringToNumber ObjectToNumber).
#[local] Abbreviation byQuoteVolume :=
  (TopCrypto.byQuoteVolume StringToNumber ObjectToNumber).
#[local] Abbreviation numeric :=
  (TopCrypto.numeric StringToNumber ObjectToNumber).

Lemma insertBy_elem (x d : Json) (l : list Json) :
  d ∈ TopCrypto.insertBy byQuoteVolume x l <-> d = x \/ d ∈ l.
Proof.
  induction l as [|y l IH]; simpl.
  - rewrite list_elem_of_singleton, elem_of_nil. tauto.
  - destruct (JsNumber.positive _); rewrite !elem_of_cons; [rewrite IH |]; tauto.
Qed.

Lemma sort_elem (d : Json) (l : list Json) :
  d ∈ TopCrypto.Array_sort byQuoteVolume l <-> d ∈ l.
Proof.
  unfold TopCrypto.Array_sort. induction l as [|x l IH]; simpl; [tauto |].
  rewrite insertBy_elem, IH, elem_of_cons. tauto.
Qed.

Lemma sort_length (l : list Json) :
  length (TopCrypto.Array_sort byQuoteVolume l) = length l.
Proof.
  unfold TopCrypto.Array_sort. induction l as [|x l IH]; simpl; [reflexivity |].
  rewrite <- IH. generalize (foldr (TopCrypto.insertBy byQuoteVolume) [] l).
  clear. intros l. induction l as [|y l IH]; simpl; [reflexivity |].
  destruct (JsNumber.positive _); simpl; congruence.
Qed.

Lemma insertBy_nonincreasing (x : Json) (l : list Json) :
  numeric x -> Forall numeric l ->
  nonincreasing (List.map quoteVolume l) ->
  nonincreasing (List.map quoteVolume (TopCrypto.insertBy byQuoteVolume x l)).
Proof.
  intros Hx. induction l as [|y l IH]; intros Hl Hs; [exact I |].
  apply Forall_cons in Hl as [Hy Hl].
  pose proof (sub_positive _ _ Hx Hy) as Hxy.
  cbn [TopCrypto.insertBy]. unfold TopCrypto.byQuoteVolume at 1.
  destruct (JsNumber.positive _).
  - (* [x] goes behind [y] *)
    assert (nonincreasing (List.map quoteVolume l)) as Hs'.
    { destruct l; [exact I | apply Hs]. }
    specialize (IH Hl Hs').
    destruct l as [|z l]; cbn [TopCrypto.insertBy] in *.
    + simpl. auto.
    + unfold TopCrypto.byQuoteVolume at 1. unfold TopCrypto.byQuoteVolume at 1 in IH.
      destruct (JsNumber.positive _); simpl in *; tauto.
  - simpl. simpl in Hs. auto.
Qed.

Lemma sort_nonincreasing (l : list Json) :
  Forall numeric l ->
  nonincreasing (List.map quoteVolume (TopCrypto.Array_sort byQuoteVolume l)).
Proof.
  induction l as [|x l IH]; intros Hl; [exact I |].
  apply Forall_cons in Hl as [Hx Hl].
  change (TopCrypto.Array_sort byQuoteVolume (x :: l))
    with (TopCrypto.insertBy byQuoteVolume x (TopCrypto.Array_sort byQuoteVolume l)).
  apply insertBy_nonincreasing; [exact Hx | | exact (IH Hl)].
  apply Forall_forall. intros d Hd. apply (proj1 (sort_elem d l)) in Hd.
  rewrite Forall_forall in Hl. exact (Hl d Hd).
Qed.

Lemma take_nonincreasing (n : nat) (vs : list JsNumber.t) :
  nonincreasing vs -> nonincreasing (take n vs).
Proof.
  revert n. induction vs as [|a vs IH]; intros n Hs.
  - rewrite take_nil. exact I.
  - destruct n as [|n]; [exact I |].
    destruct vs as [|b vs]; [rewrite firstn_cons, take_nil; exact I |].
    destruct Hs as [Hab Hs]. specialize (IH n Hs).
    destruct n as [|n]; [exact I |].
    split; [exact Hab | exact IH].
Qed.

End TickerList.

Lemma usdtPair_listed (s : jsstring) : TopCrypto.usdtPair s = true <-> listed s.
Proof.
  unfold TopCrypto.usdtPair, listed.
  rewrite !andb_true_iff, !negb_true_iff, endsWith_spec.
  split.
  - intros [[[[He Hup] Hdown] Hbull] Hbear]. split; [exact He |].
    intros marker Hm Hin. apply includes_spec in Hin.
    repeat (apply elem_of_cons in Hm as [-> | Hm]; [congruence |]).
    destruct (not_elem_of_nil _ Hm).
  - intros [He Hno].
    assert (forall marker,
               marker ∈ [lit "UP"; lit "DOWN"; lit "BULL"; lit "BEAR"] ->
               JsString.includes s marker = false) as H.
    { intros marker Hm. destruct (JsString.includes s marker) eqn:E; [| reflexivity].
      apply includes_spec in E. destruct (Hno marker Hm E). }
    repeat split; [exact He | apply H ..]; repeat constructor.
Qed.

Lemma keep_run (d : Json) (w : World) :
  (exists t, TopCrypto.keep d w = (Threw t, w))
  \/ (exists s, getProp d (lit "symbol") = Some (JStr s)
                /\ TopCrypto.keep d w = (Returned (TopCrypto.usdtPair s), w)).
Proof.
  unfold TopCrypto.keep.
  destruct d; try (left; eexists; reflexivity);
    (destruct (getProp _ (lit "symbol")) as [[| | |s| |]|];
     try (left; eexists; reflexivity); right; eauto).
Qed.

Lemma filterKeep_run (items : list Json) (w : World) :
  (exists t, TopCrypto.filterKeep items w = (Threw t, w))
  \/ (exists kept,
         TopCrypto.filterKeep items w = (Returned kept, w)
         /\ Forall (fun d => d ∈ items
                             /\ exists s, getProp d (lit "symbol") = Some (JStr s)
                                          /\ listed s) kept).
Proof.
  induction items as [|d items IH]; simpl.
  - right. exists []. split; [reflexivity | constructor].
  - cbv beta delta [bind ret].
    destruct (keep_run d w) as [[t ->] | (s & Hs & ->)]; [left; eauto |].
    destruct IH as [[t ->] | (kept & -> & Hk)]; [left; eauto |].
    right.
    assert (Forall (fun d0 => d0 ∈ d :: items
                              /\ exists s0, getProp d0 (lit "symbol") = Some (JStr s0)
                                            /\ listed s0) kept) as Hk'.
    { eapply Forall_impl; [exact Hk |]. intros d0 [Hin H]. split; [| exact H].
      right. exact Hin. }
    destruct (TopCrypto.usdtPair s) eqn:E.
    + eexists. split; [reflexivity |]. constructor; [| exact Hk'].
      split; [left |]. exists s. split; [exact Hs |].
      apply usdtPair_listed. exact E.
    + eexists. split; [reflexivity | exact Hk'].
Qed.

Lemma coin_symbol StringToNumber ObjectToNumber (d : Json) (s : jsstring) :
  getProp d (lit "symbol") = Some (JStr s) ->
  getProp (TopCrypto.coin StringToNumber ObjectToNumber d) (lit "symbol")
  = Some (JStr s).
Proof. intros H. unfold TopCrypto.coin. rewrite H. reflexivity. Qed.

Lemma elem_of_take_list {A} (n : nat) (l : list A) (x : A) :
  x ∈ take n l -> x ∈ l.
Proof.
  intros H. rewrite <- (take_drop n l). apply elem_of_app. left. exact H.
Qed.

Lemma keep_hasSymbol (d : Json) (w : World) :
  hasSymbol d -> TopCrypto.keep d w = (Returned (eligible d), w).
Proof.
  intros [s Hs]. unfold TopCrypto.keep, eligible. rewrite Hs.
  destruct d; [discriminate | reflexivity ..].
Qed.

Lemma filterKeep_exact (items : list Json) (w : World) :
  (Forall hasSymbol items ->
   TopCrypto.filterKeep items w = (Returned (List.filter eligible items), w))
  /\ (~ Forall hasSymbol items ->
      exists t, TopCrypto.filterKeep items w = (Threw t, w)).
Proof.
  induction items as [|d items [IH1 IH2]].
  - split; [reflexivity |]. intros H. destruct H. constructor.
  - split.
    + intros [Hd Hitems]%Forall_cons. cbn [TopCrypto.filterKeep].
      cbv beta delta [bind ret]. rewrite (keep_hasSymbol d w Hd), (IH1 Hitems).
      simpl. destruct (eligible d); reflexivity.
    + intros Hn. cbn [TopCrypto.filterKeep]. cbv beta delta [bind ret].
      destruct (keep_run d w) as [[t ->] | (s & Hs & ->)]; [eauto |].
      destruct IH2 as [t ->]; [| eauto].
      intros Hitems. apply Hn. constructor; [exists s; exact Hs | exact Hitems].
Qed.

Lemma hasSymbol_dec (items : list Json) :
  Forall hasSymbol items \/ ~ Forall hasSymbol items.
Proof.
  induction items as [|d items [IH | IH]].
  - left. constructor.
  - destruct (getProp d (lit "symbol")) as [[| | |s| |]|] eqn:E;
      try (right; intros [[s' Hs'] _]%Forall_cons; congruence).
    left. constructor; [exists s; exact E | exact IH].
  - right. intros [_ H]%Forall_cons. contradiction.
Qed.

Lemma eligible_listed (d : Json) :
  eligible d = true ->
  exists s, getProp d (lit "symbol") = Some (JStr s) /\ listed s.
Proof.
  unfold eligible. destruct (getProp d (lit "symbol")) as [[| | |s| |]|];
    try discriminate.
  intros H. exists s. split; [reflexivity | apply usdtPair_listed; exact H].
Qed.

Lemma comparable_step (a b : Json) (rest : list Json) :
  comparable (a :: b :: rest)
  = sortable a && sortable b && comparable (b :: rest).
Proof.
  destruct rest as [|c rest]; simpl; destruct (sortable a), (sortable b); reflexivity.
Qed.

Section TickerCalls.

Variable StringToNumber : jsstring -> JsNumber.t.
Variable ObjectToNumber : Json -> JsNumber.t.

#[local] Abbreviation coin := (TopCrypto.coin StringToNumber ObjectToNumber).

Lemma ToNumber_run (v : JsValue) (w : World) :
  TopCrypto.ToNumber StringToNumber ObjectToNumber v w
  = if converts v
    then (Returned (TopCrypto.Number StringToNumber ObjectToNumber v), w)
    else (Threw (TypeError NOT_PRIMITIVE), w).
Proof.
  destruct v as [j|]; [| reflexivity].
  unfold TopCrypto.ToNumber, converts. destruct (unconvertible j); reflexivity.
Qed.

Lemma compare_run (a b : Json) (w : World) :
  TopCrypto.compare StringToNumber ObjectToNumber a b w
  = if sortable a && sortable b
    then (Returned (TopCrypto.byQuoteVolume StringToNumber ObjectToNumber a b), w)
    else (Threw (TypeError NOT_PRIMITIVE), w).
Proof.
  unfold TopCrypto.compare, bind, sortable. rewrite ToNumber_run.
  destruct (converts (TopCrypto.orNumber0 (getProp b _)));
    [| rewrite andb_false_r; reflexivity].
  rewrite ToNumber_run.
  destruct (converts (TopCrypto.orNumber0 (getProp a _))); reflexivity.
Qed.

Lemma comparisons_run (l : list Json) (w : World) :
  TopCrypto.comparisons StringToNumber ObjectToNumber l w
  = if comparable l then (Returned tt, w)
    else (Threw (TypeError NOT_PRIMITIVE), w).
Proof.
  induction l as [|a l IH]; [reflexivity |].
  destruct l as [|b rest]; [reflexivity |].
  rewrite comparable_step. cbn [TopCrypto.comparisons]. unfold bind at 1.
  rewrite compare_run.
  destruct (sortable a && sortable b); [exact IH | reflexivity].
Qed.

Lemma entry_run (d : Json) (w : World) :
  TopCrypto.entry StringToNumber ObjectToNumber d w
  = if mappable d then (Returned (coin d), w)
    else (Threw (TypeError NOT_PRIMITIVE), w).
Proof.
  unfold TopCrypto.entry, bind, mappable. rewrite ToNumber_run.
  destruct (converts (getProp d (lit "lastPrice"))); [| reflexivity].
  rewrite ToNumber_run.
  destruct (converts (getProp d (lit "priceChangePercent"))); [| reflexivity].
  rewrite ToNumber_run.
  destruct (converts (getProp d (lit "volume"))); reflexivity.
Qed.

Lemma mapEntry_run (l : list Json) (w : World) :
  TopCrypto.mapEntry StringToNumber ObjectToNumber l w
  = if forallb mappable l then (Returned (List.map coin l), w)
    else (Threw (TypeError NOT_PRIMITIVE), w).
Proof.
  induction l as [|d l IH]; [reflexivity |].
  cbn [TopCrypto.mapEntry forallb]. unfold bind at 1. rewrite entry_run.
  destruct (mappable d); [| reflexivity].
  unfold bind at 1. rewrite IH. destruct (forallb mappable l); reflexivity.
Qed.

Variable engineOrder : list Json -> list Json.

#[local] Abbreviation sorted :=
  (TopCrypto.sorted StringToNumber ObjectToNumber engineOrder).
#[local] Abbreviation GET :=
  (TopCrypto.GET StringToNumber ObjectToNumber engineOrder).

Lemma sort_run (l : list Json) (w : World) :
  TopCrypto.sort StringToNumber ObjectToNumber engineOrder l w
  = if comparable l then (Returned (sorted l), w)
    else (Threw (TypeError NOT_PRIMITIVE), w).
Proof.
  unfold TopCrypto.sort, bind. rewrite comparisons_run.
  destruct (comparable l); reflexivity.
Qed.

Lemma sorted_numeric (l : list Json) :
  Forall (TopCrypto.numeric StringToNumber ObjectToNumber) l ->
  sorted l
  = TopCrypto.Array_sort (TopCrypto.byQuoteVolume StringToNumber ObjectToNumber) l.
Proof.
  intros H. unfold TopCrypto.sorted.
  replace (forallb _ l) with true; [reflexivity |].
  symmetry. apply forallb_forall. intros d Hd.
  rewrite Forall_forall in H. specialize (H d (proj2 (list_elem_of_In _ _) Hd)).
  unfold TopCrypto.numeric in H. rewrite H. reflexivity.
Qed.

Lemma sorted_elem (d : Json) (l : list Json) :
  rearranges engineOrder -> d ∈ sorted l <-> d ∈ l.
Proof.
  intros He. unfold TopCrypto.sorted.
  destruct (forallb _ l); [apply sort_elem | rewrite (He l); reflexivity].
Qed.

(** The answer to an array whose elements all have a string [symbol]. *)
Lemma GET_tickers (items : list Json) (w : World) :
  Forall hasSymbol items ->
  let kept := List.filter eligible items in
  GET (TopCrypto.OkJson (JArr items)) w
  = (Returned
       (if comparable kept && forallb mappable (take 25 (sorted kept))
        then mkHttp 200 (JObj [(lit "coins", JArr (List.map coin (take 25 (sorted kept))))])
        else mkHttp 500
               (JObj [(lit "error", JStr (lit "Failed to fetch top crypto prices"));
                      (lit "detail", JStr (lit NOT_PRIMITIVE))])), w).
Proof.
  intros Hall kept. unfold TopCrypto.GET, tryCatch. unfold bind at 1.
  rewrite (proj1 (filterKeep_exact items w) Hall). fold kept.
  unfold bind at 1. rewrite sort_run.
  destruct (comparable kept); [| reflexivity].
  unfold bind at 1. rewrite mapEntry_run.
  destruct (forallb mappable _); reflexivity.
Qed.

(** The answer to an array with an element that has no string [symbol]. *)
Lemma GET_no_symbol (items : list Json) (w : World) :
  ~ Forall hasSymbol items ->
  exists t,
    GET (TopCrypto.OkJson (JArr items)) w
    = (Returned
         (mkHttp 500
            (JObj ((lit "error", JStr (lit "Failed to fetch top crypto prices"))
                   :: TopCrypto.member "detail" (JStr <$> messageOf t)))), w).
Proof.
  intros Hn. unfold TopCrypto.GET, tryCatch. unfold bind at 1.
  destruct (proj2 (filterKeep_exact items w) Hn) as [t ->].
  exists t. reflexivity.
Qed.

End TickerCalls.

Lemma nonincreasing_numbers (vs : list JsNumber.t) :
  (2 <= length vs)%nat -> nonincreasing vs ->
  Forall (fun v => JsNumber.isNaN v = false) vs.
Proof.
  induction vs as [|a vs IH]; [simpl; lia |].
  destruct vs as [|b vs]; [simpl; lia |].
  intros _ [Hba Hs].
  assert (JsNumber.isNaN a = false /\ JsNumber.isNaN b = false) as [Ha Hb].
  { destruct a, b; simpl in Hba; try contradiction; split; reflexivity. }
  constructor; [exact Ha |].
  destruct vs as [|c vs]; [repeat constructor; exact Hb |].
  apply IH; [simpl; lia | exact Hs].
Qed.

(** On three eligible tickers with quote volumes 1, 'abc' and 2 the handler
    answers 200 with the coins in that order, which is not an order of
    non-increasing quote volume; and whatever order the engine's sort leaves
    them in, the answer is 200 and the coins are not in such an order. *)
Lemma top_crypto_order_counterexample :
  fst (TopCrypto.GET sampleStringToNumber sampleObjectToNumber inPlace
         (TopCrypto.OkJson (JArr oddTickers)) (boot 0))
  = Returned
      (mkHttp 200
         (JObj [(lit "coins",
                 JArr (List.map
                         (TopCrypto.coin sampleStringToNumber sampleObjectToNumber)
                         oddTickers))]))
  /\ List.map (TopCrypto.quoteVolume sampleStringToNumber sampleObjectToNumber)
       oddTickers
     = [JsNumber.Finite (inject_Z 1); JsNumber.NaN; JsNumber.Finite (inject_Z 2)]
  /\ ~ nonincreasing
         (List.map (TopCrypto.quoteVolume sampleStringToNumber sampleObjectToNumber)
            oddTickers)
  /\ (forall engineOrder,
         rearranges engineOrder ->
         exists src,
           fst (TopCrypto.GET sampleStringToNumber sampleObjectToNumber engineOrder
                  (TopCrypto.OkJson (JArr oddTickers)) (boot 0))
           = Returned
               (mkHttp 200
                  (JObj [(lit "coins",
                          JArr (List.map
                                  (TopCrypto.coin sampleStringToNumber
                                     sampleObjectToNumber) src))]))
           /\ ~ nonincreasing
                  (List.map
                     (TopCrypto.quoteVolume sampleStringToNumber sampleObjectToNumber)
                     src)).
Proof.
  split; [vm_compute; reflexivity |]. split; [vm_compute; reflexivity |].
  split; [simpl; tauto |].
  intros engineOrder He. exists (engineOrder oddTickers).
  pose proof (He oddTickers) as Hp.
  split.
  - rewrite GET_tickers by (repeat constructor; eexists; reflexivity).
    change (List.filter eligible oddTickers) with oddTickers.
    change (TopCrypto.sorted sampleStringToNumber sampleObjectToNumber engineOrder
              oddTickers) with (engineOrder oddTickers).
    rewrite (take_ge (engineOrder oddTickers))
      by (rewrite (Permutation_length Hp); simpl; lia).
    replace (forallb mappable (engineOrder oddTickers)) with true; [reflexivity |].
    symmetry. apply forallb_forall. intros d Hd.
    apply list_elem_of_In in Hd. rewrite Hp in Hd.
    repeat (apply elem_of_cons in Hd as [-> | Hd]; [reflexivity |]).
    destruct (not_elem_of_nil _ Hd).
  - intros Hs.
    apply nonincreasing_numbers in Hs;
      [| rewrite length_map, (Permutation_length Hp); simpl; lia].
    rewrite Forall_forall in Hs.
    specialize (Hs JsNumber.NaN). simpl in Hs.
    assert (JsNumber.NaN
            ∈ List.map
                (TopCrypto.quoteVolume sampleStringToNumber sampleObjectToNumber)
                (engineOrder oddTickers)) as Hin; [| specialize (Hs Hin); discriminate].
    rewrite Hp. vm_compute. right. left.
Qed.

(** C10, amended.  However the upstream call settles, the run of the
    handler ends with a response.  When the status is 200, the upstream
    body was an array, and the [coins] of the response are the images of
    at most 25 of its tickers, each with a symbol that ends with
    "USDT" and contains none of "UP", "DOWN", "BULL", "BEAR", the same
    symbol as the entry shows; when the quote volume of every ticker that
    passes the filter converts to a number, each entry's ticker has a quote
    volume at least that of the next.  The engine's sort is taken to return
    the elements it was given. *)
Theorem top_crypto_coins
    (StringToNumber : jsstring -> JsNumber.t) (ObjectToNumber : Json -> JsNumber.t)
    (engineOrder : list Json -> list Json)
    (up : TopCrypto.Upstream) (w : World) :
  rearranges engineOrder ->
  exists resp,
    TopCrypto.GET StringToNumber ObjectToNumber engineOrder up w = (Returned resp, w)
    /\ (status resp = 200 ->
        exists items src,
          up = TopCrypto.OkJson (JArr items)
          /\ body resp
             = JObj [(lit "coins",
                      JArr (List.map (TopCrypto.coin StringToNumber ObjectToNumber)
                              src))]
          /\ (length src <= 25)%nat
          /\ Forall
               (fun d =>
                  d ∈ items
                  /\ exists s,
                       getProp d (lit "symbol") = Some (JStr s)
                       /\ getProp (TopCrypto.coin StringToNumber ObjectToNumber d)
                            (lit "symbol") = Some (JStr s)
                       /\ listed s)
               src
          /\ ((forall d, d ∈ items -> eligible d = true ->
                         TopCrypto.numeric StringToNumber ObjectToNumber d) ->
              nonincreasing
                (List.map (TopCrypto.quoteVolume StringToNumber ObjectToNumber)
                   src))).
Proof.
  intros He.
  destruct up as [e | text | e | e | data];
    try (eexists; split; [reflexivity | discriminate]).
  destruct data as [| | | | items |];
    try (eexists; split; [reflexivity | discriminate]).
  destruct (hasSymbol_dec items) as [Hall | Hn].
  2: { destruct (GET_no_symbol StringToNumber ObjectToNumber engineOrder items w Hn)
         as [t ->].
       eexists. split; [reflexivity | discriminate]. }
  rewrite (GET_tickers StringToNumber ObjectToNumber engineOrder items w Hall).
  cbn zeta. set (kept := List.filter eligible items).
  set (src := take 25 (TopCrypto.sorted StringToNumber ObjectToNumber engineOrder kept)).
  destruct (comparable kept && forallb mappable src);
    [| eexists; split; [reflexivity | discriminate]].
  eexists. split; [reflexivity |]. intros _.
  exists items, src. split; [reflexivity |]. split; [reflexivity |].
  split; [subst src; rewrite length_take; lia |].
  split.
  - apply Forall_forall. intros d Hd. subst src kept.
    apply elem_of_take_list in Hd. apply (proj1 (sorted_elem StringToNumber ObjectToNumber engineOrder d _ He)) in Hd.
    apply list_elem_of_In, filter_In in Hd as [Hin Hel].
    split; [apply list_elem_of_In; exact Hin |].
    destruct (eligible_listed d Hel) as (s & Hs & Hl).
    exists s. split; [exact Hs |].
    split; [apply coin_symbol; exact Hs | exact Hl].
  - intros Hnum.
    assert (Forall (TopCrypto.numeric StringToNumber ObjectToNumber) kept) as Hk.
    { apply Forall_forall. intros d Hd. subst kept.
      apply list_elem_of_In, filter_In in Hd as [Hin Hel].
      apply Hnum; [apply list_elem_of_In; exact Hin | exact Hel]. }
    subst src. rewrite (sorted_numeric _ _ _ _ Hk), <- firstn_map.
    apply take_nonincreasing, sort_nonincreasing. exact Hk.
Qed.

Lemma top_crypto_coins_witness :
  fst (TopCrypto.GET sampleStringToNumber sampleObjectToNumber inPlace
         (TopCrypto.OkJson (JArr sampleTickers)) (boot 0))
  = Returned
      (mkHttp 200
         (JObj [(lit "coins",
                 JArr (List.map
                         (TopCrypto.coin sampleStringToNumber sampleObjectToNumber)
                         [ticker "ETHUSDT" "500" "3100";
                          ticker "BTCUSDT" "300" "64000"]))]))
  /\ rearranges inPlace
  /\ (forall d, d ∈ sampleTickers -> eligible d = true ->
                TopCrypto.numeric sampleStringToNumber sampleObjectToNumber d)
  /\ exists src,
       (length src <= 25)%nat
       /\ Forall (fun d => exists s, getProp d (lit "symbol") = Some (JStr s)
                                    /\ listed s) src
       /\ nonincreasing
            (List.map
               (TopCrypto.quoteVolume sampleStringToNumber sampleObjectToNumber)
               src).
Proof.
  assert (rearranges inPlace) as He by (intros l; reflexivity).
  assert (forall d, d ∈ sampleTickers -> eligible d = true ->
                    TopCrypto.numeric sampleStringToNumber sampleObjectToNumber d)
    as Hnum.
  { intros d Hd _.
    repeat (apply elem_of_cons in Hd as [-> | Hd]; [reflexivity |]).
    destruct (not_elem_of_nil _ Hd). }
  split; [vm_compute; reflexivity |]. split; [exact He |]. split; [exact Hnum |].
  destruct (top_crypto_coins sampleStringToNumber sampleObjectToNumber inPlace
              (TopCrypto.OkJson (JArr sampleTickers)) (boot 0) He)
    as (resp & Hrun & Hok).
  assert (status resp = 200) as Hst.
  { vm_compute in Hrun. injection Hrun as <-. reflexivity. }
  destruct (Hok Hst) as (items & src & Hup & _ & Hlen & Hall & Hsorted).
  injection Hup as <-.
  exists src. split; [exact Hlen |]. split.
  - eapply Forall_impl; [exact Hall |].
    intros d (_ & s & Hs & _ & Hl). eauto.
  - apply Hsorted. exact Hnum.
Defined.

(** * Further properties *)

(** ** The retry loop and the module state *)

Lemma Quiet_refl (w : World) : Quiet w w.
Proof.
  repeat split. exists []. rewrite app_nil_r. split; reflexivity.
Qed.

Lemma Quiet_trans (w1 w2 w3 : World) : Quiet w1 w2 -> Quiet w2 w3 -> Quiet w1 w3.
Proof.
  intros (Hm & Hg & Hu & e1 & Ht & He) (Hm' & Hg' & Hu' & e2 & Ht' & He').
  split; [congruence |]. split; [congruence |]. split; [congruence |].
  exists (e1 ++ e2). rewrite Ht', Ht, <- app_assoc. split; [reflexivity |].
  rewrite forallb_app, He, He'. reflexivity.
Qed.

Lemma Quiet_send (env : Env) cmd (w : World) : Quiet w (snd (send env cmd w)).
Proof.
  unfold send. destruct (sendOutcome env (sends w)); simpl;
    (repeat split; exists [Sent cmd]; split; reflexivity).
Qed.

Lemma Quiet_sleep (env : Env) ms (w : World) : Quiet w (snd (sleep env ms w)).
Proof. simpl. repeat split. exists [Slept ms]. split; reflexivity. Qed.

Lemma Quiet_ChatRoute_backoff (env : Env) n (w : World) :
  Quiet w (snd (ChatRoute.backoff env n w)).
Proof.
  cbv [ChatRoute.backoff bind Math_random].
  eapply Quiet_trans; [| apply Quiet_sleep].
  repeat split. exists []. simpl. rewrite app_nil_r. split; reflexivity.
Qed.

Lemma Quiet_ChatRouteCopy_backoff (env : Env) n (w : World) :
  Quiet w (snd (ChatRouteCopy.backoff env n w)).
Proof. apply Quiet_sleep. Qed.

Lemma Quiet_retryLoop (env : Env) backoff cmd :
  (forall n w, Quiet w (snd (backoff n w))) ->
  forall remaining attempt lastError w,
    Quiet w (snd (retryLoop env backoff cmd remaining attempt lastError w)).
Proof.
  intros Hb. induction remaining as [|r IH]; intros attempt lastError w.
  - apply Quiet_refl.
  - assert (forall w1,
               Quiet w w1 ->
               Quiet w
                 (snd (match send env cmd w1 with
                       | (Returned a, w') => (Returned a, w')
                       | (Threw t, w') =>
                           match t with
                           | ThrownUndefined =>
                               throw (TypeError "Cannot read properties of undefined (reading 'name')")
                           | ThrownError e =>
                               if retryable e
                               then retryLoop env backoff cmd r (attempt + 1) (Some e)
                               else throw t
                           end w'
                       end))) as Hcall.
    { intros w1 Hturn. pose proof (Quiet_send env cmd w1) as Hsend.
      destruct (send env cmd w1) as [[resp | [|e]] w2]; simpl in Hsend |- *;
        try (eapply Quiet_trans; eassumption).
      destruct (retryable e); [| eapply Quiet_trans; eassumption].
      eapply Quiet_trans; [| apply IH]. eapply Quiet_trans; eassumption. }
    cbn [retryLoop]. unfold tryCatch, bind.
    destruct (0 <? attempt).
    + pose proof (Hb attempt w) as Hturn.
      destruct (backoff attempt w) as [[[] | t] w1]; simpl in Hturn.
      * apply Hcall. exact Hturn.
      * destruct t as [|e]; [exact Hturn |].
        destruct (retryable e); [| exact Hturn].
        eapply Quiet_trans; [exact Hturn | apply IH].
    + unfold ret at 1. apply Hcall. apply Quiet_refl.
Qed.

Lemma stamps_quiet sel (ext : list Effect) :
  forallb (fun e => negb (isPermitted e)) ext = true -> stamps sel ext = [].
Proof.
  induction ext as [|e ext IH]; [reflexivity |].
  simpl. intros [He Hext]%andb_true_iff.
  destruct e; simpl in *; auto. discriminate.
Qed.

Lemma Paced_Quiet (w w' : World) : Paced w -> Quiet w w' -> Paced w'.
Proof.
  intros [H1 H2 H3 H4] (Hm & Hg & _ & ext & Ht & He).
  assert (forall sel, stamps sel (trace w') = stamps sel (trace w)) as Hst.
  { intros sel. rewrite Ht, stamps_app, (stamps_quiet sel ext He), app_nil_r.
    reflexivity. }
  split; intros; rewrite ?Hst, ?Hm, ?Hg in *; auto.
Qed.

(** The world after the gateway's call is the world after
    [callBedrockWithRetry]: reading the stream has no effect of its own. *)
Lemma gateway_tail_world (call : InvokeAgentCommand -> M InvokeAgentResponse)
    (cmd : InvokeAgentCommand) (w : World) :
  snd ((let* response := call cmd in
        let* reply := readCompletion response in
        ret (orFallback reply))%js w)
  = snd (call cmd w).
Proof.
  unfold bind at 1. destruct (call cmd w) as [[r | t] w1]; [| reflexivity].
  rewrite readCompletion_run. reflexivity.
Qed.

Lemma Quiet_effectiveSession_pacing (env : Env) v (w : World) :
  let w1 := snd (effectiveSession env v w) in
  lastCallPerSession w1 = lastCallPerSession w
  /\ lastGlobalCall w1 = lastGlobalCall w
  /\ clock w1 = clock w
  /\ trace w1 = trace w.
Proof.
  destruct (effectiveSession_run env v w) as (w1 & -> & Hm & Hg & Hc & _ & _ & _ & Ht & _).
  simpl. auto.
Qed.

(** Every request is answered, whatever it is and whatever the platform
    does. *)
Lemma ChatRoute_POST_returns (env : Env) (req : Request) (w : World) :
  exists resp, fst (ChatRoute.POST env req w) = Returned resp.
Proof.
  unfold ChatRoute.POST, handle, tryCatch.
  match goal with |- context [match ?m w with _ => _ end] =>
    destruct (m w) as [[resp | t] w'] end; simpl; eauto.
Qed.

(** The world after a request.  A request that does not get past
    validation leaves the world as it was; a valid one goes through the
    limiter and the retry loop. *)
Lemma ChatRoute_POST_world (env : Env) (req : Request) (w : World) :
  snd (ChatRoute.POST env req w) = w
  \/ exists j w1 cmd,
       req = Parsed j /\ j <> JNull
       /\ invalidQuestion (getProp j (lit "question")) = false
       /\ w1 = snd (effectiveSession env (getProp j (lit "sessionId")) w)
       /\ sessionId cmd = chosenSession env (getProp j (lit "sessionId")) w
       /\ snd (ChatRoute.POST env req w)
          = snd (ChatRoute.callBedrockWithRetry env cmd 2
                   (snd (ChatRoute.enforceCadence env (sessionId cmd) w1))).
Proof.
  destruct req as [e | j]; [left; reflexivity |].
  assert (j = JNull \/ j <> JNull) as [-> | Hj]
    by (destruct j; [left; reflexivity | right; discriminate ..]);
    [left; reflexivity |].
  destruct (invalidQuestion (getProp j (lit "question"))) eqn:Hq.
  - left. unfold ChatRoute.POST. rewrite (handle_invalid _ _ _ _ _ Hj Hq).
    reflexivity.
  - right.
    destruct (handle_valid env (ChatRoute.enforceCadence env)
                (fun c => ChatRoute.callBedrockWithRetry env c 2) j w Hj Hq)
      as (w1 & Hsid & Hpost).
    cbn zeta in Hpost.
    set (sid := chosenSession env (getProp j (lit "sessionId")) w) in *.
    exists j, w1,
      (mkCommand (AGENT_ID env) (AGENT_ALIAS_ID env) sid
         (textOf (getProp j (lit "question")))).
    split; [reflexivity |]. split; [exact Hj |]. split; [exact Hq |].
    split; [rewrite Hsid; reflexivity |]. split; [reflexivity |].
    unfold ChatRoute.POST. rewrite Hpost. cbn [sessionId].
    assert (snd (gateway env (ChatRoute.enforceCadence env)
                   (fun c => ChatRoute.callBedrockWithRetry env c 2)
                   (textOf (getProp j (lit "question"))) sid w1)
            = snd (ChatRoute.callBedrockWithRetry env
                     (mkCommand (AGENT_ID env) (AGENT_ALIAS_ID env) sid
                        (textOf (getProp j (lit "question")))) 2
                     (snd (ChatRoute.enforceCadence env sid w1)))) as <-.
    { unfold gateway. unfold bind at 1. rewrite enforceCadence_run. cbn zeta.
      cbn [snd].
      apply (gateway_tail_world
               (fun c => ChatRoute.callBedrockWithRetry env c 2)). }
    destruct (gateway env _ _ _ sid w1) as [[reply | t] w']; reflexivity.
Qed.

Lemma Paced_ChatRoute_POST (env : Env) (req : Request) (w : World) :
  timersNotEarly env -> Paced w -> Paced (snd (ChatRoute.POST env req w)).
Proof.
  intros Hlate Hw.
  destruct (ChatRoute_POST_world env req w)
    as [-> | (j & w1 & cmd & _ & _ & _ & Hw1 & _ & ->)]; [exact Hw |].
  eapply Paced_Quiet.
  - apply Paced_enforceCadence; [exact Hlate |].
    destruct (Quiet_effectiveSession_pacing env (getProp j (lit "sessionId")) w)
      as (Hm & Hg & _ & Ht). rewrite <- Hw1 in Hm, Hg, Ht.
    destruct Hw as [H1 H2 H3 H4].
    split; intros; rewrite ?Ht, ?Hm, ?Hg in *; auto.
  - apply Quiet_retryLoop. apply Quiet_ChatRoute_backoff.
Qed.

Lemma attempts_at_most (env : Env) (remaining : nat) :
  forall lastError s,
    (snd (attemptsOutcome env lastError remaining s) <= remaining)%nat.
Proof.
  induction remaining as [|r IH]; intros lastError s; simpl; [lia |].
  destruct (sendOutcome env s) as [resp | e]; simpl; [lia |].
  destruct (retryable e); simpl; [| lia].
  specialize (IH (Some e) (S s)).
  destruct (attemptsOutcome env (Some e) r (S s)). simpl in *. lia.
Qed.

Lemma calls_app (a b : list Effect) : calls (a ++ b) = calls a ++ calls b.
Proof. unfold calls. apply omap_app. Qed.

Lemma calls_loopTrace wait per cmd (m : nat) (a : Z) (d : nat) :
  calls (loopTrace wait per cmd m a d) = replicate m cmd.
Proof.
  revert a d. induction m as [|m IH]; intros a d; [reflexivity |].
  simpl. rewrite calls_app. destruct (0 <? a); simpl; rewrite IH; reflexivity.
Qed.

(** X1.  Whatever the agent answers, a run of [callBedrockWithRetry] with
    [maxRetries >= 0] makes at least one and at most [maxRetries + 1]
    outbound calls, all of them with the command it was given, and leaves
    the limiter's variables and the identifier counter as they were.  This
    holds for both copies of the function. *)
Theorem retry_is_bounded
    (env : Env) (cmd : InvokeAgentCommand) (maxRetries : Z) (w : World) :
  0 <= maxRetries ->
  (let w' := snd (ChatRoute.callBedrockWithRetry env cmd maxRetries w) in
   exists m ext,
     (1 <= m)%nat /\ Z.of_nat m <= maxRetries + 1
     /\ sends w' = (sends w + m)%nat
     /\ trace w' = trace w ++ ext
     /\ calls ext = replicate m cmd
     /\ Quiet w w')
  /\ (let w' := snd (ChatRouteCopy.callBedrockWithRetry env cmd maxRetries w) in
      exists m ext,
        (1 <= m)%nat /\ Z.of_nat m <= maxRetries + 1
        /\ sends w' = (sends w + m)%nat
        /\ trace w' = trace w ++ ext
        /\ calls ext = replicate m cmd
        /\ Quiet w w').
Proof.
  intros H0.
  pose proof (attempts_at_most env (Z.to_nat (maxRetries + 1)) None (sends w)) as Hle.
  assert (1 <= snd (attemptsOutcome env None (Z.to_nat (maxRetries + 1)) (sends w)))%nat
    as Hge.
  { rewrite (turns_of_maxRetries _ H0). apply attempts_at_least_one. }
  split; cbn zeta.
  - destruct (ChatRoute_call_run env cmd maxRetries w) as (w' & Hrun & Hs & Ht).
    pose proof (Quiet_retryLoop env (ChatRoute.backoff env) cmd
                  (Quiet_ChatRoute_backoff env)
                  (Z.to_nat (maxRetries + 1)) 0 None w) as Hq.
    fold (ChatRoute.callBedrockWithRetry env cmd maxRetries) in Hq.
    rewrite Hrun in Hq |- *. cbn [snd] in *.
    eexists _, _. split; [exact Hge |]. split; [lia |]. split; [exact Hs |].
    split; [exact Ht |]. split; [apply calls_loopTrace | exact Hq].
  - destruct (ChatRouteCopy_call_run env cmd maxRetries w) as (w' & Hrun & Hs & Ht).
    pose proof (Quiet_retryLoop env (ChatRouteCopy.backoff env) cmd
                  (Quiet_ChatRouteCopy_backoff env)
                  (Z.to_nat (maxRetries + 1)) 0 None w) as Hq.
    fold (ChatRouteCopy.callBedrockWithRetry env cmd maxRetries) in Hq.
    rewrite Hrun in Hq |- *. cbn [snd] in *.
    eexists _, _. split; [exact Hge |]. split; [lia |]. split; [exact Hs |].
    split; [exact Ht |]. split; [apply calls_loopTrace | exact Hq].
Qed.

Lemma retry_is_bounded_witness :
  exists m ext,
    (1 <= m)%nat /\ Z.of_nat m <= 2 + 1
    /\ sends (snd (ChatRoute.callBedrockWithRetry alwaysThrottled sampleCommand 2
                     (boot 0)))
       = (0 + m)%nat
    /\ trace (snd (ChatRoute.callBedrockWithRetry alwaysThrottled sampleCommand 2
                     (boot 0)))
       = [] ++ ext
    /\ calls ext = replicate m sampleCommand.
Proof.
  destruct (retry_is_bounded alwaysThrottled sampleCommand 2 (boot 0) ltac:(lia))
    as [(m & ext & H1 & H2 & H3 & H4 & H5 & _) _].
  exists m, ext. auto.
Defined.

(** ** Requests served one after the other *)

Lemma guarded_app (a b : list Effect) :
  forall seen,
    guarded seen a = true ->
    (forall seen', guarded seen' b = true) ->
    guarded seen (a ++ b) = true.
Proof.
  induction a as [|e a IH]; intros seen Ha Hb; [apply Hb |].
  destruct e; simpl in *.
  - apply IH; assumption.
  - apply andb_true_iff in Ha as [H1 H2]. rewrite H1. apply IH; assumption.
  - apply IH; assumption.
Qed.

Lemma ChatRoute_POST_ext (env : Env) (req : Request) (w : World) :
  exists ext,
    trace (snd (ChatRoute.POST env req w)) = trace w ++ ext
    /\ forall seen, guarded seen ext = true.
Proof.
  destruct (ChatRoute_POST_world env req w)
    as [-> | (j & w1 & cmd & -> & Hj & Hq & _)].
  - exists []. rewrite app_nil_r. split; reflexivity.
  - destruct (ChatRoute_POST_valid env j w Hj Hq) as (ts & w' & -> & _ & Ht).
    cbn zeta in Ht. cbn [snd]. eexists. split; [exact Ht |].
    intros seen. destruct (0 <? _); simpl; apply loopTrace_guarded; left.
Qed.

Lemma serve_run (env : Env) (reqs : list (Request * Z)) :
  timersNotEarly env ->
  forall w,
    Paced w ->
    exists resps ext,
      fst (serve env reqs w) = Returned resps
      /\ length resps = length reqs
      /\ Paced (snd (serve env reqs w))
      /\ trace (snd (serve env reqs w)) = trace w ++ ext
      /\ forall seen, guarded seen ext = true.
Proof.
  intros Hlate. induction reqs as [|[req idle] reqs IH]; intros w Hw.
  - exists [], []. simpl. rewrite app_nil_r. auto.
  - set (w0 := snd (elapse idle w)).
    assert (Paced w0) as Hw0 by (apply Paced_elapse; exact Hw).
    destruct (ChatRoute_POST_returns env req w0) as (resp & Hresp).
    pose proof (Paced_ChatRoute_POST env req w0 Hlate Hw0) as Hw1.
    destruct (ChatRoute_POST_ext env req w0) as (ext1 & Ht1 & Hg1).
    destruct (ChatRoute.POST env req w0) as [o w1] eqn:E1.
    cbn [fst snd] in *. subst o.
    destruct (IH w1 Hw1) as (resps & ext2 & Hr & Hlen & Hp & Ht2 & Hg2).
    destruct (serve env reqs w1) as [o w2] eqn:E2. cbn [fst snd] in *. subst o.
    assert (serve env ((req, idle) :: reqs) w = (Returned (resp :: resps), w2))
      as ->.
    { cbn [serve]. unfold bind.
      change (elapse idle w) with (Returned tt, w0). cbn iota.
      rewrite E1, E2. reflexivity. }
    exists (resp :: resps), (ext1 ++ ext2). cbn [fst snd].
    split; [reflexivity |]. split; [simpl; congruence |]. split; [exact Hp |].
    split; [rewrite Ht2, Ht1, <- app_assoc; reflexivity |].
    intros seen. apply guarded_app; auto.
Qed.

(** X2.  When timers do not fire early and the route with the limiter
    serves requests one after the other, then whatever the requests are and
    however the calls of the agent settle, by a result, a failure or a
    stream that breaks off: the timestamps recorded for one session are at
    least 2000 ms apart, those of all sessions together at least 800 ms
    apart, and every outbound call in the run comes after a permission
    recorded for its session.  This is a statement about what has happened by
    the end of such a run; that a run ends is not part of it, since a call
    that never settles keeps its request waiting. *)
Theorem served_requests_paced (env : Env) (reqs : list (Request * Z)) (w0 : World) :
  timersNotEarly env ->
  trace w0 = [] ->
  let run := serve env reqs w0 in
  (forall sid, spaced 2000 (stamps (session sid) (trace (snd run))))
  /\ spaced 800 (stamps anySession (trace (snd run)))
  /\ guarded [] (trace (snd run)) = true.
Proof.
  intros Hlate H0 run.
  destruct (serve_run env reqs Hlate w0 (Paced_boot w0 H0))
    as (resps & ext & Hr & Hlen & [H1 _ H3 _] & Ht & Hg).
  split; [exact H1 |]. split; [exact H3 |].
  subst run. rewrite Ht, H0. apply Hg.
Qed.

Lemma served_requests_paced_witness :
  stamps (session (lit "abc"))
    (trace (snd (serve quietEnv sampleRequests (boot 1700000000000))))
  = [1700000000000; 1700000002003]
  /\ spaced 2000
       (stamps (session (lit "abc"))
          (trace (snd (serve quietEnv sampleRequests (boot 1700000000000)))))
  /\ guarded []
       (trace (snd (serve quietEnv sampleRequests (boot 1700000000000))))
     = true.
Proof.
  split; [vm_compute; reflexivity |].
  destruct (served_requests_paced quietEnv sampleRequests (boot 1700000000000)
              ltac:(intros i; simpl; lia) eq_refl) as (Hs & _ & Hg).
  split; [exact (Hs (lit "abc")) | exact Hg].
Defined.

(** ** How long the limiter makes a caller wait *)

Lemma Settled_enforceCadence (env : Env) (sid : jsstring) (w : World) :
  timersNotEarly env -> Settled w ->
  0 <= requiredWait w sid <= 2000
  /\ Settled (snd (ChatRoute.enforceCadence env sid w)).
Proof.
  intros Hlate (H0 & Hg & Hm).
  assert (0 <= requiredWait w sid <= 2000) as Hwait.
  { unfold requiredWait, sessionReadyAt, globalReadyAt.
    destruct (lastCallPerSession w !! sid) as [t|] eqn:E; simpl.
    - specialize (Hm sid t E). lia.
    - lia. }
  split; [exact Hwait |].
  rewrite enforceCadence_run. cbn zeta. cbn [snd].
  set (ts := if 0 <? requiredWait w sid then _ else _).
  assert (clock w <= ts) as Hts.
  { subst ts. destruct (Z.ltb_spec 0 (requiredWait w sid));
      [specialize (Hlate (sleeps w)) |]; lia. }
  split; [simpl; lia |]. split; [simpl; lia |].
  intros s t. simpl. rewrite lookup_insert.
  destruct (decide (sid = s)); [intros [= <-]; lia |].
  intros Ht. specialize (Hm s t Ht). lia.
Qed.

Lemma naps_app (a b : list Effect) : naps (a ++ b) = naps a ++ naps b.
Proof. unfold naps. apply omap_app. Qed.

Lemma serial_settled (env : Env) (cs : list (jsstring * Z)) :
  timersNotEarly env ->
  Forall (fun c => 0 <= snd c) cs ->
  forall w,
    Settled w ->
    Settled (snd (serial env cs w))
    /\ exists ext,
         trace (snd (serial env cs w)) = trace w ++ ext
         /\ Forall (fun ms => (0 < ms)%Q /\ (ms <= 2000)%Q) (naps ext).
Proof.
  intros Hlate Hidle. induction Hidle as [|[sid idle] cs Hi _ IH]; intros w Hw.
  - split; [exact Hw |]. exists []. rewrite app_nil_r. split; [reflexivity | constructor].
  - cbn [snd] in Hi.
    set (w0 := snd (elapse idle w)).
    assert (Settled w0) as Hw0.
    { destruct Hw as (H0 & Hg & Hm). split; [simpl; lia |].
      split; [simpl; lia |]. intros s t Ht. specialize (Hm s t Ht). simpl. lia. }
    destruct (Settled_enforceCadence env sid w0 Hlate Hw0) as (Hwait & Hw1).
    pose proof (enforceCadence_run env sid w0) as Hrun. cbn zeta in Hrun.
    assert (serial env ((sid, idle) :: cs) w
            = serial env cs (snd (ChatRoute.enforceCadence env sid w0))) as ->.
    { cbn [serial]. unfold bind. change (elapse idle w) with (Returned tt, w0).
      cbn iota. rewrite Hrun. reflexivity. }
    destruct (IH _ Hw1) as (Hs & ext & Ht & Hn). split; [exact Hs |].
    rewrite Ht, Hrun. cbn [snd trace].
    eexists. rewrite <- !app_assoc. split; [reflexivity |].
    rewrite naps_app. apply Forall_app. split; [| rewrite naps_app; simpl; exact Hn].
    destruct (Z.ltb_spec 0 (requiredWait w0 sid)); [| constructor].
    constructor; [| constructor].
    split.
    + change 0%Q with (inject_Z 0). rewrite <- Zlt_Qlt. assumption.
    + change 2000%Q with (inject_Z 2000). rewrite <- Zle_Qle. lia.
Qed.

(** X3.  When timers do not fire early, the clock is past the epoch and
    does not run backwards between calls, and the limiter is called one
    call after the other, no call is made to sleep for more than 2000 ms,
    and no stored timestamp ever lies ahead of the clock. *)
Theorem limiter_wait_bounded (env : Env) (cs : list (jsstring * Z)) (w0 : World) :
  timersNotEarly env ->
  Forall (fun c => 0 <= snd c) cs ->
  Settled w0 ->
  trace w0 = [] ->
  Forall (fun ms => (0 < ms)%Q /\ (ms <= 2000)%Q)
    (naps (trace (snd (serial env cs w0))))
  /\ Settled (snd (serial env cs w0)).
Proof.
  intros Hlate Hidle Hw0 H0.
  destruct (serial_settled env cs Hlate Hidle w0 Hw0) as (Hs & ext & Ht & Hn).
  split; [| exact Hs]. rewrite Ht, H0. exact Hn.
Qed.

Lemma limiter_wait_bounded_witness :
  naps (trace (snd (serial quietEnv sampleCalls (boot 1700000000000))))
  = [inject_Z 700; inject_Z 1147]
  /\ Forall (fun ms => (0 < ms)%Q /\ (ms <= 2000)%Q)
       (naps (trace (snd (serial quietEnv sampleCalls (boot 1700000000000))))).
Proof.
  split; [vm_compute; reflexivity |].
  destruct (limiter_wait_bounded quietEnv sampleCalls (boot 1700000000000))
    as [H _].
  - intros i. simpl. lia.
  - repeat constructor; simpl; lia.
  - split; [simpl; lia |]. split; [simpl; lia |].
    intros sid t. simpl. rewrite lookup_empty. discriminate.
  - reflexivity.
  - exact H.
Defined.

(** ** What the retries cost *)

Lemma expWait_increasing (env : Env) (n : Z) (d d' : nat) :
  drawsInRange env -> 1 <= n ->
  (expWait env n d < expWait env (n + 1) d')%Q.
Proof.
  intros Hr Hn. unfold expWait.
  destruct (Hr d) as [_ H1]. destruct (Hr d') as [H0 _].
  assert (500 * 2 ^ (n - 1) + 250 <= 500 * 2 ^ (n + 1 - 1)) as Hz.
  { replace (n + 1 - 1) with (Z.succ (n - 1)) by lia.
    rewrite Z.pow_succ_r by lia.
    assert (1 <= 2 ^ (n - 1)) by (apply Z.pow_le_mono_r with (b := 0); lia).
    lia. }
  rewrite Zle_Qle, inject_Z_plus in Hz.
  change (inject_Z 250) with 250%Q in Hz. lra.
Qed.

Lemma loopTrace_upto3 wait per cmd (m : nat) (d : nat) :
  (1 <= m <= 3)%nat ->
  naps (loopTrace wait per cmd m 0 d)
  = match m with
    | 1%nat => []
    | 2%nat => [wait 1 d]
    | _ => [wait 1 d; wait 2 (d + per)%nat]
    end.
Proof.
  intros Hm. destruct m as [|[|[|[|m]]]]; try lia; reflexivity.
Qed.

(** X4.  With the default [maxRetries = 2] and draws in [0, 1), the waits of
    one run of [callBedrockWithRetry] add up to at most 2000 ms in the
    route with the limiter, and to at most 900 ms in the second copy; in
    the route with the limiter the second wait of a run is longer than the
    first, jitter included.  (At most, not less than: computed in
    doubles, a draw next to 1 gives waits of exactly 750 and 1250 ms.) *)
Theorem backoff_budget (env : Env) (cmd : InvokeAgentCommand) (w : World) :
  drawsInRange env ->
  (exists ext,
      trace (snd (ChatRoute.callBedrockWithRetry env cmd 2 w)) = trace w ++ ext
      /\ (totalSlept ext <= 2000)%Q)
  /\ (exists ext,
         trace (snd (ChatRouteCopy.callBedrockWithRetry env cmd 2 w))
         = trace w ++ ext
         /\ (totalSlept ext <= 900)%Q)
  /\ (forall d d', (expWait env 1 d < expWait env 2 d')%Q).
Proof.
  intros Hr.
  pose proof (attempts_at_most env 3 None (sends w)) as Hle.
  pose proof (attempts_at_least_one env None 2 (sends w)) as Hge.
  split; [| split; [| intros d d';
                       apply (expWait_increasing env 1 d d' Hr); lia]].
  - destruct (ChatRoute_call_run env cmd 2 w) as (w' & -> & _ & Ht).
    cbn [snd]. eexists. split; [exact Ht |].
    change (Z.to_nat (2 + 1)) with 3%nat. unfold totalSlept.
    rewrite loopTrace_upto3 by lia.
    destruct (expWait_range env 1 (draws w) Hr) as (j1 & -> & H0 & H1).
    destruct (expWait_range env 2 (draws w + 1) Hr) as (j2 & -> & H2 & H3).
    change (500 * 2 ^ (1 - 1)) with 500. change (500 * 2 ^ (2 - 1)) with 1000.
    destruct (snd (attemptsOutcome env None 3 (sends w))) as [|[|[|[|m]]]];
      try lia; cbn [fold_right]; unfold inject_Z; lra.
  - destruct (ChatRouteCopy_call_run env cmd 2 w) as (w' & -> & _ & Ht).
    cbn [snd]. eexists. split; [exact Ht |].
    change (Z.to_nat (2 + 1)) with 3%nat. unfold totalSlept.
    rewrite loopTrace_upto3 by lia.
    destruct (snd (attemptsOutcome env None 3 (sends w))) as [|[|[|[|m]]]];
      try lia; discriminate.
Qed.

Lemma backoff_budget_witness :
  (exists ext,
      trace (snd (ChatRoute.callBedrockWithRetry alwaysThrottled sampleCommand 2
                    (boot 0))) = [] ++ ext
      /\ (totalSlept ext <= 2000)%Q)
  /\ totalSlept
       (trace (snd (ChatRoute.callBedrockWithRetry alwaysThrottled sampleCommand 2
                      (boot 0))))
     = (inject_Z 500 + (1 # 2) * 250 + (inject_Z 1000 + (1 # 2) * 250 + 0))%Q.
Proof.
  split; [| reflexivity].
  destruct (backoff_budget alwaysThrottled sampleCommand (boot 0)) as [H _].
  - intros i. simpl. split; reflexivity || discriminate.
  - exact H.
Defined.

(** ** Generated session identifiers *)

Lemma ChatRoute_POST_uuids (env : Env) (req : Request) (w : World) :
  (uuids w <= uuids (snd (ChatRoute.POST env req w)))%nat
  /\ (forall j,
         req = Parsed j -> j <> JNull ->
         invalidQuestion (getProp j (lit "question")) = false ->
         suppliedSession (getProp j (lit "sessionId")) = None ->
         uuids (snd (ChatRoute.POST env req w)) = S (uuids w)).
Proof.
  destruct (ChatRoute_POST_world env req w)
    as [Hw | (j & w1 & cmd & -> & Hj & Hq & Hw1 & _ & Hw)].
  - rewrite Hw. split; [lia |]. intros j -> Hj Hq _.
    destruct (ChatRoute_POST_valid env j w Hj Hq) as (ts & w' & Hrun & Hs & Ht).
    rewrite Hrun in Hw. cbn [snd] in Hw. subst w'. exfalso.
    apply (f_equal (@length Effect)) in Ht. rewrite length_app in Ht.
    destruct (0 <? _); simpl in Ht; lia.
  - pose proof (Quiet_retryLoop env (ChatRoute.backoff env) cmd
                  (Quiet_ChatRoute_backoff env) (Z.to_nat (2 + 1)) 0 None
                  (snd (ChatRoute.enforceCadence env (sessionId cmd) w1)))
      as (_ & _ & Hu & _).
    fold (ChatRoute.callBedrockWithRetry env cmd 2) in Hu.
    rewrite <- Hw in Hu. rewrite Hu, enforceCadence_run. cbn zeta. cbn [snd uuids].
    destruct (effectiveSession_run env (getProp j (lit "sessionId")) w)
      as (w1' & Hrun & _ & _ & _ & _ & _ & _ & _ & Huu).
    rewrite Hrun in Hw1. cbn [snd] in Hw1. subst w1'. rewrite Huu.
    split.
    + destruct (suppliedSession _); lia.
    + intros j' [= <-] _ _ ->. reflexivity.
Qed.

Lemma serve_uuids (env : Env) (reqs : list (Request * Z)) :
  forall w, (uuids w <= uuids (snd (serve env reqs w)))%nat.
Proof.
  induction reqs as [|[req idle] reqs IH]; intros w; [simpl; lia |].
  set (w0 := snd (elapse idle w)).
  destruct (ChatRoute_POST_returns env req w0) as (resp & Hresp).
  pose proof (proj1 (ChatRoute_POST_uuids env req w0)) as H1.
  destruct (ChatRoute.POST env req w0) as [o w1] eqn:E1.
  cbn [fst snd] in *. subst o. specialize (IH w1).
  assert (snd (serve env ((req, idle) :: reqs) w) = snd (serve env reqs w1)) as ->.
  { cbn [serve]. unfold bind.
    change (elapse idle w) with (Returned tt, w0). cbn iota. rewrite E1.
    destruct (serve env reqs w1) as [[resps | t] w2]; reflexivity. }
  simpl in H1. lia.
Qed.

(** X5.  When [crypto.randomUUID()] never repeats itself, two valid requests
    that bring no usable session identifier are given different ones,
    whatever was served between them. *)
Theorem generated_ids_distinct
    (env : Env) (j1 j2 : Json) (between : list (Request * Z)) (w : World) :
  uuidsDistinct env ->
  j1 <> JNull -> invalidQuestion (getProp j1 (lit "question")) = false ->
  suppliedSession (getProp j1 (lit "sessionId")) = None ->
  j2 <> JNull -> invalidQuestion (getProp j2 (lit "question")) = false ->
  suppliedSession (getProp j2 (lit "sessionId")) = None ->
  let w1 := snd (ChatRoute.POST env (Parsed j1) w) in
  let w2 := snd (serve env between w1) in
  chosenSession env (getProp j1 (lit "sessionId")) w
  <> chosenSession env (getProp j2 (lit "sessionId")) w2.
Proof.
  intros Hinj Hj1 Hq1 Hs1 Hj2 Hq2 Hs2 w1 w2.
  unfold chosenSession. rewrite Hs1, Hs2. simpl. intros H. apply Hinj in H.
  pose proof (proj2 (ChatRoute_POST_uuids env (Parsed j1) w) j1 eq_refl Hj1 Hq1 Hs1)
    as Hu1.
  pose proof (serve_uuids env between w1) as Hu2.
  subst w1 w2. lia.
Qed.

Lemma generated_ids_distinct_witness :
  uuidsDistinct countingEnv
  /\ chosenSession countingEnv
       (getProp (ask (lit "hi") None) (lit "sessionId")) (boot 1700000000000)
     <> chosenSession countingEnv
          (getProp (ask (lit "hi") (Some (JStr (lit " ")))) (lit "sessionId"))
          (snd (serve countingEnv sampleRequests
                  (snd (ChatRoute.POST countingEnv (Parsed (ask (lit "hi") None))
                          (boot 1700000000000))))).
Proof.
  assert (uuidsDistinct countingEnv) as Hinj.
  { intros i j H. simpl in H. injection H as H. lia. }
  split; [exact Hinj |].
  apply (generated_ids_distinct countingEnv (ask (lit "hi") None)
           (ask (lit "hi") (Some (JStr (lit " ")))) sampleRequests
           (boot 1700000000000) Hinj);
    first [discriminate | reflexivity].
Defined.

(** ** Failures that are not retried *)

(** X6.  Once a call has been answered, nothing that happens to the stream
    is retried: when [k <= 2] throttling failures are followed by an answer
    whose stream breaks off with a failure [e], either copy of the handler
    responds 500 with [e]'s message (or the generic text) after exactly
    [k + 1] outbound calls, also when [e] itself is a throttling failure;
    the text decoded up to then is dropped. *)
Theorem stream_failure_not_retried
    (env : Env) (j : Json) (w : World) (k : nat) (r : InvokeAgentResponse)
    (c : Completion) (e : JsError) :
  j <> JNull ->
  invalidQuestion (getProp j (lit "question")) = false ->
  (k <= 2)%nat ->
  (forall i, (i < k)%nat ->
     exists e', sendOutcome env (sends w + i) = Rejected e' /\ retryable e' = true) ->
  sendOutcome env (sends w + k) = Resolved r ->
  completion r = Some c -> failure c = Some e ->
  let failed :=
    mkHttp 500 (JObj [(lit "error", JStr (orElse (message e) GENERIC_FAILURE))]) in
  (exists w', ChatRoute.POST env (Parsed j) w = (Returned failed, w')
              /\ sends w' = (sends w + (k + 1))%nat)
  /\ (exists w', ChatRouteCopy.POST env (Parsed j) w = (Returned failed, w')
                 /\ sends w' = (sends w + (k + 1))%nat).
Proof.
  intros Hj Hq Hk Hfail Hok Hc He failed.
  assert (attemptsOutcome env None 3 (sends w) = (Returned r, S k)) as Ho.
  { apply attempts_throttled_then_resolved; [lia | exact Hfail | exact Hok]. }
  assert (gatewayResult (Returned r) = Threw (ThrownError e)) as Hg.
  { unfold gatewayResult. rewrite Hc. simpl. rewrite He. reflexivity. }
  split.
  - destruct (ChatRoute_POST_valid env j w Hj Hq) as (ts & w' & Hrun & Hs & _).
    cbn zeta in Hrun, Hs. rewrite Ho in Hrun, Hs. cbn [fst snd] in Hrun, Hs.
    rewrite Hg in Hrun. exists w'. split; [exact Hrun | lia].
  - destruct (ChatRouteCopy_POST_valid env j w Hj Hq) as (w' & Hrun & Hs & _).
    cbn zeta in Hrun, Hs. rewrite Ho in Hrun, Hs. cbn [fst snd] in Hrun, Hs.
    rewrite Hg in Hrun. exists w'. split; [exact Hrun | lia].
Qed.

Lemma stream_failure_not_retried_witness :
  retryable throttled = true
  /\ exists w',
       ChatRoute.POST breaksOff (Parsed (ask (lit "hi") None)) (boot 1700000000000)
       = (Returned (mkHttp 500 (JObj [(lit "error", JStr (lit "Rate exceeded"))])),
          w')
       /\ sends w' = 2%nat.
Proof.
  split; [reflexivity |].
  destruct (stream_failure_not_retried breaksOff (ask (lit "hi") None)
              (boot 1700000000000) 1 brokenStream
              (mkCompletion [textChunk "He"] (Some throttled)) throttled)
    as [H _]; try reflexivity; try discriminate; try lia.
  - intros i Hi. exists throttled. destruct i; [split; reflexivity | lia].
  - exact H.
Defined.

(** ** Requests that never reach the agent *)

Lemma handle_status (env : Env) acquire call (req : Request) (w : World) :
  exists resp w',
    handle env acquire call req w = (Returned resp, w')
    /\ (status resp = 200 \/ status resp = 400 \/ status resp = 500).
Proof.
  unfold handle, tryCatch.
  match goal with |- context [match ?m w with _ => _ end] =>
    destruct (m w) as [[resp | t] w'] eqn:E end.
  - eexists _, _. split; [reflexivity |].
    revert E. unfold bind.
    destruct req as [e | j]; [discriminate |]. unfold ret at 1.
    destruct (destructure j w) as [[qs | t] w0]; [| discriminate].
    destruct (invalidQuestion (fst qs)); [intros [= <- _]; simpl; auto |].
    destruct (effectiveSession env (snd qs) w0) as [[sid | t] w1]; [| discriminate].
    destruct (gateway env acquire call _ sid w1) as [[reply | t] w2];
      [| discriminate].
    intros [= <- _]. simpl. auto.
  - eexists _, _. split; [reflexivity |]. simpl. auto.
Qed.

(** X7.  No failure leaves either copy of the handler: however the body
    parser, the agent's call and its stream settle, a run that ends does not
    end by throwing but with a response, whose status is 200, 400 or 500.
    (That a run ends is not part of this: a call that never settles keeps
    the request waiting.)  A body that is not JSON is answered 500 with the
    parser's message (or the generic text), a body of [null] is answered
    500 with the engine's message; in both cases nothing else happens: no
    permission recorded, no identifier generated, no outbound call. *)
Theorem no_failure_leaves_handler (env : Env) (w : World) :
  (forall req out w',
      ChatRoute.POST env req w = (out, w')
      \/ ChatRouteCopy.POST env req w = (out, w') ->
      exists resp,
        out = Returned resp
        /\ (status resp = 200 \/ status resp = 400 \/ status resp = 500))
  /\ (forall e,
         let failed :=
           mkHttp 500
             (JObj [(lit "error", JStr (orElse (message e) GENERIC_FAILURE))]) in
         ChatRoute.POST env (Unparsable e) w = (Returned failed, w)
         /\ ChatRouteCopy.POST env (Unparsable e) w = (Returned failed, w))
  /\ (let failed :=
        mkHttp 500
          (JObj [(lit "error",
                  JStr (lit "Cannot destructure property 'question' of 'body' as it is null."))]) in
      ChatRoute.POST env (Parsed JNull) w = (Returned failed, w)
      /\ ChatRouteCopy.POST env (Parsed JNull) w = (Returned failed, w)).
Proof.
  split.
  - intros req out w' H.
    assert (exists resp w1,
               (out, w') = (Returned resp, w1)
               /\ (status resp = 200 \/ status resp = 400 \/ status resp = 500))
      as (resp & w1 & [= -> _] & Hst)
      by (destruct H as [<- | <-]; apply handle_status).
    eauto.
  - split; [intros e; split; reflexivity | split; reflexivity].
Qed.

Lemma no_failure_leaves_handler_witness :
  exists resp,
    fst (ChatRoute.POST quietEnv (Parsed (ask (lit "hi") None)) (boot 0))
    = Returned resp
    /\ (status resp = 200 \/ status resp = 400 \/ status resp = 500).
Proof.
  destruct (no_failure_leaves_handler quietEnv (boot 0)) as [H _].
  destruct (ChatRoute.POST quietEnv (Parsed (ask (lit "hi") None)) (boot 0))
    as [out w'] eqn:E.
  destruct (H _ out w' (or_introl E)) as (resp & -> & Hst).
  exists resp. split; [reflexivity | exact Hst].
Defined.

(** ** Who writes the pacing variables *)




(** ** The reply and the bytes it came from *)

Lemma codePoints_ascii (bs : list Byte.byte) :
  ascii bs ->
  TextDecoder.codePoints bs 0%N O 128%N 191%N = List.map Byte.to_N bs.
Proof.
  induction 1 as [|b bs Hb _ IH]; [reflexivity |].
  cbn [TextDecoder.codePoints List.map]. unfold TextDecoder.lead.
  destruct (N.leb_spec (Byte.to_N b) 127); [| lia].
  rewrite IH. reflexivity.
Qed.

Lemma decode_ascii_bytes (bs : list Byte.byte) :
  ascii bs -> TextDecoder.decode bs = List.map Byte.to_N bs.
Proof.
  intros Hb. unfold TextDecoder.decode. rewrite (codePoints_ascii bs Hb).
  assert (TextDecoder.stripBOM (List.map Byte.to_N bs) = List.map Byte.to_N bs)
    as ->.
  { destruct Hb as [|b bs Hb _]; [reflexivity |]. simpl.
    destruct (N.eqb_spec (Byte.to_N b) 65279); [lia | reflexivity]. }
  induction Hb as [|b bs Hb _ IH]; [reflexivity |].
  simpl. rewrite IH. unfold TextDecoder.codeUnits.
  destruct (N.ltb_spec (Byte.to_N b) 65536); [reflexivity | lia].
Qed.

(** X9.  When every byte the agent streams is ASCII, the text the loop
    builds is those bytes, one code unit each, in arrival order: how the
    agent cuts the stream into chunks makes no difference. *)
Theorem ascii_reply_is_its_bytes (evs : list StreamEvent) :
  Forall ascii (payloads evs) ->
  fold_left appendChunk evs [] = List.map Byte.to_N (concat (payloads evs))
  /\ (forall evs',
         Forall ascii (payloads evs') ->
         concat (payloads evs') = concat (payloads evs) ->
         fold_left appendChunk evs' [] = fold_left appendChunk evs []).
Proof.
  assert (forall l, Forall ascii (payloads l) ->
                    fold_left appendChunk l []
                    = List.map Byte.to_N (concat (payloads l))) as H.
  { intros l Hl. rewrite fold_appendChunk. simpl.
    induction Hl as [|bs ps Hbs _ IH]; [reflexivity |].
    simpl. rewrite map_app, IH, (decode_ascii_bytes bs Hbs). reflexivity. }
  intros Hevs. split; [apply H; exact Hevs |].
  intros evs' Hevs' Heq. rewrite (H evs Hevs), (H evs' Hevs'), Heq. reflexivity.
Qed.

Lemma ascii_reply_is_its_bytes_witness :
  fold_left appendChunk [textChunk "He"; mkEvent None; textChunk "llo"] []
  = fold_left appendChunk [textChunk "Hell"; textChunk "o"] [].
Proof.
  destruct (ascii_reply_is_its_bytes [textChunk "Hell"; textChunk "o"]) as [_ H].
  - repeat constructor.
  - apply H; [repeat constructor | reflexivity].
Defined.

Lemma codeUnits_length (c : N) :
  (1 <= length (TextDecoder.codeUnits c) <= 2)%nat.
Proof. unfold TextDecoder.codeUnits. destruct (c <? 65536)%N; simpl; lia. Qed.

Lemma lead_units (v : N) (k : N -> nat -> N -> N -> list N) (n : nat) :
  (forall cp lower upper,
      (length (flat_map TextDecoder.codeUnits (k cp O lower upper)) <= n)%nat) ->
  (forall cp p lower upper,
      (length (flat_map TextDecoder.codeUnits (k cp (S p) lower upper)) <= n + 1)%nat) ->
  (length (flat_map TextDecoder.codeUnits (TextDecoder.lead v k)) <= n + 1)%nat.
Proof.
  intros H0 H1. unfold TextDecoder.lead.
  destruct (N.leb_spec v 127).
  - cbn [flat_map]. rewrite length_app. specialize (H0 0%N 128%N 191%N).
    unfold TextDecoder.codeUnits at 1.
    destruct (N.ltb_spec v 65536); [simpl; lia | lia].
  - repeat match goal with
           | |- context [if ?b then _ else _] =>
               lazymatch b with
               | andb _ _ => destruct b
               end
           end; try apply H1.
    cbn [flat_map]. rewrite length_app. specialize (H0 0%N 128%N 191%N).
    simpl. lia.
Qed.

Lemma codePoints_units (bs : list Byte.byte) :
  forall cp pending lower upper,
    (length (flat_map TextDecoder.codeUnits
               (TextDecoder.codePoints bs cp pending lower upper))
     <= length bs + match pending with O => 0 | S _ => 1 end)%nat.
Proof.
  induction bs as [|b bs IH]; intros cp pending lower upper.
  - destruct pending; simpl; lia.
  - assert (forall cp0 lower0 upper0,
               (length (flat_map TextDecoder.codeUnits
                          (TextDecoder.codePoints bs cp0 O lower0 upper0))
                <= length bs)%nat) as H0.
    { intros. specialize (IH cp0 O lower0 upper0). simpl in IH. lia. }
    assert (forall cp0 p lower0 upper0,
               (length (flat_map TextDecoder.codeUnits
                          (TextDecoder.codePoints bs cp0 (S p) lower0 upper0))
                <= length bs + 1)%nat) as H1.
    { intros. apply (IH cp0 (S p) lower0 upper0). }
    pose proof (lead_units (Byte.to_N b) (TextDecoder.codePoints bs) (length bs)
                  H0 H1) as Hlead.
    cbn [TextDecoder.codePoints length]. destruct pending as [|p].
    + lia.
    + destruct (_ && _).
      * destruct p as [|p].
        -- cbn [flat_map]. rewrite length_app.
           pose proof (codeUnits_length (cp * 64 + N.land (Byte.to_N b) 63)).
           specialize (H0 0%N 128%N 191%N). lia.
        -- specialize (H1 (cp * 64 + N.land (Byte.to_N b) 63)%N p 128%N 191%N). lia.
      * cbn [flat_map]. rewrite length_app. simpl. lia.
Qed.

Lemma decode_length (bs : list Byte.byte) :
  (length (TextDecoder.decode bs) <= length bs)%nat.
Proof.
  unfold TextDecoder.decode.
  pose proof (codePoints_units bs 0%N O 128%N 191%N) as H.
  destruct (TextDecoder.codePoints bs 0%N O 128%N 191%N) as [|c cps];
    [simpl; lia |].
  simpl in *. destruct (c =? 65279)%N; simpl; rewrite ?length_app in *; lia.
Qed.

(** X10.  Whatever bytes arrive, well-formed UTF-8 or not, the text built
    from a stream has at most as many code units as the stream has payload
    bytes. *)
Theorem reply_no_longer_than_bytes (evs : list StreamEvent) :
  (length (fold_left appendChunk evs []) <= length (concat (payloads evs)))%nat.
Proof.
  rewrite fold_appendChunk. simpl.
  induction (payloads evs) as [|bs ps IH]; [simpl; lia |].
  simpl. rewrite !length_app. pose proof (decode_length bs). lia.
Qed.

(** ** The ticker list, exactly *)

Section TickerOrder.

Variable StringToNumber : jsstring -> JsNumber.t.
Variable ObjectToNumber : Json -> JsNumber.t.

#[local] Abbreviation qv := (TopCrypto.quoteVolume StringToNumber ObjectToNumber).
#[local] Abbreviation cmp := (TopCrypto.byQuoteVolume StringToNumber ObjectToNumber).

Lemma insertBy_Permutation (x : Json) (l : list Json) :
  Permutation (TopCrypto.insertBy cmp x l) (x :: l).
Proof.
  induction l as [|y l IH]; [reflexivity |].
  cbn [TopCrypto.insertBy]. destruct (JsNumber.positive _); [| reflexivity].
  rewrite IH. apply perm_swap.
Qed.

Lemma sort_Permutation (l : list Json) :
  Permutation (TopCrypto.Array_sort cmp l) l.
Proof.
  induction l as [|x l IH]; [reflexivity |].
  change (TopCrypto.Array_sort cmp (x :: l))
    with (TopCrypto.insertBy cmp x (TopCrypto.Array_sort cmp l)).
  rewrite insertBy_Permutation, IH. reflexivity.
Qed.





End TickerOrder.

Lemma sorted_Permutation StringToNumber ObjectToNumber engineOrder (l : list Json) :
  rearranges engineOrder ->
  Permutation (TopCrypto.sorted StringToNumber ObjectToNumber engineOrder l) l.
Proof.
  intros He. unfold TopCrypto.sorted.
  destruct (forallb _ l); [apply sort_Permutation | apply He].
Qed.

Lemma comparable_all (l : list Json) :
  Forall (fun d => sortable d = true /\ mappable d = true) l ->
  comparable l = true.
Proof.
  intros H. destruct l as [|a [|b l]]; [reflexivity .. |].
  unfold comparable. apply forallb_forall. intros d Hd.
  rewrite Forall_forall in H. apply (H d), list_elem_of_In. exact Hd.
Qed.

Lemma mappable_top StringToNumber ObjectToNumber engineOrder (l : list Json) :
  rearranges engineOrder ->
  Forall (fun d => sortable d = true /\ mappable d = true) l ->
  forallb mappable
    (take 25 (TopCrypto.sorted StringToNumber ObjectToNumber engineOrder l))
  = true.
Proof.
  intros He H. apply forallb_forall. intros d Hd.
  apply list_elem_of_In, elem_of_take_list in Hd.
  rewrite (sorted_Permutation _ _ _ l He) in Hd.
  rewrite Forall_forall in H. apply (H d Hd).
Qed.

(** X11.  However the upstream call and the reading of its body settle,
    the run of the top-crypto handler ends with a response of status 200 or
    500 and leaves the process state as it was.  The status is 200 exactly
    when the upstream response was ok, its body parsed to an array, every
    element of the array has a string [symbol], and none of the conversions
    to a number throws: neither in the sort (which converts the quote
    volumes when two or more tickers are eligible) nor in building the 25
    entries.  That is so in particular when no eligible ticker carries, in a
    field the handler converts, an object or array that cannot be made a
    primitive; and it is not so when at most 25 tickers are eligible and one
    of them carries such a value in [lastPrice], [priceChangePercent] or
    [volume]: the answer is then 500 with the engine's message.  When the
    upstream response was not ok and its text could be read the answer is
    500 with that text as [detail]; in every other case it is 500 with the
    text ['Failed to fetch top crypto prices'].  The engine's sort is taken
    to return the elements it was given. *)
Theorem top_crypto_answers
    (StringToNumber : jsstring -> JsNumber.t) (ObjectToNumber : Json -> JsNumber.t)
    (engineOrder : list Json -> list Json)
    (up : TopCrypto.Upstream) (w : World) :
  rearranges engineOrder ->
  exists resp,
    TopCrypto.GET StringToNumber ObjectToNumber engineOrder up w = (Returned resp, w)
    /\ (status resp = 200 \/ status resp = 500)
    /\ (status resp = 200
        <-> exists items,
              up = TopCrypto.OkJson (JArr items)
              /\ Forall hasSymbol items
              /\ comparable (List.filter eligible items) = true
              /\ forallb mappable
                   (take 25
                      (TopCrypto.sorted StringToNumber ObjectToNumber engineOrder
                         (List.filter eligible items))) = true)
    /\ (forall items,
           up = TopCrypto.OkJson (JArr items) ->
           Forall hasSymbol items ->
           Forall (fun d => sortable d = true /\ mappable d = true)
             (List.filter eligible items) ->
           status resp = 200)
    /\ (forall items d,
           up = TopCrypto.OkJson (JArr items) ->
           Forall hasSymbol items ->
           (length (List.filter eligible items) <= 25)%nat ->
           d ∈ List.filter eligible items ->
           mappable d = false ->
           resp = mkHttp 500
                    (JObj [(lit "error",
                            JStr (lit "Failed to fetch top crypto prices"));
                           (lit "detail", JStr (lit NOT_PRIMITIVE))]))
    /\ (forall text,
           up = TopCrypto.NotOk text ->
           resp = mkHttp 500
                    (JObj [(lit "error",
                            JStr (lit "Failed to fetch tickers from Binance"));
                           (lit "detail", JStr text)]))
    /\ (status resp = 500 -> (forall text, up <> TopCrypto.NotOk text) ->
        getProp (body resp) (lit "error")
        = Some (JStr (lit "Failed to fetch top crypto prices"))).
Proof.
  intros He.
  assert (forall resp : HttpResponse,
             status resp = 500 ->
             (forall items, up <> TopCrypto.OkJson (JArr items)) ->
             (status resp = 200 \/ status resp = 500)
             /\ (status resp = 200
                 <-> exists items,
                       up = TopCrypto.OkJson (JArr items)
                       /\ Forall hasSymbol items
                       /\ comparable (List.filter eligible items) = true
                       /\ forallb mappable
                            (take 25
                               (TopCrypto.sorted StringToNumber ObjectToNumber
                                  engineOrder (List.filter eligible items))) = true)
             /\ (forall items,
                    up = TopCrypto.OkJson (JArr items) ->
                    Forall hasSymbol items ->
                    Forall (fun d => sortable d = true /\ mappable d = true)
                      (List.filter eligible items) ->
                    status resp = 200)
             /\ (forall items d,
                    up = TopCrypto.OkJson (JArr items) ->
                    Forall hasSymbol items ->
                    (length (List.filter eligible items) <= 25)%nat ->
                    d ∈ List.filter eligible items ->
                    mappable d = false ->
                    resp = mkHttp 500
                             (JObj [(lit "error",
                                     JStr (lit "Failed to fetch top crypto prices"));
                                    (lit "detail", JStr (lit NOT_PRIMITIVE))])))
    as Hother.
  { intros resp H500 Hno. split; [auto |]. split; [split |]; [lia | |].
    - intros (items & H & _). destruct (Hno items H).
    - split; [intros items H | intros items d H]; destruct (Hno items H). }
  destruct up as [e | text | e | e | data].
  - eexists. split; [reflexivity |].
    destruct (Hother (mkHttp 500
                        (JObj ((lit "error",
                                JStr (lit "Failed to fetch top crypto prices"))
                               :: TopCrypto.member "detail"
                                    (JStr <$> messageOf (ThrownError e)))))
                eq_refl ltac:(discriminate)) as (H1 & H2 & H3 & H4).
    repeat (split; [assumption || discriminate |]).
    intros _ _. simpl. destruct (message e); reflexivity.
  - eexists. split; [reflexivity |].
    destruct (Hother (mkHttp 500
                        (JObj [(lit "error",
                                JStr (lit "Failed to fetch tickers from Binance"));
                               (lit "detail", JStr text)]))
                eq_refl ltac:(discriminate)) as (H1 & H2 & H3 & H4).
    repeat (split; [assumption |]).
    split; [intros t [= <-]; reflexivity |].
    intros _ H. destruct (H text). reflexivity.
  - eexists. split; [reflexivity |].
    destruct (Hother (mkHttp 500
                        (JObj ((lit "error",
                                JStr (lit "Failed to fetch top crypto prices"))
                               :: TopCrypto.member "detail"
                                    (JStr <$> messageOf (ThrownError e)))))
                eq_refl ltac:(discriminate)) as (H1 & H2 & H3 & H4).
    repeat (split; [assumption || discriminate |]).
    intros _ _. simpl. destruct (message e); reflexivity.
  - eexists. split; [reflexivity |].
    destruct (Hother (mkHttp 500
                        (JObj ((lit "error",
                                JStr (lit "Failed to fetch top crypto prices"))
                               :: TopCrypto.member "detail"
                                    (JStr <$> messageOf (ThrownError e)))))
                eq_refl ltac:(discriminate)) as (H1 & H2 & H3 & H4).
    repeat (split; [assumption || discriminate |]).
    intros _ _. simpl. destruct (message e); reflexivity.
  - destruct data as [| | | | items |];
      try (eexists; split; [reflexivity |];
           match goal with
           | |- context [status ?r = 200 \/ _] =>
               destruct (Hother r eq_refl ltac:(discriminate)) as (H1 & H2 & H3 & H4)
           end;
           repeat (split; [assumption || discriminate |]);
           intros _ _; reflexivity).
    clear Hother.
    destruct (hasSymbol_dec items) as [Hall | Hn].
    + rewrite (GET_tickers StringToNumber ObjectToNumber engineOrder items w Hall).
      cbn zeta. set (kept := List.filter eligible items).
      set (top := take 25 (TopCrypto.sorted StringToNumber ObjectToNumber
                             engineOrder kept)).
      destruct (comparable kept && forallb mappable top) eqn:E.
      * apply andb_true_iff in E as [Ec Em].
        eexists. split; [reflexivity |]. simpl. split; [auto |].
        split; [split; [intros _; exists items; auto | reflexivity] |].
        split; [reflexivity |].
        split; [| split; [discriminate | discriminate]].
        intros items' d [= <-] _ Hlen Hd Hm. exfalso.
        assert (mappable d = true); [| congruence].
        rewrite forallb_forall in Em. apply Em, list_elem_of_In.
        subst top. rewrite take_ge.
        -- rewrite (sorted_Permutation _ _ _ kept He). exact Hd.
        -- rewrite (Permutation_length (sorted_Permutation _ _ _ kept He)).
           exact Hlen.
      * eexists. split; [reflexivity |]. simpl. split; [auto |].
        split; [split; [discriminate |] |].
        { intros (items' & [= <-] & _ & Hc & Hm).
          fold kept in Hc, Hm. fold top in Hm. rewrite Hc, Hm in E. discriminate. }
        split.
        { intros items' [= <-] _ Hf. exfalso.
          rewrite (comparable_all kept Hf) in E.
          subst top. rewrite (mappable_top _ _ _ kept He Hf) in E. discriminate. }
        split; [reflexivity |]. split; [discriminate |]. reflexivity.
    + destruct (GET_no_symbol StringToNumber ObjectToNumber engineOrder items w Hn)
        as [t ->].
      eexists. split; [reflexivity |]. simpl. split; [auto |].
      split; [split; [discriminate |] |].
      { intros (items' & [= <-] & H & _). contradiction. }
      split; [intros items' [= <-] H; contradiction |].
      split; [intros items' d [= <-] H; contradiction |].
      split; [discriminate |].
      intros _ _. destruct (messageOf t); reflexivity.
Qed.

Lemma top_crypto_answers_witness :
  rearranges inPlace
  /\ fst (TopCrypto.GET sampleStringToNumber sampleObjectToNumber inPlace
            (TopCrypto.OkJson (JArr [ticker "BTCUSDT" "300" "64000"; opaqueTicker]))
            (boot 0))
     = Returned
         (mkHttp 500
            (JObj [(lit "error", JStr (lit "Failed to fetch top crypto prices"));
                   (lit "detail", JStr (lit NOT_PRIMITIVE))])).
Proof.
  assert (rearranges inPlace) as He by (intros l; reflexivity).
  split; [exact He |].
  destruct (top_crypto_answers sampleStringToNumber sampleObjectToNumber inPlace
              (TopCrypto.OkJson (JArr [ticker "BTCUSDT" "300" "64000"; opaqueTicker]))
              (boot 0) He) as (resp & Hrun & _ & _ & _ & H & _).
  rewrite Hrun. cbn [fst]. f_equal.
  apply (H _ opaqueTicker eq_refl).
  - repeat constructor; eexists; reflexivity.
  - simpl. lia.
  - apply list_elem_of_In. right. left. reflexivity.
  - reflexivity.
Defined.

(** X12.  When every upstream ticker has a string [symbol], no eligible
    ticker carries, in a field the handler converts, an object or array
    that cannot be made a primitive, and the engine's sort returns the
    elements it was given: the answer is 200, and its coins are the images
    of [src], the first 25 of the eligible tickers in the order in which the
    sort leaves them; together with the tickers cut off they are a
    rearrangement of the eligible tickers, so none is lost or repeated;
    their number is the smaller of 25 and the number of eligible tickers;
    when at most 25 are eligible, none is cut off; and when the quote
    volumes of the eligible tickers all convert to numbers, the order is
    that of the stable sort by quote volume. *)
Theorem top_crypto_selection
    (StringToNumber : jsstring -> JsNumber.t) (ObjectToNumber : Json -> JsNumber.t)
    (engineOrder : list Json -> list Json)
    (items : list Json) (w : World) :
  rearranges engineOrder ->
  Forall hasSymbol items ->
  Forall (fun d => sortable d = true /\ mappable d = true)
    (List.filter eligible items) ->
  let sorted :=
    TopCrypto.sorted StringToNumber ObjectToNumber engineOrder
      (List.filter eligible items) in
  let src := take 25 sorted in
  let cut := drop 25 sorted in
  TopCrypto.GET StringToNumber ObjectToNumber engineOrder
    (TopCrypto.OkJson (JArr items)) w
  = (Returned
       (mkHttp 200
          (JObj [(lit "coins",
                  JArr (List.map (TopCrypto.coin StringToNumber ObjectToNumber)
                          src))])), w)
  /\ Permutation (src ++ cut) (List.filter eligible items)
  /\ length src = Nat.min 25 (length (List.filter eligible items))
  /\ ((length (List.filter eligible items) <= 25)%nat -> cut = [])
  /\ (forall d, d ∈ src -> d ∈ items /\ eligible d = true)
  /\ (Forall (TopCrypto.numeric StringToNumber ObjectToNumber)
        (List.filter eligible items) ->
      sorted
      = TopCrypto.Array_sort
          (TopCrypto.byQuoteVolume StringToNumber ObjectToNumber)
          (List.filter eligible items)).
Proof.
  intros He Hall Hplain sorted src cut.
  assert (Permutation sorted (List.filter eligible items)) as Hperm
    by (apply sorted_Permutation; exact He).
  split; [| split; [| split; [| split; [| split]]]].
  - rewrite (GET_tickers StringToNumber ObjectToNumber engineOrder items w Hall).
    cbn zeta. rewrite (comparable_all _ Hplain).
    rewrite (mappable_top _ _ _ _ He Hplain). reflexivity.
  - subst src cut. rewrite take_drop. exact Hperm.
  - subst src. rewrite length_take, (Permutation_length Hperm). reflexivity.
  - intros Hle. subst cut. apply drop_ge.
    rewrite (Permutation_length Hperm). exact Hle.
  - intros d Hd. subst src. apply elem_of_take_list in Hd.
    rewrite Hperm in Hd. apply list_elem_of_In, filter_In in Hd as [Hin Hel].
    split; [apply list_elem_of_In; exact Hin | exact Hel].
  - intros Hnum. apply sorted_numeric. exact Hnum.
Qed.

Lemma top_crypto_selection_witness :
  fst (TopCrypto.GET sampleStringToNumber sampleObjectToNumber inPlace
         (TopCrypto.OkJson (JArr sampleTickers)) (boot 0))
  = Returned
      (mkHttp 200
         (JObj [(lit "coins",
                 JArr (List.map
                         (TopCrypto.coin sampleStringToNumber sampleObjectToNumber)
                         [ticker "ETHUSDT" "500" "3100";
                          ticker "BTCUSDT" "300" "64000"]))])).
Proof.
  destruct (top_crypto_selection sampleStringToNumber sampleObjectToNumber inPlace
              sampleTickers (boot 0)) as [H _].
  - intros l. reflexivity.
  - repeat constructor; eexists; reflexivity.
  - repeat constructor.
  - rewrite H. reflexivity.
Defined.



(** ** The crypto-history route *)

Section History.

Variable fetch : jsstring -> TopCrypto.Upstream.
Variable parseFloat : JsValue -> JsNumber.t.

Lemma callParseFloat_run (v : JsValue) (w : World) :
  CryptoHistory.callParseFloat parseFloat v w
  = if converts v then (Returned (parseFloat v), w)
    else (Threw (TypeError NOT_PRIMITIVE), w).
Proof.
  destruct v as [j|]; [| reflexivity].
  unfold CryptoHistory.callParseFloat, converts.
  destruct (unconvertible j); reflexivity.
Qed.

Lemma point_fields (c : Json) (w : World) :
  (readable c = true ->
   exists p,
     CryptoHistory.point parseFloat c w = (Returned p, w)
     /\ getProp p (lit "time") = CryptoHistory.index c 0
     /\ getProp p (lit "close") = Some (JNum (parseFloat (CryptoHistory.index c 4))))
  /\ (readable c = false ->
      exists t, CryptoHistory.point parseFloat c w = (Threw t, w)).
Proof.
  assert (c = JNull \/ c <> JNull) as [-> | Hc]
    by (destruct c; [left; reflexivity | right; discriminate ..]).
  { split; [discriminate | intros _; eexists; reflexivity]. }
  assert (readable c = converts (CryptoHistory.index c 4)) as ->
    by (destruct c; [congruence | reflexivity ..]).
  assert (CryptoHistory.point parseFloat c w
          = bind (CryptoHistory.callParseFloat parseFloat (CryptoHistory.index c 4))
              (fun close =>
                 ret (JObj (TopCrypto.member "time" (CryptoHistory.index c 0)
                            ++ [(lit "close", JNum close)]))) w) as ->
    by (destruct c; [congruence | reflexivity ..]).
  unfold bind. rewrite callParseFloat_run.
  destruct (converts (CryptoHistory.index c 4)).
  - split; [intros _ | discriminate].
    eexists. split; [reflexivity |].
    destruct (CryptoHistory.index c 0); split; reflexivity.
  - split; [discriminate | intros _; eexists; reflexivity].
Qed.

Lemma mapPoints_run (raw : list Json) (w : World) :
  (Forall (fun c => readable c = true) raw ->
   exists points,
     CryptoHistory.mapPoints parseFloat raw w = (Returned points, w)
     /\ Forall2
          (fun c p =>
             getProp p (lit "time") = CryptoHistory.index c 0
             /\ getProp p (lit "close")
                = Some (JNum (parseFloat (CryptoHistory.index c 4))))
          raw points)
  /\ (~ Forall (fun c => readable c = true) raw ->
      exists t, CryptoHistory.mapPoints parseFloat raw w = (Threw t, w)).
Proof.
  induction raw as [|c raw [IH1 IH2]].
  - split; [intros _; exists []; split; [reflexivity | constructor] |].
    intros H. destruct H. constructor.
  - cbn [CryptoHistory.mapPoints]. cbv beta delta [bind ret]. split.
    + intros [Hc Hraw]%Forall_cons.
      destruct (proj1 (point_fields c w) Hc) as (p & -> & Hp).
      destruct (IH1 Hraw) as (ps & -> & Hps).
      exists (p :: ps). split; [reflexivity | constructor; assumption].
    + intros Hn.
      destruct (readable c) eqn:Hc.
      * destruct (proj1 (point_fields c w) Hc) as (p & -> & _).
        destruct IH2 as [t ->]; [| eauto].
        intros Hraw. apply Hn. constructor; assumption.
      * destruct (proj2 (point_fields c w) Hc) as (t & ->). eauto.
Qed.

Lemma readable_dec (raw : list Json) :
  Forall (fun c => readable c = true) raw
  \/ ~ Forall (fun c => readable c = true) raw.
Proof.
  induction raw as [|c raw [IH | IH]].
  - left. constructor.
  - destruct (readable c) eqn:Hc; [left; constructor; assumption |].
    right. intros [H _]%Forall_cons. congruence.
  - right. intros [_ H]%Forall_cons. contradiction.
Qed.

(** X14.  However the upstream call and the reading of its body settle,
    the run of the crypto-history handler ends with a response of status
    200 or 500 and leaves the process state as it was.  The handler asks
    the exchange for the URL made of the caller's [symbol], [interval] and
    [limit] as they are, each replaced by its default ('BTCUSDT', '1h',
    '100') when missing or empty.  It answers 200 exactly when the
    exchange's response was ok and its body parsed to an array of which no
    element is [null] and no element has, as its element 4, an object or
    array that cannot be made a primitive; the body then echoes symbol and
    interval and carries one point per kline, in the same order, whose
    [time] is the kline's element 0 and whose [close] is [parseFloat] of
    its element 4.  A response that was not ok is answered 500, with the
    exchange's text as [detail] when the text could be read. *)
Theorem history_answers (query : list (jsstring * jsstring)) (w : World) :
  let url :=
    lit "https://api.binance.us/api/v3/klines?symbol="
    ++ orElse (CryptoHistory.searchParams_get query (lit "symbol")) (lit "BTCUSDT")
    ++ lit "&interval="
    ++ orElse (CryptoHistory.searchParams_get query (lit "interval")) (lit "1h")
    ++ lit "&limit="
    ++ orElse (CryptoHistory.searchParams_get query (lit "limit")) (lit "100") in
  exists resp,
    CryptoHistory.GET fetch parseFloat query w = (Returned resp, w)
    /\ (status resp = 200 \/ status resp = 500)
    /\ (status resp = 200
        <-> exists raw, fetch url = TopCrypto.OkJson (JArr raw)
                        /\ Forall (fun c => readable c = true) raw)
    /\ (forall raw,
           fetch url = TopCrypto.OkJson (JArr raw) ->
           Forall (fun c => readable c = true) raw ->
           exists points,
             resp = mkHttp 200
                      (JObj [(lit "symbol", JStr (CryptoHistory.symbolOf query));
                             (lit "interval", JStr (CryptoHistory.intervalOf query));
                             (lit "points", JArr points)])
             /\ length points = length raw
             /\ forall i c,
                  raw !! i = Some c ->
                  exists p,
                    points !! i = Some p
                    /\ getProp p (lit "time") = CryptoHistory.index c 0
                    /\ getProp p (lit "close")
                       = Some (JNum (parseFloat (CryptoHistory.index c 4))))
    /\ (forall text,
           fetch url = TopCrypto.NotOk text ->
           resp = mkHttp 500
                    (JObj [(lit "error",
                            JStr (lit "Failed to fetch history from Binance"));
                           (lit "detail", JStr text)]))
    /\ (forall e,
           fetch url = TopCrypto.NotOkUnread e ->
           resp = mkHttp 500
                    (JObj ((lit "error", JStr (lit "Internal server error"))
                           :: TopCrypto.member "detail" (JStr <$> message e)))).
Proof.
  intros url.
  assert (CryptoHistory.urlOf query = url) as Hurl.
  { unfold CryptoHistory.urlOf, CryptoHistory.BINANCE_KLINES_URL, url,
      CryptoHistory.symbolOf, CryptoHistory.intervalOf, CryptoHistory.limitOf.
    reflexivity. }
  unfold CryptoHistory.GET, tryCatch. cbn zeta. rewrite Hurl.
  destruct (fetch url) as [e | text | e | e | data] eqn:Hf.
  - eexists. split; [reflexivity |]. simpl. split; [auto |].
    split; [split; [discriminate | intros (raw & H & _); discriminate] |].
    repeat split; discriminate.
  - eexists. split; [reflexivity |]. simpl. split; [auto |].
    split; [split; [discriminate | intros (raw & H & _); discriminate] |].
    split; [discriminate |].
    split; [intros t [= <-]; reflexivity | discriminate].
  - eexists. split; [reflexivity |]. simpl. split; [auto |].
    split; [split; [discriminate | intros (raw & H & _); discriminate] |].
    split; [discriminate |]. split; [discriminate |].
    intros e' [= <-]. reflexivity.
  - eexists. split; [reflexivity |]. simpl. split; [auto |].
    split; [split; [discriminate | intros (raw & H & _); discriminate] |].
    repeat split; discriminate.
  - destruct data as [| | | | items |];
      try (eexists; split; [reflexivity |]; simpl; split; [auto |];
           split; [split; [discriminate | intros (raw & H & _); discriminate] |];
           repeat split; discriminate).
    cbv beta delta [bind ret].
    destruct (readable_dec items) as [Hall | Hn].
    + destruct (proj1 (mapPoints_run items w) Hall) as (points & -> & Hps).
      eexists. split; [reflexivity |]. simpl. split; [auto |].
      split; [split; [eauto | reflexivity] |].
      split; [| split; discriminate].
      intros raw [= <-] _. exists points. split; [reflexivity |].
      split; [symmetry; eapply Forall2_length; exact Hps |].
      intros i c Hc.
      destruct (Forall2_lookup_l _ _ _ _ _ Hps Hc) as (p & Hp & H). eauto.
    + destruct (proj2 (mapPoints_run items w) Hn) as [t ->].
      eexists. split; [reflexivity |]. simpl. split; [auto |].
      split; [split; [discriminate |] |].
      { intros (raw & [= <-] & H). contradiction. }
      split; [| split; discriminate]. intros raw [= <-] H. contradiction.
Qed.

End History.

Lemma history_answers_witness :
  exists p1 p2,
    fst (CryptoHistory.GET sampleKlines sampleParseFloat
           [(lit "symbol", lit "ETHUSDT"); (lit "interval", [])] (boot 0))
    = Returned
        (mkHttp 200
           (JObj [(lit "symbol", JStr (lit "ETHUSDT"));
                  (lit "interval", JStr (lit "1h"));
                  (lit "points", JArr [p1; p2])]))
    /\ getProp p2 (lit "time")
       = Some (JNum (JsNumber.Finite (inject_Z 1700003600000)))
    /\ getProp p2 (lit "close") = Some (JNum (JsNumber.Finite (inject_Z 64100))).
Proof.
  destruct (history_answers sampleKlines sampleParseFloat
              [(lit "symbol", lit "ETHUSDT"); (lit "interval", [])] (boot 0))
    as (resp & Hrun & _ & _ & H & _).
  destruct (H _ eq_refl) as (points & -> & Hlen & Hpts).
  { repeat constructor. }
  destruct points as [|p1 [|p2 [|p3 points]]]; try discriminate.
  exists p1, p2. rewrite Hrun. split; [reflexivity |].
  destruct (Hpts 1%nat _ eq_refl) as (p & [= <-] & Ht & Hc).
  split; [exact Ht | exact Hc].
Defined.

(** ** The chat form against the route *)

Lemma replyOf_nonempty (r : InvokeAgentResponse) : replyOf r <> [].
Proof.
  unfold replyOf. destruct (JsString.blank (decodedText r)) eqn:E;
    [discriminate |].
  intros H. rewrite H in E. discriminate.
Qed.

Lemma orElse_nonempty (m : option jsstring) (d : jsstring) :
  d <> [] -> orElse m d <> [].
Proof. intros Hd. destruct m as [[|c s]|]; simpl; [exact Hd | discriminate | exact Hd]. Qed.

Lemma aiText_answer (sid : jsstring) (o : Outcome InvokeAgentResponse) :
  exists text,
    text <> []
    /\ Page.aiText (Some (body (answer sid (gatewayResult o)))) = JStr text
    /\ (status (answer sid (gatewayResult o)) = 200 ->
        getProp (body (answer sid (gatewayResult o))) (lit "reply")
        = Some (JStr text))
    /\ (status (answer sid (gatewayResult o)) = 500 ->
        getProp (body (answer sid (gatewayResult o))) (lit "error")
        = Some (JStr text)).
Proof.
  assert (forall t : Thrown, exists text,
             text <> []
             /\ Page.aiText (Some (body (answer sid (Threw t)))) = JStr text
             /\ (status (answer sid (Threw t)) = 200 ->
                 getProp (body (answer sid (Threw t))) (lit "reply")
                 = Some (JStr text))
             /\ (status (answer sid (Threw t)) = 500 ->
                 getProp (body (answer sid (Threw t))) (lit "error")
                 = Some (JStr text))) as Hthrew.
  { intros t. exists (orElse (messageOf t) GENERIC_FAILURE).
    assert (orElse (messageOf t) GENERIC_FAILURE <> []) as Hne
      by (apply orElse_nonempty; discriminate).
    split; [exact Hne |]. split; [| split; [discriminate | reflexivity]].
    simpl. unfold Page.replyText. simpl.
    destruct (orElse (messageOf t) GENERIC_FAILURE); [congruence | reflexivity]. }
  destruct o as [r | t]; [| apply Hthrew].
  unfold gatewayResult. destruct (c ← completion r; failure c) as [e|];
    [apply Hthrew |].
  exists (replyOf r). split; [apply replyOf_nonempty |].
  split; [reflexivity | split; [reflexivity | discriminate]].
Qed.

(** X15.  The chat form sends nothing when the input is blank and leaves
    input and messages as they are.  Otherwise it sends the trimmed input
    as [question], which passes the route's validation whatever the
    platform does, and when the response comes back it shows the question
    and then a text that is never empty: the [reply] of a 200 response, the
    [error] of a 500 response.  This holds against both copies of the
    route. *)
Theorem chat_form_round_trip
    (env : Env) (w : World) (chatInput chatSessionId : jsstring)
    (chatMessages : list (Page.Sender * Json)) :
  (JsString.blank chatInput = true ->
   forall server,
     Page.handleChatAsk server chatInput chatSessionId chatMessages
     = (chatInput, chatMessages))
  /\ (JsString.blank chatInput = false ->
      forall POST,
        POST = ChatRoute.POST env \/ POST = ChatRouteCopy.POST env ->
        let question := JsString.trim chatInput in
        exists resp w' text,
          POST (Parsed (Page.chatBody question chatSessionId)) w = (Returned resp, w')
          /\ (status resp = 200 \/ status resp = 500)
          /\ text <> []
          /\ Page.handleChatAsk (roundTrip POST w)
               chatInput chatSessionId chatMessages
             = ([], chatMessages ++ [(Page.user, JStr question); (Page.ai, JStr text)])
          /\ (status resp = 200 ->
              getProp (body resp) (lit "reply") = Some (JStr text))
          /\ (status resp = 500 ->
              getProp (body resp) (lit "error") = Some (JStr text))).
Proof.
  split.
  - intros Hb server. unfold Page.handleChatAsk.
    rewrite (proj2 (trim_nil chatInput) Hb). reflexivity.
  - intros Hb POST HPOST question.
    assert (question <> []) as Hq.
    { subst question. intros H. apply trim_nil in H. congruence. }
    assert (Page.chatBody question chatSessionId <> JNull) as Hj by discriminate.
    assert (invalidQuestion
              (getProp (Page.chatBody question chatSessionId) (lit "question"))
            = false) as Hv.
    { change (getProp (Page.chatBody question chatSessionId) (lit "question"))
        with (Some (JStr question)).
      destruct question; [congruence | reflexivity]. }
    assert (exists sid o w',
               POST (Parsed (Page.chatBody question chatSessionId)) w
               = (Returned (answer sid (gatewayResult o)), w')) as (sid & o & w' & Hrun).
    { destruct HPOST as [-> | ->].
      - destruct (ChatRoute_POST_valid env _ w Hj Hv) as (ts & w' & Hrun & _). eauto.
      - destruct (ChatRouteCopy_POST_valid env _ w Hj Hv) as (w' & Hrun & _). eauto. }
    destruct (aiText_answer sid o) as (text & Hne & Hai & H200 & H500).
    exists (answer sid (gatewayResult o)), w', text.
    split; [exact Hrun |].
    split; [destruct (gatewayResult o); simpl; auto |].
    split; [exact Hne |]. split; [| split; assumption].
    unfold Page.handleChatAsk. fold question.
    destruct question as [|c q] eqn:E; [congruence |].
    unfold roundTrip. rewrite Hrun. cbn [fst]. rewrite Hai, <- app_assoc.
    reflexivity.
Qed.

Lemma chat_form_round_trip_witness :
  exists resp w' text,
    ChatRoute.POST quietEnv (Parsed (Page.chatBody (lit "hi") (lit "abc")))
      (boot 1700000000000) = (Returned resp, w')
    /\ status resp = 200
    /\ text = lit "Hello"
    /\ getProp (body resp) (lit "reply") = Some (JStr text).
Proof.
  destruct (chat_form_round_trip quietEnv (boot 1700000000000) (lit " hi ")
              (lit "abc") []) as [_ H].
  destruct (H eq_refl (ChatRoute.POST quietEnv) (or_introl eq_refl))
    as (resp & w' & text & Hrun & _ & _ & _ & H200 & _).
  exists resp, w', text. split; [exact Hrun |].
  assert (status resp = 200) as Hst.
  { vm_compute in Hrun. injection Hrun as <- _. reflexivity. }
  split; [exact Hst |]. split; [| exact (H200 Hst)].
  specialize (H200 Hst). vm_compute in Hrun. injection Hrun as <- _.
  vm_compute in H200. injection H200 as <-. reflexivity.
Defined.

(** ** Derived user names *)

Section Usernames.

Variable lowerOther : jsstring -> jsstring.

#[local] Abbreviation derive := (Cognito.deriveUsernameFromEmail lowerOther).

Lemma underscored_chars (s : jsstring) :
  Forall (fun c => Cognito.isAsciiAlnum c = true \/ c = 95%N)
    (Cognito.underscored s).
Proof.
  unfold Cognito.underscored. induction s as [|c s IH]; constructor; [| exact IH].
  destruct (Cognito.isAsciiAlnum c) eqn:E; auto.
Qed.

Lemma Forall_take_list {A} (P : A -> Prop) (n : nat) (l : list A) :
  Forall P l -> Forall P (take n l).
Proof.
  intros H. apply Forall_forall. intros x Hx. rewrite Forall_forall in H.
  apply H. eapply elem_of_take_list. exact Hx.
Qed.

Lemma lowered_chars (s : jsstring) :
  Forall (fun c => (c < 128)%N) s ->
  Forall (fun c => (48 <= c <= 57 \/ 97 <= c <= 122 \/ c = 95)%N)
    (Cognito.underscored (List.map Cognito.asciiLower s)).
Proof.
  induction 1 as [|c s Hc _ IH]; [constructor |]. constructor; [| exact IH].
  unfold Cognito.asciiLower, Cognito.isAsciiAlnum.
  destruct (N.leb_spec 65 c), (N.leb_spec c 90); cbn [andb];
    repeat match goal with
           | |- context [(?a <=? ?b)%N] => destruct (N.leb_spec a b)
           end; cbn [andb orb]; lia.
Qed.

Lemma lowered_fixed (r : jsstring) :
  Forall (fun c => (48 <= c <= 57 \/ 97 <= c <= 122 \/ c = 95)%N) r ->
  Cognito.isAscii r = true
  /\ List.map Cognito.asciiLower r = r
  /\ Cognito.underscored r = r.
Proof.
  unfold Cognito.isAscii, Cognito.underscored.
  induction 1 as [|c r Hc _ (IH1 & IH2 & IH3)]; [auto |].
  cbn [forallb List.map]. rewrite IH1, IH2, IH3.
  unfold Cognito.asciiLower, Cognito.isAsciiAlnum.
  assert ((c <? 128)%N = true) as -> by (apply N.ltb_lt; lia).
  repeat match goal with
         | |- context [(?a <=? ?b)%N] => destruct (N.leb_spec a b)
         end; cbn [andb orb]; repeat split; try reflexivity; try lia;
    f_equal; lia.
Qed.

(** X16.  A derived user name has at most 30 code units, each an ASCII
    letter, a digit or '_'; so it holds no '@' and no '.', and is never an
    e-mail address.  For an ASCII address it has the length of the address
    up to 30, no capital letter, and deriving again changes nothing. *)
Theorem derived_username_shape (email : jsstring) :
  (length (derive email) <= 30)%nat
  /\ Forall (fun c => Cognito.isAsciiAlnum c = true \/ c = 95%N) (derive email)
  /\ ~ (64%N ∈ derive email)
  /\ ~ (46%N ∈ derive email)
  /\ (Cognito.isAscii email = true ->
      length (derive email) = Nat.min 30 (length email)
      /\ Forall (fun c => (48 <= c <= 57 \/ 97 <= c <= 122 \/ c = 95)%N)
           (derive email)
      /\ derive (derive email) = derive email).
Proof.
  assert (Forall (fun c => Cognito.isAsciiAlnum c = true \/ c = 95%N) (derive email))
    as Hall by (apply Forall_take_list, underscored_chars).
  split; [unfold Cognito.deriveUsernameFromEmail; rewrite length_take; lia |].
  split; [exact Hall |].
  rewrite Forall_forall in Hall.
  split; [intros Hin; destruct (Hall _ Hin) as [H | H]; discriminate |].
  split; [intros Hin; destruct (Hall _ Hin) as [H | H]; discriminate |].
  intros Hascii.
  assert (derive email
          = take 30 (Cognito.underscored (List.map Cognito.asciiLower email)))
    as Hd.
  { unfold Cognito.deriveUsernameFromEmail, Cognito.toLowerCase.
    rewrite Hascii. reflexivity. }
  assert (Forall (fun c => (48 <= c <= 57 \/ 97 <= c <= 122 \/ c = 95)%N)
            (derive email)) as Hlow.
  { rewrite Hd. apply Forall_take_list, lowered_chars.
    unfold Cognito.isAscii in Hascii. rewrite forallb_forall in Hascii.
    apply Forall_forall. intros c Hc. apply N.ltb_lt, Hascii, list_elem_of_In.
    exact Hc. }
  split; [| split; [exact Hlow |]].
  - rewrite Hd, length_take. unfold Cognito.underscored.
    rewrite !length_map. reflexivity.
  - destruct (lowered_fixed _ Hlow) as (Ha & Hl & Hu).
    unfold Cognito.deriveUsernameFromEmail at 1. unfold Cognito.toLowerCase.
    rewrite Ha, Hl, Hu. apply take_ge.
    unfold Cognito.deriveUsernameFromEmail. rewrite length_take. lia.
Qed.

Lemma alike_underscored (a b : N) :
  alike a b ->
  (if Cognito.isAsciiAlnum (Cognito.asciiLower a) then Cognito.asciiLower a else 95%N)
  = (if Cognito.isAsciiAlnum (Cognito.asciiLower b) then Cognito.asciiLower b else 95%N).
Proof.
  intros [H | [Ha Hb]]; [rewrite H; reflexivity |].
  assert (forall c, Cognito.isAsciiAlnum c = false ->
                    Cognito.isAsciiAlnum (Cognito.asciiLower c) = false) as Hl.
  { intros c Hc. unfold Cognito.asciiLower.
    destruct (_ && _) eqn:E; [| exact Hc].
    unfold Cognito.isAsciiAlnum in Hc. rewrite E in Hc.
    rewrite orb_true_r in Hc. discriminate. }
  rewrite (Hl a Ha), (Hl b Hb). reflexivity.
Qed.

(** X17.  The derivation is many to one.  Two ASCII e-mail addresses whose
    first 30 code units are pairwise alike, the same letter in either case
    or both something other than a letter or digit, get the same user
    name, whatever follows; and sign-up and confirmation derive the same
    user name from an address, while sign-in uses the address itself. *)
Theorem derived_username_collisions (e1 e2 : jsstring) :
  Cognito.isAscii e1 = true -> Cognito.isAscii e2 = true ->
  Forall2 alike (take 30 e1) (take 30 e2) ->
  derive e1 = derive e2
  /\ Cognito.signUpUsername lowerOther e1 = Cognito.confirmUsername lowerOther e2
  /\ Cognito.signInUsername e1 = e1.
Proof.
  intros H1 H2 Hal.
  assert (derive e1 = derive e2) as Hd.
  { unfold Cognito.deriveUsernameFromEmail, Cognito.toLowerCase,
      Cognito.underscored.
    rewrite H1, H2, !map_map, !firstn_map.
    induction Hal as [|a b l1 l2 Hab _ IH]; [reflexivity |].
    simpl. rewrite IH. f_equal. apply alike_underscored. exact Hab. }
  split; [exact Hd |]. split; [exact Hd | reflexivity].
Qed.

End Usernames.

Lemma derived_username_shape_witness :
  Cognito.deriveUsernameFromEmail (fun s => s)
    (lit "A.Very.Long.Address.Indeed@example.org")
  = lit "a_very_long_address_indeed_exa"
  /\ Cognito.deriveUsernameFromEmail (fun s => s)
       (Cognito.deriveUsernameFromEmail (fun s => s)
          (lit "A.Very.Long.Address.Indeed@example.org"))
     = Cognito.deriveUsernameFromEmail (fun s => s)
         (lit "A.Very.Long.Address.Indeed@example.org").
Proof.
  split; [reflexivity |].
  destruct (derived_username_shape (fun s => s)
              (lit "A.Very.Long.Address.Indeed@example.org"))
    as (_ & _ & _ & _ & H).
  destruct (H eq_refl) as (_ & _ & Hidem). exact Hidem.
Defined.

Lemma derived_username_collisions_witness :
  Cognito.deriveUsernameFromEmail (fun s => s) (lit "Ann.Lee@example.com")
  = Cognito.deriveUsernameFromEmail (fun s => s) (lit "ann_lee+example-com")
  /\ Cognito.deriveUsernameFromEmail (fun s => s) (lit "Ann.Lee@example.com")
     = lit "ann_lee_example_com".
Proof.
  split; [| reflexivity].
  apply (derived_username_collisions (fun s => s)); [reflexivity | reflexivity |].
  vm_compute.
  repeat (constructor;
          [first [left; reflexivity | right; split; reflexivity] |]).
  constructor.
Defined.
